(** * MatrusVox: a shallow embedding of the live transcription client

    The development follows the TypeScript sources:
    - [src/types.ts]               -> [Module Types]
    - [src/services/geminiLive.ts] -> [Module GeminiLive]
    - [src/App.tsx]                -> [Module App]
    - [connect()] from each of its [await]s on -> [Module Resumed]
    - the copy button, the file reader and the unmount of [src/App.tsx]
                                   -> [Module AppRest]
    The JavaScript values and built-ins the program relies on (strings of
    UTF-16 code units, IEEE 754 doubles, [Math.min], [Math.max], typed-array
    stores, [String.fromCharCode], [btoa], [String.prototype.trim]) are
    collected in [Module JS], each written after its ECMAScript definition.

    Numbers are Rocq's primitive binary64 floats, which are the doubles of
    JavaScript.  Effects are explicit: every call that leaves the program
    (platform APIs, the vendor SDK, the observers handed to the service) is
    recorded in a trace, and every answer the outside world gives is taken
    from an environment record. *)

From Stdlib Require Import ZArith NArith List Bool String Ascii Lia Floats DecimalString.
From Stdlib Require DecimalN DecimalPos.
From stdpp Require Import base option list.
Import ListNotations.

Local Open Scope N_scope.

(* ===================================================================== *)
(** * JavaScript values and built-ins *)
(* ===================================================================== *)

Module JS.

(** A JavaScript string is a sequence of 16-bit code units. *)
Definition code_unit := N.
Definition jsstring := list code_unit.

(** A string literal of the source (ASCII only in this program). *)
Definition lit (s : string) : jsstring :=
  map N_of_ascii (list_ascii_of_string s).

(** [ToBoolean] on a string: only the empty string is falsy. *)
Definition truthy (s : jsstring) : bool :=
  match s with
  | [] => false
  | _ :: _ => true
  end.

(** [a || b] on strings. *)
Definition or_else (a b : jsstring) : jsstring :=
  if truthy a then a else b.

(** ECMAScript [WhiteSpace] and [LineTerminator] code points, the set that
    [String.prototype.trim] removes. *)
Definition is_white_space (c : code_unit) : bool :=
  (c =? 9) || (c =? 10) || (c =? 11) || (c =? 12) || (c =? 13)
  || (c =? 32) || (c =? 160) || (c =? 5760)
  || ((8192 <=? c) && (c <=? 8202))
  || (c =? 8232) || (c =? 8233) || (c =? 8239) || (c =? 8287)
  || (c =? 12288) || (c =? 65279).

Fixpoint trimStart (s : jsstring) : jsstring :=
  match s with
  | [] => []
  | c :: s' => if is_white_space c then trimStart s' else s
  end.

Definition trimEnd (s : jsstring) : jsstring :=
  rev (trimStart (rev s)).

Definition trim (s : jsstring) : jsstring :=
  trimEnd (trimStart s).

(** [Number.prototype.toString] on a non-negative integer (a clock reading). *)
Definition Number_toString (n : N) : jsstring :=
  lit (NilZero.string_of_uint (N.to_uint n)).

(** An [Error] object, reduced to its [message] (an absent message reads as
    the empty string, which [||] treats alike). *)
Record Error : Type := mkError { message : jsstring }.

(** The outcome of a call: it returns, it throws (a rejected promise under
    [await] throws too), or it is an [await] that is never resumed. *)
Inductive completion (A : Type) : Type :=
| Normal (a : A)
| Throw (e : Error)
| Pending.
Arguments Normal {A} a.
Arguments Throw {A} e.
Arguments Pending {A}.

(** The outcome of a synchronous call: it returns or it throws. *)
Inductive outcome (A : Type) : Type :=
| Returns (a : A)
| Throws (e : Error).
Arguments Returns {A} a.
Arguments Throws {A} e.

Definition sync {A : Type} (o : outcome A) : completion A :=
  match o with
  | Returns a => Normal a
  | Throws e => Throw e
  end.

(** [for (let i = 0; i < n; i++) body] over a loop-carried state. *)
Definition for_loop {S : Type} (n : nat) (body : S -> nat -> S) (init : S) : S :=
  fold_left body (seq 0 n) init.

(** ** Numbers *)

Definition is_pos_zero (x : float) : bool :=
  match classify x with PZero => true | _ => false end.

Definition is_neg_zero (x : float) : bool :=
  match classify x with NZero => true | _ => false end.

(** [Math.min(...args)], ECMA-262 21.3.2.25: start from +Infinity; a NaN
    argument gives NaN; -0 is below +0. *)
Fixpoint Math_min_from (lowest : float) (args : list float) : float :=
  match args with
  | [] => lowest
  | number :: rest =>
      if is_nan number then nan
      else
        let lowest := if is_neg_zero number && is_pos_zero lowest then number else lowest in
        let lowest := if (number <? lowest)%float then number else lowest in
        Math_min_from lowest rest
  end.

Definition Math_min (args : list float) : float :=
  Math_min_from infinity args.

(** [Math.max(...args)], ECMA-262 21.3.2.24. *)
Fixpoint Math_max_from (highest : float) (args : list float) : float :=
  match args with
  | [] => highest
  | number :: rest =>
      if is_nan number then nan
      else
        let highest := if is_pos_zero number && is_neg_zero highest then number else highest in
        let highest := if (highest <? number)%float then number else highest in
        Math_max_from highest rest
  end.

Definition Math_max (args : list float) : float :=
  Math_max_from neg_infinity args.

(** The integer part of a finite double, toward zero; NaN, the zeros and the
    infinities give 0, as in the first steps of [ToInt16]. *)
Definition truncate (x : float) : Z :=
  match Prim2SF x with
  | S754_finite s m e =>
      let magnitude := Z.shiftl (Z.pos m) e in
      if s then (- magnitude)%Z else magnitude
  | _ => 0%Z
  end.

(** [ToInt16], ECMA-262 7.1.8: the conversion a store into an
    [Int16Array] applies. *)
Definition ToInt16 (x : float) : Z :=
  let int16bit := (truncate x mod 2 ^ 16)%Z in
  if (2 ^ 15 <=? int16bit)%Z then (int16bit - 2 ^ 16)%Z else int16bit.

(** The two bytes of an [Int16Array] element as a [Uint8Array] over the same
    buffer sees them (two's complement; the byte order is the platform's,
    little-endian on every platform a browser runs on). *)
Definition int16_bytes (v : Z) : list N :=
  let u := (v mod 2 ^ 16)%Z in
  [Z.to_N (u mod 256); Z.to_N (u / 256)].

(** [new Uint8Array(int16.buffer)]. *)
Definition Uint8Array_of_Int16Array (int16 : list Z) : list N :=
  flat_map int16_bytes int16.

(** [String.fromCharCode(n)]: the code unit [ToUint16 n]. *)
Definition String_fromCharCode (n : N) : code_unit :=
  n mod 65536.

(** ** Base64 (RFC 4648, section 4), the encoding behind [btoa] *)

Definition alphabet : jsstring :=
  lit "ABCDEFGHIJKLMNOPQRSTUVWXYZabcdefghijklmnopqrstuvwxyz0123456789+/".

(** The padding character [=]. *)
Definition pad : code_unit := 61.

Definition sextet_char (i : N) : code_unit :=
  nth (N.to_nat i) alphabet pad.

Fixpoint index_from (i : N) (c : code_unit) (l : jsstring) : option N :=
  match l with
  | [] => None
  | d :: l' => if c =? d then Some i else index_from (N.succ i) c l'
  end.

Definition char_sextet (c : code_unit) : option N :=
  index_from 0 c alphabet.

Fixpoint base64_encode (bytes : list N) : jsstring :=
  match bytes with
  | [] => []
  | [a] =>
      [sextet_char (N.shiftr a 2);
       sextet_char (N.shiftl (N.land a 3) 4);
       pad; pad]
  | [a; b] =>
      [sextet_char (N.shiftr a 2);
       sextet_char (N.lor (N.shiftl (N.land a 3) 4) (N.shiftr b 4));
       sextet_char (N.shiftl (N.land b 15) 2);
       pad]
  | a :: b :: c :: rest =>
      sextet_char (N.shiftr a 2)
      :: sextet_char (N.lor (N.shiftl (N.land a 3) 4) (N.shiftr b 4))
      :: sextet_char (N.lor (N.shiftl (N.land b 15) 2) (N.shiftr c 6))
      :: sextet_char (N.land c 63)
      :: base64_encode rest
  end.

(** The three bytes two, three or four sextets stand for. *)
Definition join0 (s0 s1 : N) : N := N.lor (N.shiftl s0 2) (N.shiftr s1 4).
Definition join1 (s1 s2 : N) : N := N.lor (N.shiftl (N.land s1 15) 4) (N.shiftr s2 2).
Definition join2 (s2 s3 : N) : N := N.lor (N.shiftl (N.land s2 3) 6) s3.

Fixpoint base64_decode (s : jsstring) : option (list N) :=
  match s with
  | [] => Some []
  | c0 :: c1 :: c2 :: c3 :: rest =>
      match char_sextet c0, char_sextet c1 with
      | Some s0, Some s1 =>
          if c3 =? pad then
            match rest with
            | [] =>
                if c2 =? pad then Some [join0 s0 s1]
                else
                  match char_sextet c2 with
                  | Some s2 => Some [join0 s0 s1; join1 s1 s2]
                  | None => None
                  end
            | _ :: _ => None
            end
          else
            match char_sextet c2, char_sextet c3, base64_decode rest with
            | Some s2, Some s3, Some tail =>
                Some (join0 s0 s1 :: join1 s1 s2 :: join2 s2 s3 :: tail)
            | _, _, _ => None
            end
      | _, _ => None
      end
  | _ => None
  end.

(** [btoa(s)]: throws [InvalidCharacterError] when a code unit is above
    0xFF, and otherwise encodes the code units as bytes. *)
Definition btoa (s : jsstring) : completion jsstring :=
  if forallb (fun c => c <=? 255) s
  then Normal (base64_encode s)
  else Throw (mkError (lit "InvalidCharacterError")).

(** [atob(s)] on a padded Base64 string (the inverse direction; the program
    itself never decodes, the receiving service does). *)
Definition atob (s : jsstring) : option (list N) :=
  base64_decode s.

End JS.


(* ===================================================================== *)
(** * Effects: state, exceptions and a trace of outside calls *)
(* ===================================================================== *)

Module Eff.

Import JS.

Section Monad.

Context {St Ev : Type}.

(** A computation reads and writes the state [St], ends in a
    [completion], and leaves the list of events it caused, in order. *)
Definition M (A : Type) : Type := St -> completion A * St * list Ev.

Definition ret {A} (a : A) : M A :=
  fun s => (Normal a, s, []).

Definition bind {A B} (m : M A) (k : A -> M B) : M B :=
  fun s =>
    match m s with
    | (Normal a, s1, t1) =>
        match k a s1 with
        | (r, s2, t2) => (r, s2, t1 ++ t2)
        end
    | (Throw e, s1, t1) => (Throw e, s1, t1)
    | (Pending, s1, t1) => (Pending, s1, t1)
    end.

Definition throw {A} (e : Error) : M A :=
  fun s => (Throw e, s, []).

(** [try { m } catch (e) { h e }] *)
Definition try_catch {A} (m : M A) (h : Error -> M A) : M A :=
  fun s =>
    match m s with
    | (Throw e, s1, t1) =>
        match h e s1 with
        | (r, s2, t2) => (r, s2, t1 ++ t2)
        end
    | other => other
    end.

(** [try { m } finally { f }]: [f] runs after a normal or an abrupt
    completion, and not while [m] is still suspended. *)
Definition try_finally {A} (m : M A) (f : M unit) : M A :=
  fun s =>
    match m s with
    | (Pending, s1, t1) => (Pending, s1, t1)
    | (r, s1, t1) =>
        match f s1 with
        | (Normal _, s2, t2) => (r, s2, t1 ++ t2)
        | (Throw e, s2, t2) => (Throw e, s2, t1 ++ t2)
        | (Pending, s2, t2) => (Pending, s2, t1 ++ t2)
        end
    end.

Definition get : M St :=
  fun s => (Normal s, s, []).

Definition modify (f : St -> St) : M unit :=
  fun s => (Normal tt, f s, []).

(** A call that leaves the program and cannot fail. *)
Definition emit (ev : Ev) : M unit :=
  fun s => (Normal tt, s, [ev]).

(** A call that leaves the program; the environment supplies its outcome. *)
Definition call {A} (ev : Ev) (answer : completion A) : M A :=
  fun s => (answer, s, [ev]).

(** A pure step that may throw. *)
Definition lift {A} (c : completion A) : M A :=
  fun s => (c, s, []).

Definition when (b : bool) (m : M unit) : M unit :=
  if b then m else ret tt.

End Monad.

Arguments M : clear implicits.

Definition result {St Ev A} (r : completion A * St * list Ev) : completion A := r.1.1.
Definition final {St Ev A} (r : completion A * St * list Ev) : St := r.1.2.
Definition trace {St Ev A} (r : completion A * St * list Ev) : list Ev := r.2.

End Eff.

Declare Scope eff_scope.
Delimit Scope eff_scope with eff.
Notation "x <- m ;; k" := (Eff.bind m (fun x => k))
  (at level 20, m at level 99, k at level 200, only parsing) : eff_scope.
Notation "m ;; k" := (Eff.bind m (fun _ => k))
  (at level 100, k at level 200, only parsing, right associativity) : eff_scope.

(* ===================================================================== *)
(** * src/types.ts *)
(* ===================================================================== *)

Module Types.

Import JS.

Inductive Speaker : Type := user | model.

Record TranscriptItem : Type := mkItem {
  id : jsstring;
  text : jsstring;
  isPartial : bool;
  timestamp : N;
  speaker : Speaker
}.

Inductive ConnectionState : Type :=
| DISCONNECTED
| CONNECTING
| CONNECTED
| ERROR.

Definition ConnectionState_eqb (a b : ConnectionState) : bool :=
  match a, b with
  | DISCONNECTED, DISCONNECTED => true
  | CONNECTING, CONNECTING => true
  | CONNECTED, CONNECTED => true
  | ERROR, ERROR => true
  | _, _ => false
  end.

End Types.

(* ===================================================================== *)
(** * The vendor SDK's data shapes, as the program reads and builds them *)
(* ===================================================================== *)

Module GenAI.

Import JS.

(** The media payload of [sendRealtimeInput]. *)
Record Blob : Type := mkBlob {
  data : jsstring;
  mimeType : jsstring
}.

(** [Transcription.text] is optional. *)
Record Transcription : Type := mkTranscription {
  text : option jsstring
}.

Record LiveServerContent : Type := mkContent {
  inputTranscription : option Transcription;
  turnComplete : option bool
}.

Record LiveServerMessage : Type := mkMessage {
  serverContent : option LiveServerContent
}.

Inductive Modality : Type := AUDIO | TEXT.

Inductive Callback : Type := onopen | onmessage | onclose | onerror.

(** The argument of [ai.live.connect]. *)
Record LiveConnectParameters : Type := mkParams {
  model : jsstring;
  callbacks : list Callback;
  responseModalities : list Modality;
  inputAudioTranscription : bool;
  systemInstruction : jsstring
}.

(** A live session; [close] is what calling [session.close()] does. *)
Record LiveSession : Type := mkSession {
  close : outcome unit
}.

End GenAI.

(* ===================================================================== *)
(** * src/services/geminiLive.ts *)
(* ===================================================================== *)

Module GeminiLive.

Import JS Eff Types.
Local Open Scope eff_scope.

(** ** Platform handles *)

Record AudioContext : Type := mkContext {
  sampleRate : N
}.

Record MediaStream : Type := mkStream {
  getTracks : list nat
}.

Record MediaStreamAudioSourceNode : Type := mkSource {
  mediaStream : MediaStream
}.

(** [onaudioprocess] is [null] or the one closure [setupAudioProcessing]
    builds, which captures the session promise. *)
Record ScriptProcessorNode : Type := mkProcessor {
  bufferSize : N;
  numberOfInputChannels : N;
  numberOfOutputChannels : N;
  onaudioprocess : option GenAI.LiveSession
}.

(** ** Calls that leave the service *)

Inductive ConsoleLevel : Type := log | warn | error.

Inductive Event : Type :=
| NewAudioContext (rate : N)
| GetUserMedia (audio : bool)
| LiveConnect (params : GenAI.LiveConnectParameters)
| CreateMediaStreamSource (s : MediaStream)
| CreateScriptProcessor (size inputs outputs : N)
| SetOnAudioProcess (attached : bool)
| SourceConnect
| ProcessorConnect
| SessionClose (s : GenAI.LiveSession)
| ProcessorDisconnect
| SourceDisconnect
| TrackStop (track : nat)
| ContextClose (c : AudioContext)
| SendRealtimeInput (s : GenAI.LiveSession) (media : GenAI.Blob)
| OnTranscriptionUpdate (item : TranscriptItem)
| OnStatusChange (status : bool)
| OnError (msg : jsstring)
| Console (level : ConsoleLevel) (msg : jsstring).

(** ** The fields of [GeminiLiveService] *)

Record Service : Type := mkService {
  session : option GenAI.LiveSession;
  inputAudioContext : option AudioContext;
  stream : option MediaStream;
  processor : option ScriptProcessorNode;
  source : option MediaStreamAudioSourceNode;
  currentInputTranscription : jsstring
}.

(** The field initializers of the class. *)
Definition new_Service : Service :=
  mkService None None None None None [].

Definition set_session v (s : Service) : Service :=
  mkService v (inputAudioContext s) (stream s) (processor s) (source s)
            (currentInputTranscription s).
Definition set_inputAudioContext v (s : Service) : Service :=
  mkService (session s) v (stream s) (processor s) (source s)
            (currentInputTranscription s).
Definition set_stream v (s : Service) : Service :=
  mkService (session s) (inputAudioContext s) v (processor s) (source s)
            (currentInputTranscription s).
Definition set_processor v (s : Service) : Service :=
  mkService (session s) (inputAudioContext s) (stream s) v (source s)
            (currentInputTranscription s).
Definition set_source v (s : Service) : Service :=
  mkService (session s) (inputAudioContext s) (stream s) (processor s) v
            (currentInputTranscription s).
Definition set_currentInputTranscription v (s : Service) : Service :=
  mkService (session s) (inputAudioContext s) (stream s) (processor s)
            (source s) v.

Definition SM := M Service Event.

(** ** Audio utilities *)

(** [encode(bytes)] *)
Definition encode (bytes : list N) : completion jsstring :=
  let len := length bytes in
  let binary :=
    for_loop len
      (fun binary i => binary ++ [String_fromCharCode (default 0 (bytes !! i))])
      [] in
  btoa binary.

(** The body of the loop of [createBlob]; a read past the end of a
    [Float32Array] is [undefined], which [Math.min] turns into NaN. *)
Definition createBlob_step (data : list float) (int16 : list Z) (i : nat) : list Z :=
  let s := Math_max [(-1)%float; Math_min [1%float; default nan (data !! i)]] in
  <[i := ToInt16 (if (s <? 0)%float then (s * 0x8000)%float else (s * 0x7FFF)%float)]> int16.

(** The [Int16Array] that [createBlob] fills: [new Int16Array(l)] is all
    zeros, and the loop stores into it. *)
Definition createBlob_int16 (data : list float) : list Z :=
  let l := length data in
  for_loop l (createBlob_step data) (repeat 0%Z l).

(** [createBlob(data)] *)
Definition createBlob (data : list float) : completion GenAI.Blob :=
  let int16 := createBlob_int16 data in
  match encode (Uint8Array_of_Int16Array int16) with
  | Normal d => Normal (GenAI.mkBlob d (lit "audio/pcm;rate=16000"))
  | Throw e => Throw e
  | Pending => Pending
  end.

(** ** Teardown *)

(** [disconnect()].  [session.close()] may throw and is guarded by the
    [try]; it closes a socket, whose close event arrives later as a callback
    of its own.  The other platform calls ([AudioNode.disconnect()],
    [MediaStreamTrack.stop()], [AudioContext.close()], which answers with a
    promise) do not throw. *)
Definition disconnect : SM unit :=
  s <- get ;;
  match session s with
  | Some sess =>
      try_catch
        (call (SessionClose sess) (sync (GenAI.close sess)))
        (fun e => emit (Console warn (lit "Error closing session")))
  | None => ret tt
  end ;;
  s <- get ;;
  match processor s with
  | Some p =>
      emit ProcessorDisconnect ;;
      emit (SetOnAudioProcess false) ;;
      modify (set_processor
                (Some (mkProcessor (bufferSize p) (numberOfInputChannels p)
                                   (numberOfOutputChannels p) None)))
  | None => ret tt
  end ;;
  s <- get ;;
  match source s with
  | Some _ => emit SourceDisconnect
  | None => ret tt
  end ;;
  s <- get ;;
  match stream s with
  | Some st => fold_right (fun track k => emit (TrackStop track) ;; k) (ret tt) (getTracks st)
  | None => ret tt
  end ;;
  s <- get ;;
  match inputAudioContext s with
  | Some c => emit (ContextClose c)
  | None => ret tt
  end ;;
  modify (set_session None) ;;
  modify (set_processor None) ;;
  modify (set_source None) ;;
  modify (set_stream None) ;;
  modify (set_inputAudioContext None) ;;
  modify (set_currentInputTranscription []) ;;
  emit (OnStatusChange false).

(** [getStream()] *)
Definition getStream (s : Service) : option MediaStream :=
  stream s.

(** ** Connecting *)

(** What the platform and the SDK answer during one [connect()]. *)
Record ConnectEnv : Type := mkConnectEnv {
  env_AudioContext : outcome AudioContext;
  env_getUserMedia : completion MediaStream;
  env_live_connect : completion GenAI.LiveSession;
  env_createMediaStreamSource : outcome unit;
  env_createScriptProcessor : outcome unit;
  env_source_connect : outcome unit;
  env_processor_connect : outcome unit
}.

(** The [config] object of [connect()]. *)
Definition config : GenAI.LiveConnectParameters :=
  GenAI.mkParams
    (lit "gemini-2.5-flash-native-audio-preview-12-2025")
    [GenAI.onopen; GenAI.onmessage; GenAI.onclose; GenAI.onerror]
    [GenAI.AUDIO]
    true
    (lit "You are a passive transcriber. Do not speak. Just listen and wait for the next input.").

(** [setupAudioProcessing(sessionPromise)] *)
Definition setupAudioProcessing (env : ConnectEnv) (sessionPromise : GenAI.LiveSession) : SM unit :=
  s <- get ;;
  match inputAudioContext s, stream s with
  | Some _, Some st =>
      call (CreateMediaStreamSource st) (sync (env_createMediaStreamSource env)) ;;
      modify (set_source (Some (mkSource st))) ;;
      call (CreateScriptProcessor 4096 1 1) (sync (env_createScriptProcessor env)) ;;
      modify (set_processor (Some (mkProcessor 4096 1 1 None))) ;;
      emit (SetOnAudioProcess true) ;;
      modify (set_processor (Some (mkProcessor 4096 1 1 (Some sessionPromise)))) ;;
      call SourceConnect (sync (env_source_connect env)) ;;
      call ProcessorConnect (sync (env_processor_connect env))
  | _, _ => ret tt
  end.

(** The [try] block of [connect()]. *)
Definition connect_try (env : ConnectEnv) : SM unit :=
  c <- call (NewAudioContext 16000) (sync (env_AudioContext env)) ;;
  modify (set_inputAudioContext (Some c)) ;;
  st <- call (GetUserMedia true) (env_getUserMedia env) ;;
  modify (set_stream (Some st)) ;;
  sess <- call (LiveConnect config) (env_live_connect env) ;;
  modify (set_session (Some sess)) ;;
  setupAudioProcessing env sess ;;
  emit (OnStatusChange true).

(** The [catch] block of [connect()]. *)
Definition connect_catch (e : Error) : SM unit :=
  emit (Console error (lit "Connection failed:")) ;;
  emit (OnError (or_else (message e) (lit "Failed to connect to Gemini Live Service"))) ;;
  disconnect.

(** [connect()], run from its call to its end: what other callbacks do
    while it waits on an [await] is not part of it. *)
Definition connect (env : ConnectEnv) : SM unit :=
  try_catch (connect_try env) connect_catch.

(** The closure assigned to [processor.onaudioprocess]. *)
Definition onaudioprocess_handler (sessionPromise : GenAI.LiveSession) (inputData : list float) : SM unit :=
  pcmBlob <- lift (createBlob inputData) ;;
  emit (SendRealtimeInput sessionPromise pcmBlob).

(** The platform hands a chunk of samples to whatever handler the
    processor holds at that moment. *)
Definition audioprocess (inputData : list float) : SM unit :=
  s <- get ;;
  match processor s with
  | Some p =>
      match onaudioprocess p with
      | Some sessionPromise => onaudioprocess_handler sessionPromise inputData
      | None => ret tt
      end
  | None => ret tt
  end.

(** ** Session callbacks *)

(** [handleOnOpen()] *)
Definition handleOnOpen : SM unit :=
  emit (Console log (lit "Gemini Live Session Opened")).

(** [emitTranscription(isPartial)]; [now] is the clock reading of
    [Date.now()] and [new Date()]. *)
Definition emitTranscription (now : N) (isPartial : bool) : SM unit :=
  s <- get ;;
  emit (OnTranscriptionUpdate
          (mkItem (if isPartial then lit "current-turn" else Number_toString now)
                  (currentInputTranscription s)
                  isPartial
                  now
                  user)).

(** The first block of [handleOnMessage]: user transcription. *)
Definition handleInputTranscription (now : N) (message : GenAI.LiveServerMessage) : SM unit :=
  match serverContent ← GenAI.serverContent message;
        GenAI.inputTranscription serverContent with
  | Some inputTranscription =>
      let text := default [] (GenAI.text inputTranscription) in
      if truthy text then
        modify (fun s => set_currentInputTranscription (currentInputTranscription s ++ text) s) ;;
        emitTranscription now true
      else ret tt
  | None => ret tt
  end.

(** The second block of [handleOnMessage]: turn complete. *)
Definition handleTurnComplete (now : N) (message : GenAI.LiveServerMessage) : SM unit :=
  match serverContent ← GenAI.serverContent message;
        GenAI.turnComplete serverContent with
  | Some true =>
      s <- get ;;
      if truthy (trim (currentInputTranscription s)) then
        emitTranscription now false ;;
        modify (set_currentInputTranscription [])
      else ret tt
  | _ => ret tt
  end.

(** [handleOnMessage(message)] *)
Definition handleOnMessage (now : N) (message : GenAI.LiveServerMessage) : SM unit :=
  handleInputTranscription now message ;;
  handleTurnComplete now message.

(** [handleOnClose(e)] *)
Definition handleOnClose : SM unit :=
  emit (Console log (lit "Session closed")) ;;
  disconnect.

(** [handleOnError(e)] *)
Definition handleOnError : SM unit :=
  emit (Console error (lit "Session error")) ;;
  emit (OnError (lit "Connection error occurred.")) ;;
  disconnect.

End GeminiLive.

(* ===================================================================== *)
(** * src/App.tsx *)
(* ===================================================================== *)

Module App.

Import JS Eff Types.
Local Open Scope eff_scope.

(** ** What the batch path exchanges with the browser and the SDK *)

(** A [File] picked in the file input; [size] is in bytes. *)
Record File : Type := mkFile {
  name : jsstring;
  size : N;
  type : jsstring
}.

(** The SDK's file record; an absent field reads as the empty string. *)
Record FileInfo : Type := mkFileInfo {
  uri : jsstring;
  state : jsstring;
  file_name : jsstring;
  mimeType : jsstring
}.

(** A response of [ai.files.upload] or [ai.files.get]: the file record is
    nested under [file] or is the response itself. *)
Record FileResponse : Type := mkFileResponse {
  file : option FileInfo;
  itself : FileInfo
}.

(** One part of the [contents] of a [generateContent] request. *)
Inductive Part : Type :=
| inlineData (mimeType data : jsstring)
| fileData (fileUri mimeType : jsstring)
| textPart (text : jsstring).

Inductive Event : Type :=
| Live (e : GeminiLive.Event)
| ReadAsDataURL (f : File)
| FilesUpload (f : File) (mimeType displayName : jsstring)
| SetTimeout (ms : N)
| FilesGet (name : jsstring)
| GenerateContent (model : jsstring) (parts : list Part)
| Confirm (msg : jsstring)
| ConsoleError (msg : jsstring).

(** ** The state of the component: its [useState] cells and refs *)

Record State : Type := mkState {
  connectionState : ConnectionState;
  transcripts : list TranscriptItem;
  currentText : jsstring;
  error : option jsstring;
  audioStream : option GeminiLive.MediaStream;
  isUploading : bool;
  uploadStatus : jsstring;
  liveService : option GeminiLive.Service;
  fileInput : jsstring
}.

(** The initial values of the hooks, before the mount effect has run. *)
Definition initial : State :=
  mkState DISCONNECTED [] [] None None false [] None [].

(** The mount effect: [liveService.current = new GeminiLiveService(...)]. *)
Definition mounted : State :=
  mkState DISCONNECTED [] [] None None false [] (Some GeminiLive.new_Service) [].

Definition setConnectionState v (s : State) : State :=
  mkState v (transcripts s) (currentText s) (error s) (audioStream s)
          (isUploading s) (uploadStatus s) (liveService s) (fileInput s).
Definition setTranscripts (f : list TranscriptItem -> list TranscriptItem) (s : State) : State :=
  mkState (connectionState s) (f (transcripts s)) (currentText s) (error s) (audioStream s)
          (isUploading s) (uploadStatus s) (liveService s) (fileInput s).
Definition setCurrentText v (s : State) : State :=
  mkState (connectionState s) (transcripts s) v (error s) (audioStream s)
          (isUploading s) (uploadStatus s) (liveService s) (fileInput s).
Definition setError v (s : State) : State :=
  mkState (connectionState s) (transcripts s) (currentText s) v (audioStream s)
          (isUploading s) (uploadStatus s) (liveService s) (fileInput s).
Definition setAudioStream v (s : State) : State :=
  mkState (connectionState s) (transcripts s) (currentText s) (error s) v
          (isUploading s) (uploadStatus s) (liveService s) (fileInput s).
Definition setIsUploading v (s : State) : State :=
  mkState (connectionState s) (transcripts s) (currentText s) (error s) (audioStream s)
          v (uploadStatus s) (liveService s) (fileInput s).
Definition setUploadStatus v (s : State) : State :=
  mkState (connectionState s) (transcripts s) (currentText s) (error s) (audioStream s)
          (isUploading s) v (liveService s) (fileInput s).
Definition set_liveService v (s : State) : State :=
  mkState (connectionState s) (transcripts s) (currentText s) (error s) (audioStream s)
          (isUploading s) (uploadStatus s) v (fileInput s).
Definition set_fileInput v (s : State) : State :=
  mkState (connectionState s) (transcripts s) (currentText s) (error s) (audioStream s)
          (isUploading s) (uploadStatus s) (liveService s) v.

Definition AM := M State Event.

(** ** The observers handed to the service *)

(** [handleTranscriptionUpdate(item)] *)
Definition handleTranscriptionUpdate (item : TranscriptItem) : AM unit :=
  if isPartial item then
    modify (setCurrentText (text item))
  else
    modify (setTranscripts (fun prev => prev ++ [item])) ;;
    modify (setCurrentText []).

(** [handleStatusChange(isConnected)] *)
Definition handleStatusChange (isConnected : bool) : AM unit :=
  modify (setConnectionState (if isConnected then CONNECTED else DISCONNECTED)) ;;
  s <- get ;;
  match isConnected, liveService s with
  | true, Some current =>
      modify (setAudioStream (GeminiLive.getStream current)) ;;
      modify (setError None)
  | _, _ => modify (setAudioStream None)
  end.

(** [handleError(errMessage)] *)
Definition handleError (errMessage : jsstring) : AM unit :=
  modify (setError (Some errMessage)) ;;
  modify (setConnectionState ERROR).

(** A call of the service reaches the component through the three
    observers; every other call goes to the platform. *)
Definition observe (e : GeminiLive.Event) : AM unit :=
  emit (Live e) ;;
  match e with
  | GeminiLive.OnTranscriptionUpdate item => handleTranscriptionUpdate item
  | GeminiLive.OnStatusChange status => handleStatusChange status
  | GeminiLive.OnError msg => handleError msg
  | _ => ret tt
  end.

Definition observe_all (t : list GeminiLive.Event) : AM unit :=
  fold_right (fun e k => observe e ;; k) (ret tt) t.

(** [liveService.current?.method()]: the method runs on the service object
    held by the ref and its calls are observed in order.  The one observer
    that reads the service, [handleStatusChange(true)], is the last
    statement of [connect], so reading the fields after the method has
    written them reads what the observer read. *)
Definition on_liveService (method : GeminiLive.SM unit) : AM unit :=
  s <- get ;;
  match liveService s with
  | None => ret tt
  | Some current =>
      match method current with
      | (r, current', t) =>
          modify (set_liveService (Some current')) ;;
          observe_all t ;;
          lift r
      end
  end.

(** ** User actions *)

(** [toggleRecording()] *)
Definition toggleRecording (env : GeminiLive.ConnectEnv) : AM unit :=
  render <- get ;;
  if ConnectionState_eqb (connectionState render) CONNECTED
     || ConnectionState_eqb (connectionState render) CONNECTING
  then on_liveService GeminiLive.disconnect
  else
    modify (setConnectionState CONNECTING) ;;
    on_liveService (GeminiLive.connect env).

(** [clearTranscripts()]; [answer] is what the user answers to the
    confirmation dialog, if it is shown. *)
Definition clearTranscripts (answer : bool) : AM unit :=
  render <- get ;;
  if (length (transcripts render) =? 0)%nat && negb (truthy (currentText render))
  then ret tt
  else
    confirmed <- call (Confirm (lit "Are you sure you want to clear the transcript?"))
                      (Normal answer) ;;
    if confirmed then
      modify (setTranscripts (fun _ => [])) ;;
      when (negb (ConnectionState_eqb (connectionState render) CONNECTED))
           (modify (setCurrentText []))
    else ret tt.

(** What the browser and the SDK answer during one upload. *)
Record UploadEnv : Type := mkUploadEnv {
  env_fileToBase64 : completion jsstring;
  env_files_upload : completion FileResponse;
  env_files_get : list (completion FileResponse);
  env_generateContent : completion jsstring;
  env_now : N
}.

(** The size threshold of [handleFileUpload], in bytes. *)
Definition threshold : N := 20 * 1024 * 1024.

Definition prompt : jsstring :=
  lit "Please provide a highly accurate, verbatim transcription of this audio file. Output only the transcription text.".

(** The [while (state === 'PROCESSING')] loop; [answers] are the successive
    outcomes of [ai.files.get], and the loop stays suspended when the
    service stops answering. *)
Fixpoint poll (fileName state : jsstring) (answers : list (completion FileResponse)) : AM unit :=
  if bool_decide (state = lit "PROCESSING") then
    match answers with
    | [] =>
        emit (SetTimeout 1000) ;;
        call (FilesGet fileName) Pending
    | answer :: rest =>
        emit (SetTimeout 1000) ;;
        getResponse <- call (FilesGet fileName) answer ;;
        let currentFile := default (itself getResponse) (file getResponse) in
        let state := App.state currentFile in
        if bool_decide (state = lit "FAILED")
        then throw (mkError (lit "File processing failed on server."))
        else poll fileName state rest
    end
  else ret tt.

(** The large-file branch: upload, poll, reference. *)
Definition uploadLargeFile (f : File) (env : UploadEnv) : AM Part :=
  modify (setUploadStatus (lit "Uploading large file...")) ;;
  try_catch
    (uploadResponse <- call (FilesUpload f (type f) (name f)) (env_files_upload env) ;;
     let fileResult := default (itself uploadResponse) (file uploadResponse) in
     if negb (truthy (uri fileResult)) then
       emit (ConsoleError (lit "Unexpected upload response structure:")) ;;
       throw (mkError (lit "Upload failed: No file URI returned from server."))
     else
       let fileUri := uri fileResult in
       let fileName := file_name fileResult in
       modify (setUploadStatus (lit "Processing file on server...")) ;;
       poll fileName (state fileResult) (env_files_get env) ;;
       ret (fileData fileUri (or_else (mimeType fileResult) (type f))))
    (fun uploadError =>
       emit (ConsoleError (lit "Upload failed")) ;;
       throw (mkError (lit "Large file upload failed: "
                       ++ or_else (message uploadError) (lit "Unknown error")
                       ++ lit ". Try a smaller file."))).

(** The small-file branch: the file is read and sent inline. *)
Definition inlineSmallFile (f : File) (env : UploadEnv) : AM Part :=
  modify (setUploadStatus (lit "Processing audio...")) ;;
  base64Data <- call (ReadAsDataURL f) (env_fileToBase64 env) ;;
  ret (inlineData (type f) base64Data).

(** The [try] block of [handleFileUpload]. *)
Definition handleFileUpload_try (f : File) (env : UploadEnv) : AM unit :=
  contentPart <-
    (if size f <? 20 * 1024 * 1024
     then inlineSmallFile f env
     else uploadLargeFile f env) ;;
  modify (setUploadStatus (lit "Transcribing...")) ;;
  text <- call (GenerateContent (lit "gemini-2.5-flash")
                                [contentPart; textPart prompt])
               (env_generateContent env) ;;
  when (truthy text)
       (modify (setTranscripts
                  (fun prev =>
                     prev ++ [mkItem (Number_toString (env_now env)) text false
                                     (env_now env) user]))).

(** Its [catch] block. *)
Definition handleFileUpload_catch (e : Error) : AM unit :=
  emit (ConsoleError (message e)) ;;
  modify (setError
            (Some (or_else (message e)
                           (lit "Failed to transcribe file. Please try again.")))).

(** Its [finally] block. *)
Definition handleFileUpload_finally : AM unit :=
  modify (setIsUploading false) ;;
  modify (setUploadStatus []) ;;
  modify (set_fileInput []).

(** [handleFileUpload(event)]; [selected] is [event.target.files?.[0]]. *)
Definition handleFileUpload (selected : option File) (env : UploadEnv) : AM unit :=
  match selected with
  | None => ret tt
  | Some f =>
      render <- get ;;
      modify (setIsUploading true) ;;
      modify (setError None) ;;
      modify (setUploadStatus (lit "Preparing...")) ;;
      when (ConnectionState_eqb (connectionState render) CONNECTED)
           (on_liveService GeminiLive.disconnect) ;;
      try_finally
        (try_catch (handleFileUpload_try f env) handleFileUpload_catch)
        handleFileUpload_finally
  end.

End App.

(* ===================================================================== *)
(** * The PCM encoder as the specification words it *)
(* ===================================================================== *)

Module Reference.

Import JS.

(** "clamp each sample to [-1, 1]" *)
Definition clamp (x : float) : float :=
  if (x <? -1)%float then (-1)%float
  else if (1 <? x)%float then 1%float
  else x.

(** "scale negative values by 32768 and non-negative values by 32767" *)
Definition scale (s : float) : float :=
  if (s <? 0)%float then (s * 32768)%float else (s * 32767)%float.

(** "pack as little-endian 16-bit integers": the low byte first, in two's
    complement. *)
Definition pack_int16_le (v : Z) : list N :=
  [Z.to_N (Z.land v 255); Z.to_N (Z.land (Z.shiftr v 8) 255)].

(** The 16-bit value of one sample; the fraction of the scaled value is
    dropped, as the specification's example does (0.5 gives 16383). *)
Definition quantize (x : float) : Z :=
  truncate (scale (clamp x)).

Definition sample_bytes (x : float) : list N :=
  pack_int16_le (quantize x).

Definition pcm_bytes (samples : list float) : list N :=
  flat_map sample_bytes samples.

(** "base64-encode the raw byte sequence" into the transport payload. *)
Definition createBlob (samples : list float) : GenAI.Blob :=
  GenAI.mkBlob (base64_encode (pcm_bytes samples)) (lit "audio/pcm;rate=16000").

End Reference.


(* ===================================================================== *)
(** * The vocabulary of the statements *)
(* ===================================================================== *)

Import JS Eff Types.
Local Open Scope eff_scope.

(** The numbers below [n], for properties that are checked by running them. *)
Definition below (n : nat) : list N := map N.of_nat (seq 0 n).

(** The IEEE 754 data of the doubles 1 and -1. *)
Definition one_datum : spec_float := S754_finite false 4503599627370496 (-52).
Definition minus_one_datum : spec_float := S754_finite true 4503599627370496 (-52).

(** Where a double that is not NaN lies with respect to -1 and 1. *)
Inductive position (x : float) : Prop :=
| below_range :
    (x <? -1)%float = true -> (-1 <? x)%float = false ->
    (x <? 1)%float = true -> (1 <? x)%float = false -> position x
| at_minus_one : x = (-1)%float -> position x
| inside_range :
    (x <? -1)%float = false -> (-1 <? x)%float = true ->
    (x <? 1)%float = true -> (1 <? x)%float = false -> position x
| at_one : x = 1%float -> position x
| above_range :
    (x <? -1)%float = false -> (-1 <? x)%float = true ->
    (x <? 1)%float = false -> (1 <? x)%float = true -> position x.

(** What one round of the loop stores for a sample. *)
Definition stored (x : float) : Z :=
  let s := Math_max [(-1)%float; Math_min [1%float; x]] in
  ToInt16 (if (s <? 0)%float then (s * 0x8000)%float else (s * 0x7FFF)%float).

(** ** What a trace of the service shows *)

Module Observations.

Import GeminiLive.

(** The calls [disconnect()] makes for the resources a service holds. *)
Definition release_events (s : Service) : list Event :=
  match session s with
  | Some sess =>
      SessionClose sess
      :: match GenAI.close sess with
         | Returns _ => []
         | Throws _ => [Console warn (lit "Error closing session")]
         end
  | None => []
  end
  ++ match processor s with
     | Some _ => [ProcessorDisconnect; SetOnAudioProcess false]
     | None => []
     end
  ++ match source s with
     | Some _ => [SourceDisconnect]
     | None => []
     end
  ++ match stream s with
     | Some st => map TrackStop (getTracks st)
     | None => []
     end
  ++ match inputAudioContext s with
     | Some c => [ContextClose c]
     | None => []
     end.

(** The observer calls in a trace. *)
Definition status_changes (t : list Event) : list bool :=
  flat_map (fun e => match e with OnStatusChange b => [b] | _ => [] end) t.

Definition updates (t : list Event) : list TranscriptItem :=
  flat_map (fun e => match e with OnTranscriptionUpdate i => [i] | _ => [] end) t.

Definition errors (t : list Event) : list jsstring :=
  flat_map (fun e => match e with OnError m => [m] | _ => [] end) t.

Definition partial_updates (t : list Event) : list TranscriptItem :=
  List.filter isPartial (updates t).

Definition final_updates (t : list Event) : list TranscriptItem :=
  List.filter (fun i => negb (isPartial i)) (updates t).

(** The text a message carries for the buffer: present and non-empty. *)
Definition fragment (message : GenAI.LiveServerMessage) : option jsstring :=
  match GenAI.serverContent message with
  | Some content =>
      match GenAI.inputTranscription content with
      | Some transcription =>
          match GenAI.text transcription with
          | Some t => if truthy t then Some t else None
          | None => None
          end
      | None => None
      end
  | None => None
  end.

Definition turn_complete (message : GenAI.LiveServerMessage) : bool :=
  match GenAI.serverContent message with
  | Some content =>
      match GenAI.turnComplete content with
      | Some true => true
      | _ => false
      end
  | None => false
  end.

Definition partial_item (now : N) (text : jsstring) : TranscriptItem :=
  mkItem (lit "current-turn") text true now user.

Definition final_item (now : N) (text : jsstring) : TranscriptItem :=
  mkItem (Number_toString now) text false now user.

(** *** Example runs *)

(** A service whose buffer holds two spaces. *)
Definition blank_service : Service :=
  mkService None None None None None (lit "  ").

(** A message that only completes the turn. *)
Definition turn_complete_message : GenAI.LiveServerMessage :=
  GenAI.mkMessage (Some (GenAI.mkContent None (Some true))).

(** A message that only carries the text "hello world". *)
Definition hello_world : GenAI.LiveServerMessage :=
  GenAI.mkMessage
    (Some (GenAI.mkContent (Some (GenAI.mkTranscription (Some (lit "hello world"))))
                           None)).

(** An environment in which every step of [connect()] succeeds. *)
Definition succeeds (env : ConnectEnv) (c : AudioContext) (st : MediaStream)
    (sess : GenAI.LiveSession) : Prop :=
  env_AudioContext env = Returns c
  /\ env_getUserMedia env = Normal st
  /\ env_live_connect env = Normal sess
  /\ env_createMediaStreamSource env = Returns tt
  /\ env_createScriptProcessor env = Returns tt
  /\ env_source_connect env = Returns tt
  /\ env_processor_connect env = Returns tt.

(** The fields after a successful [connect()]. *)
Definition connected (s : Service) (c : AudioContext) (st : MediaStream)
    (sess : GenAI.LiveSession) : Service :=
  mkService (Some sess) (Some c) (Some st)
            (Some (mkProcessor 4096 1 1 (Some sess)))
            (Some (mkSource st))
            (currentInputTranscription s).

(** A run in which the user grants the microphone and the service answers. *)
Definition granted : ConnectEnv :=
  mkConnectEnv (Returns (mkContext 16000)) (Normal (mkStream [0%nat]))
               (Normal (GenAI.mkSession (Returns tt)))
               (Returns tt) (Returns tt) (Returns tt) (Returns tt).

(** A run in which the user refuses the microphone. *)
Definition denied : ConnectEnv :=
  mkConnectEnv (Returns (mkContext 16000))
               (Throw (mkError (lit "Permission denied")))
               Pending
               (Returns tt) (Returns tt) (Returns tt) (Returns tt).

End Observations.

(** ** What a trace of the component shows *)

Module AppObservations.

Import App.

(** The calls of the service that reach no observer. *)
Definition passive (e : GeminiLive.Event) : bool :=
  match e with
  | GeminiLive.OnTranscriptionUpdate _
  | GeminiLive.OnStatusChange _
  | GeminiLive.OnError _ => false
  | _ => true
  end.

(** The component after the service has been torn down. *)
Definition disconnected (s : State) : State :=
  setAudioStream None
    (setConnectionState DISCONNECTED
       (set_liveService (Some GeminiLive.new_Service) s)).

(** The calls of [disconnect()], as the component records them. *)
Definition teardown_events (svc : GeminiLive.Service) : list Event :=
  map Live (Observations.release_events svc) ++ [Live (GeminiLive.OnStatusChange false)].

(** The calls of the polling loop and of its error paths. *)
Definition polling (e : Event) : bool :=
  match e with
  | SetTimeout _ | FilesGet _ | ConsoleError _ => true
  | _ => false
  end.

(** A content part that refers to an uploaded file. *)
Definition is_reference (part : Part) : bool :=
  match part with fileData _ _ => true | _ => false end.

(** The first calls of the batch path, by file size. *)
Definition branch_shape (f : File) (tb : list Event) : Prop :=
  if size f <? threshold
  then tb = [ReadAsDataURL f]
  else exists polls,
         tb = FilesUpload f (type f) (name f) :: polls
         /\ forallb polling polls = true.

(** The calls after the content part is ready. *)
Definition tail_ok (f : File) (e : Event) : Prop :=
  match e with
  | GenerateContent m [part; textPart p] =>
      m = lit "gemini-2.5-flash" /\ p = prompt
      /\ if size f <? threshold
         then exists d, part = inlineData (type f) d
         else is_reference part = true
  | ConsoleError _ => True
  | _ => False
  end.

(** The item an upload appends for the text the service returns. *)
Definition batch_item (env : UploadEnv) (text : jsstring) : TranscriptItem :=
  mkItem (Number_toString (env_now env)) text false (env_now env) user.

(** The [try]/[catch]/[finally] statement of [handleFileUpload]. *)
Definition attempt (f : File) (env : UploadEnv) : AM unit :=
  try_finally (try_catch (handleFileUpload_try f env) handleFileUpload_catch)
              handleFileUpload_finally.

(** The component when the [try] block of an upload starts. *)
Definition prepared (s : State) : State :=
  let s1 := setUploadStatus (lit "Preparing...") (setError None (setIsUploading true s)) in
  if ConnectionState_eqb (connectionState s) CONNECTED then
    match liveService s with
    | Some _ => disconnected s1
    | None => s1
    end
  else s1.

(** The calls an upload makes before its [try] block. *)
Definition pre_events (s : State) : list Event :=
  if ConnectionState_eqb (connectionState s) CONNECTED then
    match liveService s with
    | Some svc => teardown_events svc
    | None => []
    end
  else [].

(** *** Example runs *)

(** A file of one kibibyte and a file of exactly the threshold size. *)
Definition small_file : File :=
  mkFile (lit "note.wav") 1024 (lit "audio/wav").

Definition boundary_file : File :=
  mkFile (lit "talk.wav") threshold (lit "audio/wav").


(** The component while a session is open. *)
Definition recording : State :=
  mkState CONNECTED [] (lit "hel") None (Some (GeminiLive.mkStream [0%nat])) false []
          (Some (GeminiLive.mkService
                   (Some (GenAI.mkSession (Returns tt)))
                   (Some (GeminiLive.mkContext 16000))
                   (Some (GeminiLive.mkStream [0%nat]))
                   (Some (GeminiLive.mkProcessor 4096 1 1
                            (Some (GenAI.mkSession (Returns tt)))))
                   (Some (GeminiLive.mkSource (GeminiLive.mkStream [0%nat])))
                   (lit "hel")))
          [].

(** An uploaded file that needs no polling, and a service that answers. *)
Definition ready_file : FileInfo :=
  mkFileInfo (lit "files/abc") (lit "ACTIVE") (lit "files/abc") (lit "audio/wav").

Definition answering : UploadEnv :=
  mkUploadEnv (Normal (lit "UklGRg=="))
              (Normal (mkFileResponse None ready_file))
              []
              (Normal (lit "hello world"))
              1730000000000.

(** Everything that can happen to the component. *)
Inductive Operation : Type :=
| LiveUpdate (item : TranscriptItem)
| LiveMessage (now : N) (message : GenAI.LiveServerMessage)
| BatchUpload (selected : option File) (env : UploadEnv)
| Clear (answer : bool)
| Toggle (env : GeminiLive.ConnectEnv)
| StatusChange (isConnected : bool)
| ErrorReport (errMessage : jsstring).

Definition perform (op : Operation) : AM unit :=
  match op with
  | LiveUpdate item => handleTranscriptionUpdate item
  | LiveMessage now message => on_liveService (GeminiLive.handleOnMessage now message)
  | BatchUpload selected env => handleFileUpload selected env
  | Clear answer => clearTranscripts answer
  | Toggle env => toggleRecording env
  | StatusChange isConnected => handleStatusChange isConnected
  | ErrorReport errMessage => handleError errMessage
  end.

(** The component after a sequence of operations; an operation that is
    still suspended does not keep the next one from running. *)
Definition exec (ops : list Operation) (s : State) : State :=
  fold_left (fun s op => final (perform op s)) ops s.

(** The in-progress entries the store holds. *)
Definition partial_entries (s : State) : nat :=
  length (List.filter isPartial (transcripts s))
  + (if truthy (currentText s) then 1 else 0).

Definition finalized (item : TranscriptItem) : Prop := isPartial item = false.

(** The guard of [clearTranscripts]: nothing to clear. *)
Definition store_is_empty (s : State) : bool :=
  (length (transcripts s) =? 0)%nat && negb (truthy (currentText s)).

(** The confirmation dialog of [clearTranscripts]. *)
Definition confirm_clear : Event :=
  Confirm (lit "Are you sure you want to clear the transcript?").

(** *** Example runs *)

(** A finalized item, and the component with that item and a text in
    progress. *)
Definition one_item : TranscriptItem :=
  mkItem (lit "1730000000000") (lit "hello world") false 1730000000000 user.

Definition dictating : State :=
  mkState CONNECTED [one_item] (lit "and then") None None false []
          (Some GeminiLive.new_Service) [].

End AppObservations.

(* ===================================================================== *)
(** * The rest of the sources *)
(* ===================================================================== *)

(** ** Two more built-ins: [String.prototype.split], [Array.prototype.join] *)

Module JSText.

Import JS.

(** [s.split(sep)] for a separator of one code unit: the pieces between the
    separators, in order; a string without the separator is one piece. *)
Fixpoint String_split (sep : code_unit) (s : jsstring) : list jsstring :=
  match s with
  | [] => [[]]
  | c :: rest =>
      if c =? sep then [] :: String_split sep rest
      else
        match String_split sep rest with
        | piece :: pieces => (c :: piece) :: pieces
        | [] => [[c]]
        end
  end.

(** [a.join(sep)]: the empty array gives the empty string. *)
Fixpoint Array_join (sep : jsstring) (a : list jsstring) : jsstring :=
  match a with
  | [] => []
  | x :: rest =>
      match rest with
      | [] => x
      | _ :: _ => x ++ sep ++ Array_join sep rest
      end
  end.

(** The line feed ['\n'] and the comma [','] of the source's literals. *)
Definition line_feed : code_unit := 10.
Definition comma : code_unit := 44.

End JSText.

(** ** src/services/geminiLive.ts: [connect()] at its two [await]s

    An [async] function runs up to an [await] and returns to its caller;
    when the awaited promise settles, the rest of the function runs on the
    fields as they are then.  A run of [connect] that stops at an [await]
    is [GeminiLive.connect] in an environment that leaves the promise
    pending; the two definitions below are the rest of the function from
    each [await] on, inside the same [try]. *)

Module Resumed.

Import JS Eff Types GeminiLive.
Local Open Scope eff_scope.

(** The environment of a run that waits for the microphone. *)
Definition awaiting_getUserMedia (env : ConnectEnv) : ConnectEnv :=
  mkConnectEnv (env_AudioContext env) Pending (env_live_connect env)
               (env_createMediaStreamSource env) (env_createScriptProcessor env)
               (env_source_connect env) (env_processor_connect env).

(** The environment of a run that waits for the session. *)
Definition awaiting_live_connect (env : ConnectEnv) : ConnectEnv :=
  mkConnectEnv (env_AudioContext env) (env_getUserMedia env) Pending
               (env_createMediaStreamSource env) (env_createScriptProcessor env)
               (env_source_connect env) (env_processor_connect env).

(** From [this.stream = await navigator.mediaDevices.getUserMedia(...)]
    on; [settled] is how the promise settled. *)
Definition connect_from_getUserMedia (env : ConnectEnv) (settled : completion MediaStream) : SM unit :=
  try_catch
    (st <- lift settled ;;
     modify (set_stream (Some st)) ;;
     sess <- call (LiveConnect config) (env_live_connect env) ;;
     modify (set_session (Some sess)) ;;
     setupAudioProcessing env sess ;;
     emit (OnStatusChange true))
    connect_catch.

(** From [this.session = await sessionPromise] on. *)
Definition connect_from_live_connect (env : ConnectEnv) (settled : completion GenAI.LiveSession) : SM unit :=
  try_catch
    (sess <- lift settled ;;
     modify (set_session (Some sess)) ;;
     setupAudioProcessing env sess ;;
     emit (OnStatusChange true))
    connect_catch.

End Resumed.

(** ** src/services/geminiLive.ts: [emitTranscription] and its two clocks

    [emitTranscription] reads the clock twice: [Date.now()] for the id of a
    finalized item (line 149, not evaluated for a partial one) and
    [new Date()] for the timestamp (line 152).  The clock may advance
    between the two, so here each reading is an argument of its own;
    [GeminiLive.emitTranscription] is the case in which both readings are
    the same. *)

Module Clocked.

Import JS Eff Types GeminiLive.
Local Open Scope eff_scope.

(** [emitTranscription(isPartial)]; [now] is what [Date.now()] returns and
    [date] the instant of [new Date()]. *)
Definition emitTranscription (now date : N) (isPartial : bool) : SM unit :=
  s <- get ;;
  emit (OnTranscriptionUpdate
          (mkItem (if isPartial then lit "current-turn" else Number_toString now)
                  (currentInputTranscription s)
                  isPartial
                  date
                  user)).

(** A decimal digit, as a code unit. *)
Definition is_digit (c : code_unit) : bool :=
  (48 <=? c) && (c <=? 57).

End Clocked.

(** ** src/App.tsx: the copy button, the file reader, the unmount *)

Module AppRest.

Import JS JSText Eff Types App.
Local Open Scope eff_scope.

(** [fileToBase64(file)]; [read] is how the [FileReader] ends, [onload]
    with [reader.result] or [onerror].  [result.split(',')[1]] is
    [undefined] when the result has no comma. *)
Definition fileToBase64 (f : File) (read : completion jsstring) : AM (option jsstring) :=
  reader_result <- call (ReadAsDataURL f) read ;;
  ret (String_split comma reader_result !! 1%nat).

(** The cleanup of the mount effect. *)
Definition unmount : AM unit :=
  on_liveService GeminiLive.disconnect.

(** The dismiss button of the error banner: [setError(null)]. *)
Definition dismissError : AM unit :=
  modify (setError None).

(** The cells of the component with [isCopied], which only the copy
    button reads and writes. *)
Record Cells : Type := mkCells {
  component : State;
  isCopied : bool
}.

Definition setIsCopied v (s : Cells) : Cells :=
  mkCells (component s) v.
Definition in_app (f : State -> State) (s : Cells) : Cells :=
  mkCells (f (component s)) (isCopied s).

Inductive CopyEvent : Type :=
| ClipboardWriteText (text : jsstring)
| CopySetTimeout (ms : N)
| CopyConsoleError (msg : jsstring).

(** The [fullText] of [copyToClipboard]. *)
Definition fullText (transcripts : list TranscriptItem) (currentText : jsstring) : jsstring :=
  Array_join [line_feed] (map text transcripts)
  ++ (if truthy currentText then [line_feed] ++ currentText else []).

(** [copyToClipboard()]; [writeText] is how
    [navigator.clipboard.writeText] settles. *)
Definition copyToClipboard (writeText : completion unit) : M Cells CopyEvent unit :=
  render <- get ;;
  let fullText := fullText (transcripts (component render)) (currentText (component render)) in
  if negb (truthy (trim fullText)) then ret tt
  else
    try_catch
      (call (ClipboardWriteText fullText) writeText ;;
       modify (setIsCopied true) ;;
       emit (CopySetTimeout 2000))
      (fun err =>
         emit (CopyConsoleError (lit "Failed to copy transcript")) ;;
         modify (in_app (setError (Some (lit "Failed to copy to clipboard"))))).

(** The callback of the timer: [() => setIsCopied(false)]. *)
Definition copied_timeout : M Cells CopyEvent unit :=
  modify (setIsCopied false).

End AppRest.

(** ** More vocabulary *)

(** *** A turn of the live session, message by message *)

Module Dialogue.

Import GeminiLive Observations.

(** The messages of a session, each with the clock reading at its arrival,
    handled in order. *)
Definition deliver (messages : list (N * GenAI.LiveServerMessage)) : SM unit :=
  fold_right (fun m k => handleOnMessage m.1 m.2 ;; k) (ret tt) messages.

(** The texts the messages carry, in order. *)
Definition fragments (messages : list (N * GenAI.LiveServerMessage)) : list jsstring :=
  flat_map (fun m => match fragment m.2 with Some t => [t] | None => [] end) messages.

(** The buffer after each text. *)
Fixpoint growing (buffer : jsstring) (texts : list jsstring) : list jsstring :=
  match texts with
  | [] => []
  | t :: rest => (buffer ++ t) :: growing (buffer ++ t) rest
  end.

(** No message of the list completes the turn. *)
Definition within_turn (messages : list (N * GenAI.LiveServerMessage)) : Prop :=
  Forall (fun m => turn_complete m.2 = false) messages.

(** A message that carries the given text. *)
Definition saying (t : jsstring) : GenAI.LiveServerMessage :=
  GenAI.mkMessage
    (Some (GenAI.mkContent (Some (GenAI.mkTranscription (Some t))) None)).

End Dialogue.

(** *** What a teardown stops *)

Module Teardown.

Import GeminiLive.

(** The tracks a trace stops, in order. *)
Definition stopped_tracks (t : list Event) : list nat :=
  flat_map (fun e => match e with TrackStop track => [track] | _ => [] end) t.

(** The calls of a successful [connect()]. *)
Definition acquisition (st : MediaStream) : list Event :=
  [NewAudioContext 16000; GetUserMedia true; LiveConnect config;
   CreateMediaStreamSource st; CreateScriptProcessor 4096 1 1;
   SetOnAudioProcess true; SourceConnect; ProcessorConnect].

(** The warning [disconnect()] logs when [session.close()] throws. *)
Definition close_warning (sess : GenAI.LiveSession) : list Event :=
  match GenAI.close sess with
  | Returns _ => []
  | Throws _ => [Console warn (lit "Error closing session")]
  end.

End Teardown.

(** *** The polling loop *)

Module Polling.

Import App.

(** The file record of a response. *)
Definition current (response : FileResponse) : FileInfo :=
  default (itself response) (file response).

(** [n] rounds of the loop: a wait of a second, then a look at the file. *)
Definition rounds (n : nat) (fileName : jsstring) : list Event :=
  concat (repeat [SetTimeout 1000; FilesGet fileName] n).

(** A response that reports the given state. *)
Definition reporting (state : jsstring) : FileResponse :=
  mkFileResponse None (mkFileInfo (lit "files/abc") state (lit "files/abc") (lit "audio/wav")).


(** The message of the error the large-file branch rethrows. *)
Definition wrapped (inner : jsstring) : jsstring :=
  lit "Large file upload failed: " ++ inner ++ lit ". Try a smaller file.".

(** [uploadError.message || "Unknown error"] *)
Definition inner_message (e : Error) : jsstring :=
  or_else (message e) (lit "Unknown error").

(** [e.message || "Failed to transcribe file. Please try again."] *)
Definition reported (e : Error) : jsstring :=
  or_else (message e) (lit "Failed to transcribe file. Please try again.").

(** The transcription request for a content part. *)
Definition request (part : Part) : Event :=
  GenerateContent (lit "gemini-2.5-flash") [part; textPart prompt].

(** The cells after the [finally] block. *)
Definition finished (s : State) : State :=
  set_fileInput [] (setUploadStatus [] (setIsUploading false s)).

(** The content part of either branch. *)
Definition contentPart (f : File) (env : UploadEnv) : AM Part :=
  if size f <? threshold then inlineSmallFile f env else uploadLargeFile f env.


End Polling.

(** *** Everything that enters the component *)

Module Entries.

Import App AppRest.

(** The handlers a user or the platform can start: the buttons, the file
    input, the callbacks of the session and of the audio processor, the
    resumptions of a suspended [connect], and the unmount. *)
Inductive Entry : Type :=
| PressRecord (env : GeminiLive.ConnectEnv)
| MicrophoneSettled (env : GeminiLive.ConnectEnv) (settled : completion GeminiLive.MediaStream)
| SessionSettled (env : GeminiLive.ConnectEnv) (settled : completion GenAI.LiveSession)
| SessionOpened
| SessionMessage (now : N) (message : GenAI.LiveServerMessage)
| SessionClosed
| SessionFailed
| AudioProcess (inputData : list float)
| PickFile (selected : option File) (env : UploadEnv)
| PressClear (answer : bool)
| PressDismiss
| Unmount.

Definition enter (e : Entry) : AM unit :=
  match e with
  | PressRecord env => toggleRecording env
  | MicrophoneSettled env settled =>
      on_liveService (Resumed.connect_from_getUserMedia env settled)
  | SessionSettled env settled =>
      on_liveService (Resumed.connect_from_live_connect env settled)
  | SessionOpened => on_liveService GeminiLive.handleOnOpen
  | SessionMessage now message => on_liveService (GeminiLive.handleOnMessage now message)
  | SessionClosed => on_liveService GeminiLive.handleOnClose
  | SessionFailed => on_liveService GeminiLive.handleOnError
  | AudioProcess inputData => on_liveService (GeminiLive.audioprocess inputData)
  | PickFile selected env => handleFileUpload selected env
  | PressClear answer => clearTranscripts answer
  | PressDismiss => dismissError
  | Unmount => unmount
  end.

(** The component after a sequence of entries. *)
Definition journey (entries : list Entry) (s : State) : State :=
  fold_left (fun s e => final (enter e s)) entries s.

(** What the component shows about the connection between two handlers:
    never [ERROR], and a stream for the visualizer only while
    [CONNECTED]. *)
Definition steady (s : State) : Prop :=
  connectionState s <> ERROR
  /\ (audioStream s <> None -> connectionState s = CONNECTED).

(** The component after an observer has seen one call of the service. *)
Definition react (s : State) (e : GeminiLive.Event) : State :=
  final (observe e s).

(** The calls that leave the connection state alone. *)
Definition quiet (e : GeminiLive.Event) : bool :=
  match e with
  | GeminiLive.OnStatusChange _ | GeminiLive.OnError _ => false
  | _ => true
  end.

(** A trace of the service leaves the connection state alone or ends by
    reporting the status. *)
Definition settles (t : list GeminiLive.Event) : Prop :=
  forallb quiet t = true
  \/ exists before status, t = before ++ [GeminiLive.OnStatusChange status].

(** A [try] block of [connect()] reports "connected" last when it ends
    normally and reports nothing otherwise. *)
Definition reports_last (r : completion unit * GeminiLive.Service * list GeminiLive.Event) : Prop :=
  match result r with
  | Normal _ =>
      exists before,
        trace r = before ++ [GeminiLive.OnStatusChange true]
        /\ forallb AppObservations.passive before = true
  | _ => forallb AppObservations.passive (trace r) = true
  end.

End Entries.

(* ===================================================================== *)
(** * Proofs *)
(* ===================================================================== *)

(** ** Counted loops over arrays *)

Section Loops.

Context {A B : Type}.

Lemma for_loop_S {S : Type} (n : nat) (body : S -> nat -> S) (init : S) :
  for_loop (Datatypes.S n) body init = body (for_loop n body init) n.
Proof.
  unfold for_loop. rewrite seq_S, fold_left_app. reflexivity.
Qed.

(** A loop that stores [f i] at index [i] of an array of length [n]
    has written the first [k] cells after [k] rounds. *)
Lemma store_loop_prefix (f : nat -> B) (init : list B) (k : nat) :
  (k <= length init)%nat ->
  for_loop k (fun arr i => <[i := f i]> arr) init
  = map f (seq 0 k) ++ drop k init.
Proof.
  induction k as [|k IH]; intros Hk.
  - reflexivity.
  - rewrite for_loop_S, IH by lia.
    rewrite seq_S, map_app. cbn [map].
    rewrite insert_app_r_alt; rewrite length_map, length_seq; [|lia].
    replace (k - k)%nat with 0%nat by lia.
    destruct (drop k init) as [|x rest] eqn:Hd.
    + apply (f_equal length) in Hd. rewrite length_drop in Hd. cbn in Hd. lia.
    + cbn. rewrite <- app_assoc. cbn. f_equal. f_equal.
      change rest with (drop 1 (x :: rest)). rewrite <- Hd, drop_drop.
      f_equal. lia.
Qed.

Lemma store_loop_map (g : A -> B) (d : A) (z : B) (data : list A) :
  for_loop (length data) (fun arr i => <[i := g (default d (data !! i))]> arr)
           (repeat z (length data))
  = map g data.
Proof.
  rewrite store_loop_prefix by (rewrite repeat_length; lia).
  rewrite drop_ge, app_nil_r by (rewrite repeat_length; lia).
  apply list_eq. intros i.
  rewrite !list_lookup_fmap.
  destruct (decide (i < length data)%nat) as [Hi|Hi].
  - rewrite lookup_seq_lt by lia. cbn.
    destruct (lookup_lt_is_Some_2 data i Hi) as [x Hx]. rewrite Hx. reflexivity.
  - rewrite lookup_seq_ge by lia. rewrite lookup_ge_None_2 by lia. reflexivity.
Qed.

(** A loop that appends [g] of the [i]-th element builds the mapped list. *)
Lemma append_loop_prefix (g : A -> B) (d : A) (l : list A) (k : nat) :
  (k <= length l)%nat ->
  for_loop k (fun acc i => acc ++ [g (default d (l !! i))]) [] = map g (take k l).
Proof.
  induction k as [|k IH]; intros Hk.
  - reflexivity.
  - rewrite for_loop_S, IH by lia.
    destruct (lookup_lt_is_Some_2 l k ltac:(lia)) as [x Hx].
    rewrite Hx. cbn. rewrite (take_S_r _ _ _ Hx), map_app. reflexivity.
Qed.

Lemma append_loop_map (g : A -> B) (d : A) (l : list A) :
  for_loop (length l) (fun acc i => acc ++ [g (default d (l !! i))]) [] = map g l.
Proof.
  rewrite append_loop_prefix by lia. rewrite firstn_all. reflexivity.
Qed.

End Loops.

(** ** Checking a property of small numbers by running it *)

Lemma below_complete (n : nat) (x : N) : x < N.of_nat n -> In x (below n).
Proof.
  intros Hx. unfold below. apply in_map_iff. exists (N.to_nat x). split.
  - apply N2Nat.id.
  - apply in_seq. lia.
Qed.

Lemma forallb_below (P : N -> bool) (n : nat) :
  forallb P (below n) = true -> forall x, x < N.of_nat n -> P x = true.
Proof.
  intros H x Hx. rewrite forallb_forall in H. apply H, below_complete, Hx.
Qed.

(** ** Base64 *)

Lemma sextet_round_trip (i : N) :
  i < 64 -> char_sextet (sextet_char i) = Some i /\ (sextet_char i =? pad) = false.
Proof.
  intros Hi.
  pose proof (forallb_below
    (fun i => bool_decide (char_sextet (sextet_char i) = Some i)
              && negb (sextet_char i =? pad)) 64 eq_refl i Hi) as H.
  apply andb_true_iff in H as [H1 H2].
  apply bool_decide_eq_true in H1. apply negb_true_iff in H2. auto.
Qed.

Lemma land_small (a : N) (k : N) : N.land a (N.ones k) < 2 ^ k.
Proof. rewrite N.land_ones. apply N.mod_lt, N.pow_nonzero. discriminate. Qed.

Lemma shiftr_small (a : N) (k n : N) : a < 2 ^ (k + n) -> N.shiftr a k < 2 ^ n.
Proof.
  intros Ha. rewrite N.shiftr_div_pow2.
  apply N.Div0.div_lt_upper_bound. rewrite <- N.pow_add_r. exact Ha.
Qed.

(** The first byte comes back from the first two sextets. *)
Lemma join0_spec (a b : N) :
  a < 256 -> b < 256 ->
  let s0 := N.shiftr a 2 in
  let s1 := N.lor (N.shiftl (N.land a 3) 4) (N.shiftr b 4) in
  s0 < 64 /\ s1 < 64 /\ join0 s0 s1 = a.
Proof.
  intros Ha Hb.
  pose proof (forallb_below (fun a => forallb (fun b =>
    let s0 := N.shiftr a 2 in
    let s1 := N.lor (N.shiftl (N.land a 3) 4) (N.shiftr b 4) in
    (s0 <? 64) && (s1 <? 64) && (join0 s0 s1 =? a)) (below 256)) 256) as H.
  specialize (H ltac:(vm_compute; reflexivity) a Ha).
  cbv beta in H. pose proof (forallb_below _ 256 H b Hb) as H'.
  cbv beta zeta in H'. apply andb_true_iff in H' as [H' H3].
  apply andb_true_iff in H' as [H1 H2].
  apply N.ltb_lt in H1, H2. apply N.eqb_eq in H3. cbv zeta. auto.
Qed.

(** The second byte needs two bits of the first and two bits of the third. *)
Lemma join1_spec (x b y : N) :
  x < 4 -> b < 256 -> y < 4 ->
  let s1 := N.lor (N.shiftl x 4) (N.shiftr b 4) in
  let s2 := N.lor (N.shiftl (N.land b 15) 2) y in
  s2 < 64 /\ join1 s1 s2 = b.
Proof.
  intros Hx Hb Hy.
  pose proof (forallb_below (fun x => forallb (fun b => forallb (fun y =>
    let s1 := N.lor (N.shiftl x 4) (N.shiftr b 4) in
    let s2 := N.lor (N.shiftl (N.land b 15) 2) y in
    (s2 <? 64) && (join1 s1 s2 =? b)) (below 4)) (below 256)) 4) as H.
  specialize (H ltac:(vm_compute; reflexivity) x Hx). cbv beta in H.
  pose proof (forallb_below _ 256 H b Hb) as H'. cbv beta in H'.
  pose proof (forallb_below _ 4 H' y Hy) as H''. cbv beta zeta in H''.
  apply andb_true_iff in H'' as [H1 H2].
  apply N.ltb_lt in H1. apply N.eqb_eq in H2. cbv zeta. auto.
Qed.

Lemma join2_spec (x c : N) :
  x < 16 -> c < 256 ->
  let s2 := N.lor (N.shiftl x 2) (N.shiftr c 6) in
  let s3 := N.land c 63 in
  s3 < 64 /\ join2 s2 s3 = c.
Proof.
  intros Hx Hc.
  pose proof (forallb_below (fun x => forallb (fun c =>
    let s2 := N.lor (N.shiftl x 2) (N.shiftr c 6) in
    let s3 := N.land c 63 in
    (s3 <? 64) && (join2 s2 s3 =? c)) (below 256)) 16) as H.
  specialize (H ltac:(vm_compute; reflexivity) x Hx). cbv beta in H.
  pose proof (forallb_below _ 256 H c Hc) as H'. cbv beta zeta in H'.
  apply andb_true_iff in H' as [H1 H2].
  apply N.ltb_lt in H1. apply N.eqb_eq in H2. cbv zeta. auto.
Qed.

Lemma base64_decode_quad (c0 c1 c2 c3 : code_unit) (rest : jsstring) :
  base64_decode (c0 :: c1 :: c2 :: c3 :: rest) =
  match char_sextet c0, char_sextet c1 with
  | Some s0, Some s1 =>
      if c3 =? pad then
        match rest with
        | [] =>
            if c2 =? pad then Some [join0 s0 s1]
            else
              match char_sextet c2 with
              | Some s2 => Some [join0 s0 s1; join1 s1 s2]
              | None => None
              end
        | _ :: _ => None
        end
      else
        match char_sextet c2, char_sextet c3, base64_decode rest with
        | Some s2, Some s3, Some tail =>
            Some (join0 s0 s1 :: join1 s1 s2 :: join2 s2 s3 :: tail)
        | _, _, _ => None
        end
  | _, _ => None
  end.
Proof. reflexivity. Qed.

Lemma list_ind3 {A : Type} (P : list A -> Prop) :
  P [] -> (forall a, P [a]) -> (forall a b, P [a; b]) ->
  (forall a b c rest, P rest -> P (a :: b :: c :: rest)) ->
  forall l, P l.
Proof.
  intros H0 H1 H2 H3 l.
  enough (P l /\ (forall a, P (a :: l)) /\ (forall a b, P (a :: b :: l))) by tauto.
  induction l as [|x l (IH0 & IH1 & IH2)]; auto.
Qed.

Lemma base64_decode_encode (bytes : list N) :
  Forall (fun b => b < 256) bytes ->
  base64_decode (base64_encode bytes) = Some bytes.
Proof.
  induction bytes as [|a|a b|a b c rest IH] using list_ind3; intros Hall.
  - reflexivity.
  - apply Forall_cons_1 in Hall as [Ha _].
    destruct (join0_spec a 0 Ha ltac:(lia)) as (H0 & H1 & J0).
    change (N.shiftr 0 4) with 0 in H1, J0. rewrite N.lor_0_r in H1, J0.
    destruct (sextet_round_trip _ H0) as [R0 _].
    destruct (sextet_round_trip _ H1) as [R1 _].
    cbn [base64_encode]. rewrite base64_decode_quad, R0, R1, J0. reflexivity.
  - apply Forall_cons_1 in Hall as [Ha Hall]. apply Forall_cons_1 in Hall as [Hb _].
    destruct (join0_spec a b Ha Hb) as (H0 & H1 & J0).
    destruct (join1_spec (N.land a 3) b 0 (land_small a 2) Hb ltac:(lia)) as (H2 & J1).
    rewrite N.lor_0_r in H2, J1.
    destruct (sextet_round_trip _ H0) as [R0 _].
    destruct (sextet_round_trip _ H1) as [R1 _].
    destruct (sextet_round_trip _ H2) as [R2 P2].
    cbn [base64_encode]. rewrite base64_decode_quad, R0, R1, R2, P2, J0, J1.
    reflexivity.
  - apply Forall_cons_1 in Hall as [Ha Hall]. apply Forall_cons_1 in Hall as [Hb Hall].
    apply Forall_cons_1 in Hall as [Hc Hall].
    destruct (join0_spec a b Ha Hb) as (H0 & H1 & J0).
    destruct (join1_spec (N.land a 3) b (N.shiftr c 6) (land_small a 2) Hb
                (shiftr_small c 6 2 Hc)) as (H2 & J1).
    destruct (join2_spec (N.land b 15) c (land_small b 4) Hc) as (H3 & J2).
    destruct (sextet_round_trip _ H0) as [R0 _].
    destruct (sextet_round_trip _ H1) as [R1 _].
    destruct (sextet_round_trip _ H2) as [R2 _].
    destruct (sextet_round_trip _ H3) as [R3 P3].
    cbn [base64_encode]. rewrite base64_decode_quad, R0, R1, R2, R3, P3, J0, J1, J2.
    rewrite (IH Hall). reflexivity.
Qed.

(** ** Doubles: comparisons against the two bounds *)

(** A double is determined by its IEEE 754 datum. *)
Lemma float_of_datum (x y : float) : Prim2SF x = Prim2SF y -> x = y.
Proof.
  intros H. rewrite <- (SF2Prim_Prim2SF x), <- (SF2Prim_Prim2SF y), H. reflexivity.
Qed.

Lemma is_nan_datum (x : float) :
  is_nan x = match Prim2SF x with S754_nan => true | _ => false end.
Proof.
  unfold is_nan. rewrite FloatAxioms.eqb_spec. unfold SFeqb.
  destruct (Prim2SF x) as [s|s| |s m e]; try (destruct s); cbn; try reflexivity.
  all: rewrite Z.compare_refl; change (PosDef.Pos.compare_cont Eq m m) with (Pos.compare m m);
    rewrite Pos.compare_refl; reflexivity.
Qed.

(** The JavaScript clamp [Math.max(-1, Math.min(1, x))], with the two
    variadic folds run on their constant arguments. *)
Lemma Math_min_1 (x : float) :
  Math_min [1%float; x] = if is_nan x then nan else if (x <? 1)%float then x else 1%float.
Proof.
  unfold Math_min. cbn [Math_min_from].
  change (is_nan 1) with false. cbv iota.
  change (is_neg_zero 1 && is_pos_zero infinity) with false. cbv iota.
  change (1 <? infinity)%float with true. cbv iota zeta.
  change (is_pos_zero 1) with false. rewrite andb_false_r. reflexivity.
Qed.

Lemma Math_max_m1 (y : float) :
  Math_max [(-1)%float; y] = if is_nan y then nan else if (-1 <? y)%float then y else (-1)%float.
Proof.
  unfold Math_max. cbn [Math_max_from].
  change (is_nan (-1)) with false. cbv iota.
  change (is_pos_zero (-1) && is_neg_zero neg_infinity) with false. cbv iota.
  change (neg_infinity <? -1)%float with true. cbv iota zeta.
  change (is_neg_zero (-1)) with false. rewrite andb_false_r. reflexivity.
Qed.

Lemma nan_unique (x : float) : is_nan x = true -> x = nan.
Proof.
  rewrite is_nan_datum. intros H. apply float_of_datum.
  destruct (Prim2SF x); try discriminate. reflexivity.
Qed.

Lemma position_total (x : float) : is_nan x = false -> position x.
Proof.
  rewrite is_nan_datum. intros Hnan.
  assert (Hpos :
    let sx := Prim2SF x in
    (SFltb sx minus_one_datum = true /\ SFltb minus_one_datum sx = false
     /\ SFltb sx one_datum = true /\ SFltb one_datum sx = false)
    \/ sx = minus_one_datum
    \/ (SFltb sx minus_one_datum = false /\ SFltb minus_one_datum sx = true
        /\ SFltb sx one_datum = true /\ SFltb one_datum sx = false)
    \/ sx = one_datum
    \/ (SFltb sx minus_one_datum = false /\ SFltb minus_one_datum sx = true
        /\ SFltb sx one_datum = false /\ SFltb one_datum sx = true)).
  { cbv zeta. destruct (Prim2SF x) as [s|s| |s m e]; try discriminate.
    - destruct s; right; right; left; repeat split; reflexivity.
    - destruct s; [left | right; right; right; right]; repeat split; reflexivity.
    - unfold SFltb, SFcompare, one_datum, minus_one_datum.
      rewrite !Pos.compare_cont_spec.
      rewrite (Z.compare_antisym e (-52)), (Pos.compare_antisym m 4503599627370496).
      destruct s, (e ?= -52)%Z eqn:He, (m ?= 4503599627370496)%positive eqn:Hm;
        cbn [Pos.switch_Eq CompOpp];
        try apply Z.compare_eq in He; try apply Pos.compare_eq in Hm; subst;
        first [ solve [left; repeat split; reflexivity]
              | solve [right; left; reflexivity]
              | solve [right; right; left; repeat split; reflexivity]
              | solve [right; right; right; left; reflexivity]
              | solve [right; right; right; right; repeat split; reflexivity] ]. }
  cbv zeta in Hpos.
  destruct Hpos as [(H1 & H2 & H3 & H4)|[H|[(H1 & H2 & H3 & H4)|[H|(H1 & H2 & H3 & H4)]]]].
  - apply below_range; rewrite FloatAxioms.ltb_spec; assumption.
  - apply at_minus_one, float_of_datum. rewrite H. reflexivity.
  - apply inside_range; rewrite FloatAxioms.ltb_spec; assumption.
  - apply at_one, float_of_datum. rewrite H. reflexivity.
  - apply above_range; rewrite FloatAxioms.ltb_spec; assumption.
Qed.

Lemma js_clamp_is_clamp (x : float) :
  Math_max [(-1)%float; Math_min [1%float; x]] = Reference.clamp x.
Proof.
  rewrite Math_max_m1, Math_min_1. unfold Reference.clamp.
  destruct (is_nan x) eqn:Hnan.
  - rewrite (nan_unique x Hnan). reflexivity.
  - destruct (position_total x Hnan) as [H1 H2 H3 H4|H|H1 H2 H3 H4|H|H1 H2 H3 H4].
    + rewrite H1, H3, Hnan, H2. reflexivity.
    + subst x. reflexivity.
    + rewrite H1, H3, Hnan, H2, H4. reflexivity.
    + subst x. reflexivity.
    + rewrite H1, H3, H4. reflexivity.
Qed.

(** ** The bytes of a 16-bit sample *)

Lemma int16_bytes_ToInt16 (y : float) :
  int16_bytes (ToInt16 y) = Reference.pack_int16_le (truncate y).
Proof.
  unfold int16_bytes, ToInt16, Reference.pack_int16_le.
  generalize (truncate y). intros t.
  change 255%Z with (Z.ones 8).
  rewrite !Z.land_ones, Z.shiftr_div_pow2 by lia.
  change (2 ^ 16)%Z with 65536%Z. change (2 ^ 15)%Z with 32768%Z.
  change (2 ^ 8)%Z with 256%Z.
  cbv zeta.
  set (v := if (32768 <=? t mod 65536)%Z then (t mod 65536 - 65536)%Z else (t mod 65536)%Z).
  assert (Hlow : ((v mod 65536) mod 256 = t mod 256)%Z).
  { subst v. destruct (32768 <=? t mod 65536)%Z; Z.div_mod_to_equations; lia. }
  assert (Hhigh : ((v mod 65536) / 256 = (t / 256) mod 256)%Z).
  { subst v. destruct (32768 <=? t mod 65536)%Z; Z.div_mod_to_equations; lia. }
  rewrite Hlow, Hhigh. reflexivity.
Qed.

Lemma int16_bytes_small (v : Z) : Forall (fun b => b < 256) (int16_bytes v).
Proof.
  unfold int16_bytes. change (2 ^ 16)%Z with 65536%Z. cbv zeta.
  repeat constructor; Z.div_mod_to_equations; lia.
Qed.

Lemma Uint8Array_small (int16 : list Z) :
  Forall (fun b => b < 256) (Uint8Array_of_Int16Array int16).
Proof.
  unfold Uint8Array_of_Int16Array. induction int16 as [|v rest IH]; cbn [flat_map].
  - constructor.
  - apply Forall_app. split; [apply int16_bytes_small | exact IH].
Qed.

(** ** [encode] and [createBlob] without their loops *)

Lemma fromCharCode_bytes (bytes : list N) :
  Forall (fun b => b < 256) bytes -> map String_fromCharCode bytes = bytes.
Proof.
  induction 1 as [|b rest Hb _ IH]; cbn [map]; [reflexivity|].
  rewrite IH. unfold String_fromCharCode. rewrite N.mod_small by lia. reflexivity.
Qed.

Lemma encode_bytes (bytes : list N) :
  Forall (fun b => b < 256) bytes ->
  GeminiLive.encode bytes = Normal (base64_encode bytes).
Proof.
  intros Hsmall. unfold GeminiLive.encode. cbv zeta.
  rewrite (append_loop_map String_fromCharCode 0 bytes).
  rewrite (fromCharCode_bytes bytes Hsmall). unfold btoa.
  replace (forallb (fun c => c <=? 255) bytes) with true; [reflexivity|].
  symmetry. apply forallb_forall. intros b Hb.
  rewrite Forall_forall in Hsmall. apply N.leb_le.
  specialize (Hsmall b ltac:(apply list_elem_of_In; exact Hb)). cbv beta in Hsmall. lia.
Qed.

Lemma createBlob_int16_map (data : list float) :
  GeminiLive.createBlob_int16 data = map stored data.
Proof.
  unfold GeminiLive.createBlob_int16. cbv zeta.
  exact (store_loop_map stored nan 0%Z data).
Qed.

Lemma stored_bytes (x : float) :
  int16_bytes (stored x) = Reference.sample_bytes x.
Proof.
  unfold stored, Reference.sample_bytes, Reference.quantize, Reference.scale.
  cbv zeta. rewrite js_clamp_is_clamp. apply int16_bytes_ToInt16.
Qed.

Lemma createBlob_bytes (data : list float) :
  Uint8Array_of_Int16Array (GeminiLive.createBlob_int16 data) = Reference.pcm_bytes data.
Proof.
  rewrite createBlob_int16_map.
  unfold Uint8Array_of_Int16Array, Reference.pcm_bytes.
  induction data as [|x rest IH]; cbn [map flat_map]; [reflexivity|].
  rewrite IH, stored_bytes. reflexivity.
Qed.

Lemma createBlob_total (data : list float) :
  GeminiLive.createBlob data = Normal (Reference.createBlob data).
Proof.
  unfold GeminiLive.createBlob. cbv zeta.
  rewrite encode_bytes by apply Uint8Array_small.
  rewrite createBlob_bytes. reflexivity.
Qed.

Lemma pcm_bytes_length (samples : list float) :
  length (Reference.pcm_bytes samples) = (2 * length samples)%nat.
Proof.
  unfold Reference.pcm_bytes.
  induction samples as [|x rest IH]; cbn [flat_map length]; [reflexivity|].
  rewrite length_app, IH. cbn. lia.
Qed.

(** Claim C2.  [createBlob] equals the reference encoder on every sequence
    of samples: clamp to [-1, 1], scale negative values by 32768 and the
    others by 32767, pack as little-endian signed 16-bit integers, Base64
    the bytes, and tag the payload [audio/pcm;rate=16000].  The samples
    [0.0, 1.0, -1.0, 0.5] give the bytes 00 00 FF 7F 00 80 FF 3F (the
    16-bit values 0, 32767, -32768, 16383), and a sample outside [-1, 1]
    encodes as its clamped value does (1.5 as 1.0). *)
Theorem createBlob_is_reference_encoder :
  (forall data : list float,
     GeminiLive.createBlob data = Normal (Reference.createBlob data))
  /\ Uint8Array_of_Int16Array
       (GeminiLive.createBlob_int16 [0%float; 1%float; (-1)%float; 0.5%float])
     = [0x00; 0x00; 0xFF; 0x7F; 0x00; 0x80; 0xFF; 0x3F]
  /\ GeminiLive.createBlob_int16 [0%float; 1%float; (-1)%float; 0.5%float]
     = [0%Z; 32767%Z; (-32768)%Z; 16383%Z]
  /\ (forall (before after : list float) (x : float),
        (1 <? x)%float = true ->
        GeminiLive.createBlob (before ++ x :: after)
        = GeminiLive.createBlob (before ++ 1%float :: after))
  /\ (forall (before after : list float) (x : float),
        (x <? -1)%float = true ->
        GeminiLive.createBlob (before ++ x :: after)
        = GeminiLive.createBlob (before ++ (-1)%float :: after))
  /\ GeminiLive.createBlob [1.5%float] = GeminiLive.createBlob [1%float].
Proof.
  assert (Hclamp : forall before after x y,
             Reference.clamp x = Reference.clamp y ->
             GeminiLive.createBlob (before ++ x :: after)
             = GeminiLive.createBlob (before ++ y :: after)).
  { intros before after x y Hxy. rewrite !createBlob_total.
    unfold Reference.createBlob, Reference.pcm_bytes.
    rewrite !flat_map_app. cbn [flat_map].
    unfold Reference.sample_bytes at 2 4, Reference.quantize.
    rewrite Hxy. reflexivity. }
  split; [exact createBlob_total|].
  split; [reflexivity|]. split; [reflexivity|].
  split; [|split].
  - intros before after x Hx. apply Hclamp. unfold Reference.clamp.
    rewrite Hx.
    destruct (x <? -1)%float eqn:Hlow; [|reflexivity].
    exfalso. destruct (is_nan x) eqn:Hnan.
    + rewrite (nan_unique x Hnan) in Hx. discriminate.
    + destruct (position_total x Hnan) as [? ? ? H4|H|H1|H|H1]; try congruence.
      all: subst x; discriminate.
  - intros before after x Hx. apply Hclamp. unfold Reference.clamp.
    rewrite Hx. reflexivity.
  - reflexivity.
Qed.

(** Claim C10.  For [n] samples the [data] string of the payload decodes
    to exactly [2 * n] bytes (the bytes of the [Int16Array]), and the
    [mimeType] is [audio/pcm;rate=16000] whatever the input. *)
Theorem createBlob_payload_size (data : list float) :
  exists (blob : GenAI.Blob) (bytes : list N),
    GeminiLive.createBlob data = Normal blob
    /\ GenAI.mimeType blob = lit "audio/pcm;rate=16000"
    /\ atob (GenAI.data blob) = Some bytes
    /\ length bytes = (2 * length data)%nat
    /\ bytes = Uint8Array_of_Int16Array (GeminiLive.createBlob_int16 data).
Proof.
  exists (Reference.createBlob data), (Reference.pcm_bytes data).
  split; [apply createBlob_total|]. split; [reflexivity|]. split.
  - unfold atob, Reference.createBlob. cbn [GenAI.data].
    apply base64_decode_encode. rewrite <- createBlob_bytes. apply Uint8Array_small.
  - split; [apply pcm_bytes_length|]. symmetry. apply createBlob_bytes.
Qed.

Lemma createBlob_is_reference_encoder_witness :
  GeminiLive.createBlob ([] ++ 1.5%float :: [])
  = GeminiLive.createBlob ([] ++ 1%float :: []).
Proof.
  destruct createBlob_is_reference_encoder as (_ & _ & _ & Habove & _).
  apply (Habove [] [] 1.5%float). reflexivity.
Defined.

(** ** Truthiness of strings *)

Lemma truthy_nonempty (s : jsstring) : truthy s = true <-> s <> [].
Proof. destruct s; cbn; split; congruence. Qed.

Lemma truthy_empty (s : jsstring) : truthy s = false <-> s = [].
Proof. destruct s; cbn; split; congruence. Qed.

(** ** Laws of the effect monad *)

Section Runs.

Context {St Ev : Type}.

Lemma bind_assoc {A B C} (m : M St Ev A) (k : A -> M St Ev B) (h : B -> M St Ev C) (s : St) :
  bind (bind m k) h s = bind m (fun a => bind (k a) h) s.
Proof.
  unfold bind. destruct (m s) as [[[a|e|] s1] t1]; try reflexivity.
  destruct (k a s1) as [[[b|e|] s2] t2]; try reflexivity.
  destruct (h b s2) as [[r s3] t3]. rewrite app_assoc. reflexivity.
Qed.

Lemma bind_ext {A B} (m : M St Ev A) (k k' : A -> M St Ev B) (s : St) :
  (forall a s1, k a s1 = k' a s1) -> bind m k s = bind m k' s.
Proof.
  intros H. unfold bind. destruct (m s) as [[[a|e|] s1] t1]; try reflexivity.
  rewrite H. reflexivity.
Qed.

Lemma ret_bind {A B} (a : A) (k : A -> M St Ev B) (s : St) :
  bind (ret a) k s = k a s.
Proof.
  unfold bind, ret. destruct (k a s) as [[r s1] t1]. reflexivity.
Qed.

Lemma get_bind {B} (k : St -> M St Ev B) (s : St) :
  bind get k s = k s s.
Proof.
  unfold bind, get. destruct (k s s) as [[r s1] t1]. reflexivity.
Qed.

Lemma modify_bind {B} (f : St -> St) (k : unit -> M St Ev B) (s : St) :
  bind (modify f) k s = k tt (f s).
Proof.
  unfold bind, modify. destruct (k tt (f s)) as [[r s1] t1]. reflexivity.
Qed.

End Runs.

(** ** The streaming session manager *)

Module ServiceProofs.

Import GeminiLive Observations.

(** ** Running the service *)

Lemma stop_tracks_run (tracks : list nat) (s : Service) :
  fold_right (fun track k => emit (TrackStop track) ;; k) (ret tt) tracks s
  = (Normal tt, s, map TrackStop tracks).
Proof.
  induction tracks as [|track rest IH]; [reflexivity|].
  cbn [fold_right map]. unfold bind at 1. cbn [emit]. rewrite IH. reflexivity.
Qed.

Lemma disconnect_run (s : Service) :
  disconnect s = (Normal tt, new_Service, release_events s ++ [OnStatusChange false]).
Proof.
  destruct s as [sess ctx st p src buf].
  unfold disconnect, release_events.
  destruct sess as [[[[]|e]]|], p as [p|], src as [src|], st as [[tracks]|], ctx as [c|];
    cbn; unfold bind; rewrite ?stop_tracks_run; cbn;
    rewrite ?app_nil_r, <- ?app_assoc; reflexivity.
Qed.

Lemma release_events_silent (s : Service) :
  status_changes (release_events s) = [] /\ updates (release_events s) = []
  /\ errors (release_events s) = [].
Proof.
  assert (Htracks : forall tracks,
             status_changes (map TrackStop tracks) = []
             /\ updates (map TrackStop tracks) = []
             /\ errors (map TrackStop tracks) = []).
  { induction tracks as [|track rest (IH1 & IH2 & IH3)]; cbn; auto. }
  destruct s as [sess ctx st p src buf]. unfold release_events.
  unfold status_changes, updates, errors. rewrite !flat_map_app.
  destruct sess as [[[[]|e]]|], p as [p|], src as [src|], st as [[tracks]|], ctx as [c|];
    cbn; try destruct (Htracks tracks) as (H1 & H2 & H3);
    unfold status_changes, updates, errors in *;
    rewrite ?H1, ?H2, ?H3; auto.
Qed.

(** ** Incoming messages *)

Lemma handleInputTranscription_run (now : N) (message : GenAI.LiveServerMessage) (s : Service) :
  handleInputTranscription now message s =
  match fragment message with
  | Some text =>
      (Normal tt,
       set_currentInputTranscription (currentInputTranscription s ++ text) s,
       [OnTranscriptionUpdate (partial_item now (currentInputTranscription s ++ text))])
  | None => (Normal tt, s, [])
  end.
Proof.
  destruct message as [content]. destruct content as [[transcription tc]|]; [|reflexivity].
  destruct transcription as [[text]|]; [|reflexivity].
  destruct text as [[|c text]|]; destruct s; reflexivity.
Qed.

Lemma handleTurnComplete_run (now : N) (message : GenAI.LiveServerMessage) (s : Service) :
  handleTurnComplete now message s =
  if turn_complete message && truthy (trim (currentInputTranscription s)) then
    (Normal tt,
     set_currentInputTranscription [] s,
     [OnTranscriptionUpdate (final_item now (currentInputTranscription s))])
  else (Normal tt, s, []).
Proof.
  destruct message as [content]. destruct content as [[transcription [[|]|]]|];
    try reflexivity.
  unfold handleTurnComplete, turn_complete. cbn.
  destruct (truthy (trim (currentInputTranscription s))); destruct s; reflexivity.
Qed.

Lemma handleOnMessage_run (now : N) (message : GenAI.LiveServerMessage) (s : Service) :
  handleOnMessage now message s =
  match handleInputTranscription now message s with
  | (_, s1, t1) =>
      match handleTurnComplete now message s1 with
      | (r, s2, t2) => (r, s2, t1 ++ t2)
      end
  end.
Proof.
  unfold handleOnMessage, bind. rewrite handleInputTranscription_run.
  destruct (fragment message); reflexivity.
Qed.

(** One equation for the whole callback. *)
Lemma handleOnMessage_cases (now : N) (message : GenAI.LiveServerMessage) (s : Service) :
  let accumulated := currentInputTranscription s ++ default [] (fragment message) in
  let s1 :=
    match fragment message with
    | Some _ => set_currentInputTranscription accumulated s
    | None => s
    end in
  let partials :=
    match fragment message with
    | Some _ => [OnTranscriptionUpdate (partial_item now accumulated)]
    | None => []
    end in
  handleOnMessage now message s =
  if turn_complete message && truthy (trim accumulated) then
    (Normal tt, set_currentInputTranscription [] s1,
     partials ++ [OnTranscriptionUpdate (final_item now accumulated)])
  else (Normal tt, s1, partials).
Proof.
  cbv zeta. rewrite handleOnMessage_run, handleInputTranscription_run.
  destruct (fragment message) as [text|]; cbn [default];
    rewrite handleTurnComplete_run, ?app_nil_r;
    destruct s as [sess ctx st p src buf];
    cbn [currentInputTranscription set_currentInputTranscription];
    destruct (turn_complete message && truthy (trim _)); rewrite ?app_nil_r; reflexivity.
Qed.

(** Claim C1.  [handleOnMessage]: a message whose input transcription
    carries a text appends it to the buffer and calls the transcription
    observer exactly once with [isPartial = true] and the whole accumulated
    buffer as text; a turn-complete message whose accumulated buffer is not
    blank calls it exactly once with [isPartial = false] and the accumulated
    buffer, and leaves the buffer empty; a turn-complete message whose
    buffer trims to the empty string makes no finalized call (no call at
    all when it carries no text) and keeps the buffer.  A partial call
    comes before the finalized one. *)
Theorem handleOnMessage_emissions
    (now : N) (message : GenAI.LiveServerMessage) (s : Service) :
  let r := handleOnMessage now message s in
  let buffer := currentInputTranscription s in
  let accumulated := buffer ++ default [] (fragment message) in
  result r = Normal tt
  /\ updates (trace r) = partial_updates (trace r) ++ final_updates (trace r)
  /\ (forall text, fragment message = Some text ->
        partial_updates (trace r) = [partial_item now (buffer ++ text)])
  /\ (fragment message = None -> partial_updates (trace r) = [])
  /\ (turn_complete message = true -> trim accumulated <> [] ->
        final_updates (trace r) = [final_item now accumulated]
        /\ currentInputTranscription (final r) = [])
  /\ (turn_complete message = true -> trim accumulated = [] ->
        final_updates (trace r) = []
        /\ currentInputTranscription (final r) = accumulated)
  /\ (turn_complete message = false ->
        final_updates (trace r) = []
        /\ currentInputTranscription (final r) = accumulated).
Proof.
  cbv zeta. rewrite (handleOnMessage_cases now message s). cbv zeta.
  destruct (fragment message) as [text|] eqn:Hfrag; cbn [default];
    rewrite ?app_nil_r;
    destruct (turn_complete message) eqn:Htc; cbn [andb];
    try destruct (truthy (trim _)) eqn:Htrim;
    try apply truthy_nonempty in Htrim; try apply truthy_empty in Htrim;
    destruct s as [sess ctx st p src buf]; cbn in *;
    repeat split; try congruence; try reflexivity;
    intros; try congruence; split; try congruence; reflexivity.
Qed.

Lemma handleOnMessage_emissions_witness :
  partial_updates (trace (handleOnMessage 1730000000000 hello_world new_Service))
  = [partial_item 1730000000000 (lit "hello world")]
  /\ final_updates
       (trace (handleOnMessage 1730000000001 turn_complete_message
                 (final (handleOnMessage 1730000000000 hello_world new_Service))))
     = [final_item 1730000000001 (lit "hello world")]
  /\ currentInputTranscription
       (final (handleOnMessage 1730000000001 turn_complete_message
                 (final (handleOnMessage 1730000000000 hello_world new_Service))))
     = [].
Proof.
  destruct (handleOnMessage_emissions 1730000000000 hello_world new_Service)
    as (_ & _ & Hpartial & _).
  destruct (handleOnMessage_emissions 1730000000001 turn_complete_message
              (final (handleOnMessage 1730000000000 hello_world new_Service)))
    as (_ & _ & _ & _ & Hfinal & _).
  split; [apply (Hpartial (lit "hello world")); reflexivity|].
  apply Hfinal; [reflexivity|]. vm_compute. discriminate.
Defined.

(** Claim C9.  When the turn completes on a buffer that is empty or only
    white space, the turn-complete block changes nothing: the service is
    the same, nothing is emitted, and the buffer is not cleared; the white
    space is the head of the text of the next partial update. *)
Theorem turn_complete_keeps_blank_buffer
    (now : N) (message : GenAI.LiveServerMessage) (s : Service) :
  turn_complete message = true ->
  trim (currentInputTranscription s) = [] ->
  handleTurnComplete now message s = (Normal tt, s, [])
  /\ (fragment message = None ->
      handleOnMessage now message s = (Normal tt, s, [])
      /\ forall now' message' text,
           fragment message' = Some text ->
           partial_updates (trace (handleOnMessage now' message'
                                     (final (handleOnMessage now message s))))
           = [partial_item now' (currentInputTranscription s ++ text)]).
Proof.
  intros Htc Hblank.
  assert (Hblock : handleTurnComplete now message s = (Normal tt, s, [])).
  { rewrite handleTurnComplete_run, Htc, Hblank. reflexivity. }
  split; [exact Hblock|]. intros Hnone.
  assert (Hwhole : handleOnMessage now message s = (Normal tt, s, [])).
  { rewrite handleOnMessage_run, handleInputTranscription_run, Hnone, Hblock.
    reflexivity. }
  split; [exact Hwhole|]. intros now' message' text Hfrag.
  rewrite Hwhole. cbn [final fst snd].
  pose proof (handleOnMessage_cases now' message' s) as Hnext. cbv zeta in Hnext.
  rewrite Hnext, Hfrag. clear Hnext. cbn.
  destruct (turn_complete message' && truthy (trim _)); reflexivity.
Qed.

Lemma turn_complete_keeps_blank_buffer_witness :
  handleTurnComplete 7 turn_complete_message blank_service = (Normal tt, blank_service, [])
  /\ (fragment turn_complete_message = None ->
      handleOnMessage 7 turn_complete_message blank_service = (Normal tt, blank_service, [])
      /\ forall now' message' text,
           fragment message' = Some text ->
           partial_updates (trace (handleOnMessage now' message'
                                     (final (handleOnMessage 7 turn_complete_message
                                                             blank_service))))
           = [partial_item now' (currentInputTranscription blank_service ++ text)]).
Proof.
  apply (turn_complete_keeps_blank_buffer 7 turn_complete_message blank_service);
    reflexivity.
Defined.

(** Claim C3.  [disconnect()] from any state of the service, whatever
    [session.close()] does: it returns normally, every resource field is
    [null] and the buffer is empty afterwards, and the status observer is
    called exactly once, with [false].  Two calls in a row notify twice,
    once each, and the error and close callbacks of the session, which
    call [disconnect()], notify once each. *)
Theorem disconnect_safe_from_every_state :
  (forall s : Service,
     let r := disconnect s in
     result r = Normal tt
     /\ session (final r) = None
     /\ processor (final r) = None
     /\ source (final r) = None
     /\ stream (final r) = None
     /\ inputAudioContext (final r) = None
     /\ currentInputTranscription (final r) = []
     /\ status_changes (trace r) = [false])
  /\ (forall s : Service,
        let r := (disconnect ;; disconnect) s in
        result r = Normal tt
        /\ final r = new_Service
        /\ status_changes (trace r) = [false; false])
  /\ (forall s : Service,
        let r := handleOnError s in
        result r = Normal tt
        /\ final r = new_Service
        /\ errors (trace r) = [lit "Connection error occurred."]
        /\ status_changes (trace r) = [false])
  /\ (forall s : Service,
        let r := handleOnClose s in
        result r = Normal tt
        /\ final r = new_Service
        /\ status_changes (trace r) = [false]).
Proof.
  assert (Hstatus : forall s, status_changes (release_events s ++ [OnStatusChange false]) = [false]).
  { intros s. unfold status_changes. rewrite flat_map_app.
    destruct (release_events_silent s) as (H & _). unfold status_changes in H.
    rewrite H. reflexivity. }
  split; [|split; [|split]].
  - intros s. cbv zeta. rewrite disconnect_run. cbn [result final trace fst snd].
    repeat split; try reflexivity. apply Hstatus.
  - intros s. cbv zeta. unfold bind. rewrite !disconnect_run.
    cbn [result final trace fst snd]. repeat split.
    unfold status_changes. rewrite flat_map_app.
    fold (status_changes (release_events s ++ [OnStatusChange false])).
    rewrite Hstatus. reflexivity.
  - intros s. cbv zeta. unfold handleOnError, bind. cbn [emit].
    rewrite disconnect_run. cbn [result final trace fst snd app].
    repeat split.
    + unfold errors. cbn [flat_map app]. rewrite flat_map_app.
      destruct (release_events_silent s) as (_ & _ & H). unfold errors in H.
      rewrite H. reflexivity.
    + change (status_changes (release_events s ++ [OnStatusChange false]) = [false]).
      apply Hstatus.
  - intros s. cbv zeta. unfold handleOnClose, bind. cbn [emit].
    rewrite disconnect_run. cbn [result final trace fst snd app].
    repeat split.
    change (status_changes (release_events s ++ [OnStatusChange false]) = [false]).
    apply Hstatus.
Qed.

Lemma connect_success_run (env : ConnectEnv) (s : Service) c st sess :
  succeeds env c st sess ->
  connect env s =
  (Normal tt, connected s c st sess,
   [NewAudioContext 16000; GetUserMedia true; LiveConnect config;
    CreateMediaStreamSource st; CreateScriptProcessor 4096 1 1;
    SetOnAudioProcess true; SourceConnect; ProcessorConnect;
    OnStatusChange true]).
Proof.
  intros (H1 & H2 & H3 & H4 & H5 & H6 & H7).
  destruct s as [sess0 ctx0 st0 p0 src0 buf].
  unfold connect, connect_try, setupAudioProcessing, try_catch, bind, call.
  rewrite H1, H2, H3, H4, H5, H6, H7. reflexivity.
Qed.

Lemma connect_failure_run (env : ConnectEnv) (s : Service) (e : Error) :
  result (connect_try env s) = Throw e ->
  connect env s =
  (Normal tt, new_Service,
   trace (connect_try env s)
   ++ [Console error (lit "Connection failed:");
       OnError (or_else (message e) (lit "Failed to connect to Gemini Live Service"))]
   ++ release_events (final (connect_try env s))
   ++ [OnStatusChange false]).
Proof.
  unfold connect, try_catch.
  destruct (connect_try env s) as [[r s1] t1]. cbn [result final trace fst snd].
  intros ->. unfold connect_catch, bind. cbn [emit]. rewrite disconnect_run.
  cbn [app]. reflexivity.
Qed.

(** What a failed [try] block leaves in the fields. *)
Lemma connect_try_acquired (env : ConnectEnv) (s : Service) (e : Error) :
  result (connect_try env s) = Throw e ->
  let s1 := final (connect_try env s) in
  (forall c, env_AudioContext env = Returns c -> inputAudioContext s1 = Some c)
  /\ (forall c st, env_AudioContext env = Returns c ->
        env_getUserMedia env = Normal st -> stream s1 = Some st)
  /\ (forall c st sess, env_AudioContext env = Returns c ->
        env_getUserMedia env = Normal st ->
        env_live_connect env = Normal sess -> session s1 = Some sess).
Proof.
  destruct env as [e1 e2 e3 e4 e5 e6 e7], s as [sess0 ctx0 st0 p0 src0 buf].
  unfold connect_try, setupAudioProcessing, bind, call.
  cbn [env_AudioContext env_getUserMedia env_live_connect env_createMediaStreamSource
       env_createScriptProcessor env_source_connect env_processor_connect].
  destruct e1 as [c|e1]; cbn; [|intros _; repeat split; intros; congruence].
  destruct e2 as [st|e2|]; cbn;
    [|intros _; repeat split; intros; congruence|discriminate].
  destruct e3 as [sess|e3|]; cbn;
    [|intros _; repeat split; intros; congruence|discriminate].
  destruct e4 as [[]|e4], e5 as [[]|e5], e6 as [[]|e6], e7 as [[]|e7]; cbn;
    try discriminate; intros _; repeat split; intros; congruence.
Qed.

Lemma connect_try_silent (env : ConnectEnv) (s : Service) (e : Error) :
  result (connect_try env s) = Throw e ->
  status_changes (trace (connect_try env s)) = []
  /\ errors (trace (connect_try env s)) = [].
Proof.
  destruct env as [e1 e2 e3 e4 e5 e6 e7], s as [sess0 ctx0 st0 p0 src0 buf].
  unfold connect_try, setupAudioProcessing, bind, call.
  cbn [env_AudioContext env_getUserMedia env_live_connect env_createMediaStreamSource
       env_createScriptProcessor env_source_connect env_processor_connect].
  destruct e1 as [c|e1]; cbn; [|auto].
  destruct e2 as [st|e2|]; cbn; [|auto|discriminate].
  destruct e3 as [sess|e3|]; cbn; [|auto|discriminate].
  destruct e4 as [[]|e4], e5 as [[]|e5], e6 as [[]|e6], e7 as [[]|e7]; cbn;
    try discriminate; auto.
Qed.

Lemma audioprocess_detached (inputData : list float) (s : Service) :
  (forall p, processor s = Some p -> onaudioprocess p = None) ->
  audioprocess inputData s = (Normal tt, s, []).
Proof.
  intros H. unfold audioprocess, bind. cbn [get].
  destruct (processor s) as [p|] eqn:Hp; [|reflexivity].
  rewrite (H p eq_refl). reflexivity.
Qed.

(** Claim C4, with the first two steps in the order of the code.
    [connect()] opens the audio context at 16 kHz, then asks for the
    microphone, then opens the live connection with the four callbacks in
    its configuration, then builds the tap (a 4096-frame, one-channel
    script processor) and reports "connected"; nothing is sent before the
    tap exists, and the tap sends each chunk as [createBlob] encodes it.
    When a step throws, [connect()] itself returns normally, reports the
    message of the error once, closes what was acquired (context, tracks,
    session), resets every field and reports "not connected" once.  The
    step that throws is the last step taken: for each of the seven steps,
    when the steps before it succeed and it throws, the [try] block has
    made the calls up to that step and no call after it (a refused
    microphone is followed by no connection, a refused connection by no
    tap), and it ends with that error. *)
Theorem connect_order_and_cleanup :
  (forall env s c st sess,
     succeeds env c st sess ->
     let r := connect env s in
     result r = Normal tt
     /\ trace r =
        [NewAudioContext 16000; GetUserMedia true; LiveConnect config;
         CreateMediaStreamSource st; CreateScriptProcessor 4096 1 1;
         SetOnAudioProcess true; SourceConnect; ProcessorConnect;
         OnStatusChange true]
     /\ GenAI.callbacks config
        = [GenAI.onopen; GenAI.onmessage; GenAI.onclose; GenAI.onerror]
     /\ (forall inputData s0,
           (forall p, processor s0 = Some p -> onaudioprocess p = None) ->
           audioprocess inputData s0 = (Normal tt, s0, []))
     /\ (forall inputData,
           audioprocess inputData (final r)
           = (Normal tt, final r,
              [SendRealtimeInput sess (Reference.createBlob inputData)])))
  /\ (forall env s e,
        result (connect_try env s) = Throw e ->
        let r := connect env s in
        result r = Normal tt
        /\ final r = new_Service
        /\ errors (trace r)
           = [or_else (message e) (lit "Failed to connect to Gemini Live Service")]
        /\ status_changes (trace r) = [false]
        /\ exists released,
             trace r
             = trace (connect_try env s)
               ++ [Console error (lit "Connection failed:");
                   OnError (or_else (message e)
                                    (lit "Failed to connect to Gemini Live Service"))]
               ++ released ++ [OnStatusChange false]
             /\ (forall c, env_AudioContext env = Returns c ->
                   In (ContextClose c) released)
             /\ (forall c st track,
                   env_AudioContext env = Returns c ->
                   env_getUserMedia env = Normal st ->
                   In track (getTracks st) -> In (TrackStop track) released)
             /\ (forall c st sess,
                   env_AudioContext env = Returns c ->
                   env_getUserMedia env = Normal st ->
                   env_live_connect env = Normal sess ->
                   In (SessionClose sess) released))
  /\ (forall env s e,
        let s1 c := set_inputAudioContext (Some c) s in
        let s2 c st := set_stream (Some st) (s1 c) in
        let s3 c st sess := set_session (Some sess) (s2 c st) in
        let s4 c st sess := set_source (Some (mkSource st)) (s3 c st sess) in
        let s5 c st sess :=
          set_processor (Some (mkProcessor 4096 1 1 (Some sess))) (s4 c st sess) in
        (env_AudioContext env = Throws e ->
         connect_try env s = (Throw e, s, [NewAudioContext 16000]))
        /\ (forall c,
              env_AudioContext env = Returns c ->
              env_getUserMedia env = Throw e ->
              connect_try env s
              = (Throw e, s1 c, [NewAudioContext 16000; GetUserMedia true]))
        /\ (forall c st,
              env_AudioContext env = Returns c ->
              env_getUserMedia env = Normal st ->
              env_live_connect env = Throw e ->
              connect_try env s
              = (Throw e, s2 c st,
                 [NewAudioContext 16000; GetUserMedia true; LiveConnect config]))
        /\ (forall c st sess,
              env_AudioContext env = Returns c ->
              env_getUserMedia env = Normal st ->
              env_live_connect env = Normal sess ->
              env_createMediaStreamSource env = Throws e ->
              connect_try env s
              = (Throw e, s3 c st sess,
                 [NewAudioContext 16000; GetUserMedia true; LiveConnect config;
                  CreateMediaStreamSource st]))
        /\ (forall c st sess,
              env_AudioContext env = Returns c ->
              env_getUserMedia env = Normal st ->
              env_live_connect env = Normal sess ->
              env_createMediaStreamSource env = Returns tt ->
              env_createScriptProcessor env = Throws e ->
              connect_try env s
              = (Throw e, s4 c st sess,
                 [NewAudioContext 16000; GetUserMedia true; LiveConnect config;
                  CreateMediaStreamSource st; CreateScriptProcessor 4096 1 1]))
        /\ (forall c st sess,
              env_AudioContext env = Returns c ->
              env_getUserMedia env = Normal st ->
              env_live_connect env = Normal sess ->
              env_createMediaStreamSource env = Returns tt ->
              env_createScriptProcessor env = Returns tt ->
              env_source_connect env = Throws e ->
              connect_try env s
              = (Throw e, s5 c st sess,
                 [NewAudioContext 16000; GetUserMedia true; LiveConnect config;
                  CreateMediaStreamSource st; CreateScriptProcessor 4096 1 1;
                  SetOnAudioProcess true; SourceConnect]))
        /\ (forall c st sess,
              env_AudioContext env = Returns c ->
              env_getUserMedia env = Normal st ->
              env_live_connect env = Normal sess ->
              env_createMediaStreamSource env = Returns tt ->
              env_createScriptProcessor env = Returns tt ->
              env_source_connect env = Returns tt ->
              env_processor_connect env = Throws e ->
              connect_try env s
              = (Throw e, s5 c st sess,
                 [NewAudioContext 16000; GetUserMedia true; LiveConnect config;
                  CreateMediaStreamSource st; CreateScriptProcessor 4096 1 1;
                  SetOnAudioProcess true; SourceConnect; ProcessorConnect])))
  /\ (forall env s e,
        result (connect_try env s) = Throw e ->
        connect env s
        = (Normal tt, new_Service,
           trace (connect_try env s)
           ++ [Console error (lit "Connection failed:");
               OnError (or_else (message e)
                                (lit "Failed to connect to Gemini Live Service"))]
           ++ release_events (final (connect_try env s))
           ++ [OnStatusChange false])).
Proof.
  split; [|split; [|split]].
  - intros env s c st sess Hok. cbv zeta.
    rewrite (connect_success_run env s c st sess Hok).
    cbn [result final trace fst snd]. repeat split.
    + intros inputData s0. apply audioprocess_detached.
    + intros inputData. unfold audioprocess, onaudioprocess_handler, bind, connected.
      cbn [get processor onaudioprocess lift]. rewrite createBlob_total. reflexivity.
  - intros env s e Hfail. cbv zeta.
    rewrite (connect_failure_run env s e Hfail).
    destruct (connect_try_silent env s e Hfail) as (Hst & Herr).
    destruct (connect_try_acquired env s e Hfail) as (Hctx & Hstream & Hsess).
    destruct (release_events_silent (final (connect_try env s))) as (Rst & _ & Rerr).
    cbn [result final trace fst snd]. repeat split.
    + unfold errors in *. rewrite !flat_map_app, Herr, Rerr. reflexivity.
    + unfold status_changes in *. rewrite !flat_map_app, Hst, Rst. reflexivity.
    + exists (release_events (final (connect_try env s))). split; [reflexivity|].
      unfold release_events. repeat split.
      * intros c Hc. rewrite (Hctx c Hc). rewrite !in_app_iff. cbn. auto 10.
      * intros c st track Hc Hs Ht. rewrite (Hstream c st Hc Hs).
        rewrite !in_app_iff. right. right. right. left. apply in_map, Ht.
      * intros c st sess Hc Hs Hl. rewrite (Hsess c st sess Hc Hs Hl).
        rewrite !in_app_iff. left. left. reflexivity.
  - intros env s e. cbv zeta. destruct s as [sess0 ctx0 st0 p0 src0 buf].
    unfold connect_try, setupAudioProcessing, bind, call.
    repeat split; intros;
      repeat match goal with H : _ env = _ |- _ => rewrite H; clear H end;
      reflexivity.
  - exact connect_failure_run.
Qed.

(** Claim C4 as stated asks for the microphone first and opens the audio
    context after it; the code opens the context first, so no request for
    the microphone precedes the opening of the context. *)
Lemma connect_opens_context_before_microphone :
  trace (connect granted new_Service) !! 0%nat = Some (NewAudioContext 16000)
  /\ trace (connect granted new_Service) !! 1%nat = Some (GetUserMedia true)
  /\ ~ (exists i j : nat,
          trace (connect granted new_Service) !! i = Some (GetUserMedia true)
          /\ trace (connect granted new_Service) !! j = Some (NewAudioContext 16000)
          /\ (i < j)%nat).
Proof.
  assert (Hok : succeeds granted (mkContext 16000) (mkStream [0%nat])
                         (GenAI.mkSession (Returns tt))).
  { repeat split. }
  rewrite (connect_success_run granted new_Service _ _ _ Hok).
  cbn [trace snd]. split; [reflexivity|]. split; [reflexivity|].
  intros (i & j & Hi & Hj & Hlt).
  destruct j as [|j]; [lia|].
  do 8 (destruct j as [|j]; [discriminate Hj|]). discriminate Hj.
Qed.

Lemma connect_order_and_cleanup_witness :
  trace (connect granted new_Service) =
    [NewAudioContext 16000; GetUserMedia true; LiveConnect config;
     CreateMediaStreamSource (mkStream [0%nat]); CreateScriptProcessor 4096 1 1;
     SetOnAudioProcess true; SourceConnect; ProcessorConnect;
     OnStatusChange true]
  /\ final (connect denied new_Service) = new_Service
  /\ errors (trace (connect denied new_Service)) = [lit "Permission denied"]
  /\ status_changes (trace (connect denied new_Service)) = [false]
  /\ trace (connect_try denied new_Service)
     = [NewAudioContext 16000; GetUserMedia true].
Proof.
  destruct connect_order_and_cleanup as (Hsuccess & Hfailure & Habort & _).
  split.
  - apply (Hsuccess granted new_Service (mkContext 16000) (mkStream [0%nat])
                    (GenAI.mkSession (Returns tt))).
    repeat split.
  - destruct (Hfailure denied new_Service (mkError (lit "Permission denied")) eq_refl)
      as (_ & Hfinal & Herrors & Hstatus & _).
    destruct (Habort denied new_Service (mkError (lit "Permission denied")))
      as (_ & Hmicrophone & _).
    pose proof (f_equal trace (Hmicrophone (mkContext 16000) eq_refl eq_refl))
      as Hcalls.
    auto.
Defined.

End ServiceProofs.

(** ** The component: uploads and the transcript store *)

Module AppProofs.

Import App AppObservations.

#[local] Arguments lit : simpl never.
#[local] Arguments Number_toString : simpl never.

(** ** Observing the service *)

Lemma observe_all_cons (e : GeminiLive.Event) (t : list GeminiLive.Event) :
  observe_all (e :: t) = (observe e ;; observe_all t).
Proof. reflexivity. Qed.

Lemma observe_all_app (t1 t2 : list GeminiLive.Event) (s : State) :
  observe_all (t1 ++ t2) s = (observe_all t1 ;; observe_all t2) s.
Proof.
  revert s. induction t1 as [|e t1 IH]; intros s.
  - cbn [app]. change (observe_all []) with (@ret State Event _ tt).
    rewrite ret_bind. reflexivity.
  - cbn [app]. rewrite !observe_all_cons, bind_assoc.
    apply bind_ext. intros _ s1. apply IH.
Qed.

Lemma observe_all_passive (t : list GeminiLive.Event) (s : State) :
  forallb passive t = true -> observe_all t s = (Normal tt, s, map Live t).
Proof.
  induction t as [|e t IH]; intros Hp; [reflexivity|].
  cbn [forallb] in Hp. apply andb_true_iff in Hp as [He Ht].
  rewrite observe_all_cons. cbn [map]. unfold bind at 1.
  assert (Hobs : observe e s = (Normal tt, s, [Live e])).
  { destruct e; try discriminate He; reflexivity. }
  rewrite Hobs, (IH Ht). reflexivity.
Qed.

Lemma release_events_passive (svc : GeminiLive.Service) :
  forallb passive (Observations.release_events svc) = true.
Proof.
  assert (Htracks : forall tracks, forallb passive (map GeminiLive.TrackStop tracks) = true).
  { induction tracks; cbn; auto. }
  destruct svc as [sess ctx st p src buf]. unfold Observations.release_events.
  rewrite !forallb_app.
  destruct sess as [[[[]|e]]|], p as [p|], src as [src|], st as [[tracks]|], ctx as [c|];
    cbn; rewrite ?Htracks; reflexivity.
Qed.

Lemma on_liveService_disconnect_run (s : State) (svc : GeminiLive.Service) :
  liveService s = Some svc ->
  on_liveService GeminiLive.disconnect s
  = (Normal tt, disconnected s, teardown_events svc).
Proof.
  intros Hsvc. unfold on_liveService, bind at 1. cbn [get]. rewrite Hsvc.
  rewrite ServiceProofs.disconnect_run. unfold bind at 1. cbn [modify].
  unfold bind at 1. rewrite observe_all_app. unfold bind at 1.
  rewrite (observe_all_passive _ _ (release_events_passive svc)).
  destruct s as [cs ts ct er au up us ls fi]. cbn.
  rewrite ?app_nil_r. reflexivity.
Qed.

(** ** The two branches of the upload *)

Lemma poll_run (fileName : jsstring) (answers : list (completion FileResponse))
    (state : jsstring) (s : State) :
  exists r t, poll fileName state answers s = (r, s, t) /\ forallb polling t = true.
Proof.
  revert state. induction answers as [|answer rest IH]; intros state; cbn [poll].
  - destruct (bool_decide (state = lit "PROCESSING")); cbn; eauto.
  - destruct (bool_decide (state = lit "PROCESSING")); [|cbn; eauto].
    unfold bind at 1. cbn [emit]. unfold bind at 1. cbn [call].
    destruct answer as [resp|e|]; [|cbn; eauto|cbn; eauto].
    destruct (bool_decide (_ = lit "FAILED")); [cbn; eauto|].
    destruct (IH (App.state (default (itself resp) (file resp)))) as (r & t & Hrun & Ht).
    rewrite Hrun. exists r, ([SetTimeout 1000] ++ [FilesGet fileName] ++ t).
    split; [reflexivity|]. cbn. exact Ht.
Qed.

Lemma uploadLargeFile_run (f : File) (env : UploadEnv) (s : State) :
  exists r status polls,
    uploadLargeFile f env s
    = (r, setUploadStatus status s, FilesUpload f (type f) (name f) :: polls)
    /\ forallb polling polls = true
    /\ (forall part, r = Normal part -> is_reference part = true).
Proof.
  destruct s as [cs ts ct er au up us ls fi].
  unfold uploadLargeFile. unfold bind at 1. cbn [modify].
  unfold try_catch, bind at 1. cbn [call].
  destruct (env_files_upload env) as [resp|e|].
  - destruct (truthy (uri (default (itself resp) (file resp)))) eqn:Huri; cbn [negb].
    + unfold bind at 1. cbn [modify]. unfold bind at 1.
      destruct (poll_run (file_name (default (itself resp) (file resp)))
                  (env_files_get env) (state (default (itself resp) (file resp)))
                  (setUploadStatus (lit "Processing file on server...")
                     (setUploadStatus (lit "Uploading large file...")
                        (mkState cs ts ct er au up us ls fi))))
        as (r & t & Hrun & Ht).
      rewrite Hrun.
      destruct r as [[]|e|]; cbn; rewrite ?app_nil_r.
      * eexists _, (lit "Processing file on server..."), t.
        split; [reflexivity|]. split; [exact Ht|].
        intros part [= <-]. reflexivity.
      * eexists _, (lit "Processing file on server..."), (t ++ [ConsoleError _]).
        split; [reflexivity|].
        split; [rewrite forallb_app, Ht; reflexivity|]. discriminate.
      * eexists _, (lit "Processing file on server..."), t.
        split; [reflexivity|]. split; [exact Ht|]. discriminate.
    + cbn. eexists _, (lit "Uploading large file..."), [ConsoleError _; ConsoleError _].
      split; [reflexivity|]. split; [reflexivity|]. discriminate.
  - cbn. eexists _, (lit "Uploading large file..."), [ConsoleError _].
    split; [reflexivity|]. split; [reflexivity|]. discriminate.
  - cbn. eexists _, (lit "Uploading large file..."), [].
    split; [reflexivity|]. split; [reflexivity|]. discriminate.
Qed.

(** Closes one case of [attempt_run]: the case appends [added], its branch
    makes the calls [tb], and the calls [tg] follow. *)
Tactic Notation "attempt_case" uconstr(added) uconstr(tb) uconstr(tg) :=
  eexists _, _, added, tb, tg;
  (split; [first [reflexivity | rewrite app_nil_r; reflexivity]|]);
  cbn; rewrite ?app_nil_r; repeat split;
  first [ left; reflexivity
        | right; eexists; split; [apply truthy_nonempty; eassumption|reflexivity]
        | solve [eauto]
        | repeat constructor; cbn;
          match goal with H : (_ <? _) = _ |- _ => rewrite ?H end;
          solve [eauto] ].

Lemma attempt_run (f : File) (env : UploadEnv) (s : State) :
  exists r s' added tb tg,
    attempt f env s = (r, s', tb ++ tg)
    /\ transcripts s' = transcripts s ++ added
    /\ currentText s' = currentText s
    /\ connectionState s' = connectionState s
    /\ liveService s' = liveService s
    /\ (added = [] \/ exists text, text <> [] /\ added = [batch_item env text])
    /\ branch_shape f tb
    /\ Forall (tail_ok f) tg.
Proof.
  destruct s as [cs ts ct er au up us ls fi].
  unfold attempt, handleFileUpload_try, branch_shape.
  change (20 * 1024 * 1024) with threshold.
  unfold try_finally, try_catch. unfold bind at 1.
  destruct (size f <? threshold) eqn:Hsize.
  - (* the file is read and sent inline *)
    unfold inlineSmallFile. unfold bind at 1. cbn [modify]. unfold bind at 1. cbn [call].
    destruct (env_fileToBase64 env) as [d|e|]; cbn.
    + destruct (env_generateContent env) as [text|e|]; cbn.
      * destruct (truthy text) eqn:Htext; cbn.
        -- attempt_case [batch_item env text] [ReadAsDataURL f] _.
        -- attempt_case [] [ReadAsDataURL f] _.
      * attempt_case [] [ReadAsDataURL f] _.
      * attempt_case [] [ReadAsDataURL f] _.
    + attempt_case [] [ReadAsDataURL f] _.
    + attempt_case [] [ReadAsDataURL f] [].
  - (* the file is uploaded, polled and referenced *)
    destruct (uploadLargeFile_run f env (mkState cs ts ct er au up us ls fi))
      as (r0 & status & polls & Hrun & Hpolls & Hpart).
    rewrite Hrun.
    destruct r0 as [part|e|]; cbn; rewrite ?app_nil_r, <- ?app_assoc.
    + specialize (Hpart part eq_refl).
      destruct (env_generateContent env) as [text|e|]; cbn;
        rewrite ?app_nil_r, <- ?app_assoc.
      * destruct (truthy text) eqn:Htext; cbn; rewrite ?app_nil_r, <- ?app_assoc.
        -- attempt_case [batch_item env text] (FilesUpload f (type f) (name f) :: polls) _.
        -- attempt_case [] (FilesUpload f (type f) (name f) :: polls) _.
      * attempt_case [] (FilesUpload f (type f) (name f) :: polls) _.
      * attempt_case [] (FilesUpload f (type f) (name f) :: polls) _.
    + attempt_case [] (FilesUpload f (type f) (name f) :: polls) _.
    + attempt_case [] (FilesUpload f (type f) (name f) :: polls) [].
Qed.

Lemma handleFileUpload_run (f : File) (env : UploadEnv) (s : State) :
  handleFileUpload (Some f) env s =
  match attempt f env (prepared s) with
  | (r, s', t) => (r, s', pre_events s ++ t)
  end.
Proof.
  unfold handleFileUpload, prepared, pre_events. fold (attempt f env).
  unfold bind at 1. cbn [get]. unfold bind at 1. cbn [modify].
  unfold bind at 1. cbn [modify]. unfold bind at 1. cbn [modify].
  unfold bind at 1. cbv zeta.
  destruct (ConnectionState_eqb (connectionState s) CONNECTED); cbn [when].
  - destruct (liveService s) as [svc|] eqn:Hsvc.
    + rewrite (on_liveService_disconnect_run _ svc)
        by (destruct s; exact Hsvc).
      destruct (attempt f env _) as [[r s'] t]. reflexivity.
    + unfold on_liveService, bind at 1. cbn [get].
      replace (liveService (setUploadStatus (lit "Preparing...")
                 (setError None (setIsUploading true s)))) with (@None GeminiLive.Service)
        by (destruct s; cbn in *; congruence).
      cbn [ret]. destruct (attempt f env _) as [[r s'] t]. reflexivity.
  - cbn [ret]. destruct (attempt f env _) as [[r s'] t]. reflexivity.
Qed.


Lemma polling_In (polls : list Event) (e : Event) :
  forallb polling polls = true -> In e polls -> polling e = true.
Proof. intros H. rewrite forallb_forall in H. apply H. Qed.



Lemma attempt_not_live (f : File) (tb tg : list Event) :
  branch_shape f tb -> Forall (tail_ok f) tg ->
  forall e, In e (tb ++ tg) -> forall e', e <> Live e'.
Proof.
  intros Hb Hg e Hin e' ->. rewrite in_app_iff in Hin. destruct Hin as [Hin|Hin].
  - unfold branch_shape in Hb. destruct (size f <? threshold).
    + subst tb. destruct Hin as [Hin|[]]. discriminate.
    + destruct Hb as (polls & -> & Hp). destruct Hin as [Hin|Hin]; [discriminate|].
      apply (polling_In _ _ Hp) in Hin. discriminate.
  - rewrite Forall_forall in Hg. apply list_elem_of_In, Hg in Hin. contradiction.
Qed.

Lemma prepared_connected (s : State) (svc : GeminiLive.Service) :
  connectionState s = CONNECTED -> liveService s = Some svc ->
  pre_events s = teardown_events svc
  /\ liveService (prepared s) = Some GeminiLive.new_Service
  /\ connectionState (prepared s) = DISCONNECTED.
Proof.
  intros Hc Hl. unfold pre_events, prepared. rewrite Hc, Hl. cbn. auto.
Qed.

(** ** The transcript store *)

Lemma observe_run (e : GeminiLive.Event) (s : State) :
  exists s',
    observe e s = (Normal tt, s', [Live e])
    /\ transcripts s' = transcripts s ++ Observations.final_updates [e].
Proof.
  destruct s as [cs ts ct er au up us ls fi].
  destruct e; try (eexists; split; [reflexivity|cbn; rewrite app_nil_r; reflexivity]).
  - (* a transcription update *)
    unfold observe, bind, handleTranscriptionUpdate. cbn [emit].
    unfold Observations.final_updates, Observations.updates. cbn [flat_map app List.filter].
    destruct (isPartial item); cbn;
      eexists; (split; [reflexivity|cbn; rewrite ?app_nil_r; reflexivity]).
  - (* a status change *)
    destruct status, ls as [svc|];
      eexists; (split; [reflexivity|cbn; rewrite ?app_nil_r; reflexivity]).
Qed.

Lemma final_updates_app (t1 t2 : list GeminiLive.Event) :
  Observations.final_updates (t1 ++ t2)
  = Observations.final_updates t1 ++ Observations.final_updates t2.
Proof.
  unfold Observations.final_updates, Observations.updates.
  rewrite flat_map_app, List.filter_app. reflexivity.
Qed.

Lemma observe_all_run (t : list GeminiLive.Event) (s : State) :
  exists s',
    observe_all t s = (Normal tt, s', map Live t)
    /\ transcripts s' = transcripts s ++ Observations.final_updates t.
Proof.
  revert s. induction t as [|e t IH]; intros s.
  - exists s. split; [reflexivity|]. cbn. rewrite app_nil_r. reflexivity.
  - rewrite observe_all_cons. unfold bind.
    destruct (observe_run e s) as (s1 & Hrun & Hts). rewrite Hrun.
    destruct (IH s1) as (s2 & Hrun2 & Hts2). rewrite Hrun2.
    exists s2. split; [reflexivity|].
    rewrite Hts2, Hts, <- app_assoc.
    change (e :: t) with ([e] ++ t). rewrite final_updates_app. reflexivity.
Qed.

Lemma on_liveService_transcripts (method : GeminiLive.SM unit) (s : State) :
  transcripts (final (on_liveService method s))
  = transcripts s
    ++ match liveService s with
       | Some svc => Observations.final_updates (trace (method svc))
       | None => []
       end.
Proof.
  unfold on_liveService, bind at 1. cbn [get].
  destruct (liveService s) as [svc|].
  - destruct (method svc) as [[r svc'] t]. unfold bind at 1. cbn [modify].
    unfold bind at 1.
    destruct (observe_all_run t (set_liveService (Some svc') s)) as (s' & Hrun & Hts).
    rewrite Hrun. unfold lift. cbn [final trace fst snd]. rewrite Hts.
    destruct s; reflexivity.
  - cbn. rewrite app_nil_r. reflexivity.
Qed.

Lemma final_updates_of_updates (t : list GeminiLive.Event) :
  Observations.updates t = [] -> Observations.final_updates t = [].
Proof. unfold Observations.final_updates. intros ->. reflexivity. Qed.

Lemma disconnect_updates (svc : GeminiLive.Service) :
  Observations.updates (trace (GeminiLive.disconnect svc)) = [].
Proof.
  rewrite ServiceProofs.disconnect_run. cbn [trace snd].
  unfold Observations.updates. rewrite flat_map_app.
  destruct (ServiceProofs.release_events_silent svc) as (_ & H & _).
  unfold Observations.updates in H. rewrite H. reflexivity.
Qed.

Lemma connect_try_updates (env : GeminiLive.ConnectEnv) (svc : GeminiLive.Service) :
  Observations.updates (trace (GeminiLive.connect_try env svc)) = [].
Proof.
  destruct env as [e1 e2 e3 e4 e5 e6 e7], svc as [sess0 ctx0 st0 p0 src0 buf].
  unfold GeminiLive.connect_try, GeminiLive.setupAudioProcessing, bind, call.
  cbn [GeminiLive.env_AudioContext GeminiLive.env_getUserMedia
       GeminiLive.env_live_connect GeminiLive.env_createMediaStreamSource
       GeminiLive.env_createScriptProcessor GeminiLive.env_source_connect
       GeminiLive.env_processor_connect].
  destruct e1 as [c|e1]; cbn; [|reflexivity].
  destruct e2 as [st|e2|]; cbn; [|reflexivity|reflexivity].
  destruct e3 as [sess|e3|]; cbn; [|reflexivity|reflexivity].
  destruct e4 as [[]|e4], e5 as [[]|e5], e6 as [[]|e6], e7 as [[]|e7]; reflexivity.
Qed.

Lemma connect_updates (env : GeminiLive.ConnectEnv) (svc : GeminiLive.Service) :
  Observations.updates (trace (GeminiLive.connect env svc)) = [].
Proof.
  pose proof (connect_try_updates env svc) as Htry.
  unfold GeminiLive.connect, try_catch.
  destruct (GeminiLive.connect_try env svc) as [[[[]|e|] s1] t1]; cbn [trace snd] in *;
    try exact Htry.
  unfold GeminiLive.connect_catch, bind. cbn [emit].
  rewrite ServiceProofs.disconnect_run. cbn [trace snd].
  destruct (ServiceProofs.release_events_silent s1) as (_ & H & _).
  unfold Observations.updates in *. rewrite !flat_map_app, Htry, H. reflexivity.
Qed.

Lemma handleOnMessage_final_updates
    (now : N) (message : GenAI.LiveServerMessage) (svc : GeminiLive.Service) :
  Observations.final_updates (trace (GeminiLive.handleOnMessage now message svc)) = []
  \/ exists text,
       Observations.final_updates (trace (GeminiLive.handleOnMessage now message svc))
       = [Observations.final_item now text].
Proof.
  pose proof (ServiceProofs.handleOnMessage_cases now message svc) as Hrun.
  cbv zeta in Hrun. rewrite Hrun.
  destruct (Observations.fragment message) as [text|];
    destruct (Observations.turn_complete message && truthy (trim _));
    cbn [trace snd]; eauto.
Qed.

Lemma clearTranscripts_run (answer : bool) (s : State) :
  clearTranscripts answer s =
  if store_is_empty s then (Normal tt, s, [])
  else if answer then
    (Normal tt,
     (if ConnectionState_eqb (connectionState s) CONNECTED
      then setTranscripts (fun _ => []) s
      else setCurrentText [] (setTranscripts (fun _ => []) s)),
     [confirm_clear])
  else (Normal tt, s, [confirm_clear]).
Proof.
  destruct s as [cs ts ct er au up us ls fi].
  unfold clearTranscripts, store_is_empty, bind, get, call, confirm_clear.
  cbn [transcripts currentText connectionState].
  destruct ((length ts =? 0)%nat && negb (truthy ct)); [reflexivity|].
  destruct answer; [|reflexivity].
  destruct (ConnectionState_eqb cs CONNECTED); reflexivity.
Qed.

Lemma perform_transcripts (op : Operation) (s : State) :
  transcripts (final (perform op s)) = transcripts s
  \/ (exists item, finalized item
                   /\ transcripts (final (perform op s)) = transcripts s ++ [item])
  \/ (op = Clear true /\ transcripts (final (perform op s)) = []).
Proof.
  destruct op as [item|now message|selected env|answer|env|isConnected|errMessage];
    cbn [perform].
  - destruct s as [cs ts ct er au up us ls fi]. unfold handleTranscriptionUpdate.
    destruct (isPartial item) eqn:Hp; cbn; [left; reflexivity|].
    right. left. exists item. split; [exact Hp|reflexivity].
  - rewrite on_liveService_transcripts. destruct (liveService s) as [svc|].
    + destruct (handleOnMessage_final_updates now message svc) as [->|(text & ->)].
      * left. apply app_nil_r.
      * right. left. exists (Observations.final_item now text). split; reflexivity.
    + left. apply app_nil_r.
  - destruct selected as [f|]; [|left; reflexivity].
    rewrite handleFileUpload_run.
    destruct (attempt_run f env (prepared s))
      as (r & s' & added & tb & tg & Hrun & Hts & _ & _ & _ & Hadded & _ & _).
    rewrite Hrun. cbn [final fst snd]. rewrite Hts.
    assert (Hprep : transcripts (prepared s) = transcripts s).
    { unfold prepared. destruct s as [cs ts ct er au up us ls fi]. cbn.
      destruct (ConnectionState_eqb cs CONNECTED), ls; reflexivity. }
    rewrite Hprep. destruct Hadded as [->|(text & _ & ->)].
    + left. apply app_nil_r.
    + right. left. exists (batch_item env text). split; reflexivity.
  - rewrite clearTranscripts_run.
    destruct (store_is_empty s); [left; reflexivity|].
    destruct answer; [|left; reflexivity].
    right. right. split; [reflexivity|].
    destruct (ConnectionState_eqb (connectionState s) CONNECTED); destruct s; reflexivity.
  - unfold toggleRecording. rewrite get_bind.
    destruct (_ || _).
    + rewrite on_liveService_transcripts. destruct (liveService s) as [svc|].
      * rewrite (final_updates_of_updates _ (disconnect_updates svc)).
        left. apply app_nil_r.
      * left. apply app_nil_r.
    + rewrite modify_bind, on_liveService_transcripts.
      destruct s as [cs ts ct er au up us ls fi].
      cbn [liveService setConnectionState transcripts].
      destruct ls as [svc|].
      * rewrite (final_updates_of_updates _ (connect_updates env svc)).
        left. apply app_nil_r.
      * left. apply app_nil_r.
  - destruct s as [cs ts ct er au up us ls fi]. left.
    destruct isConnected, ls; reflexivity.
  - destruct s as [cs ts ct er au up us ls fi]. left. reflexivity.
Qed.

Lemma finalized_no_partial (items : list TranscriptItem) :
  Forall finalized items -> List.filter isPartial items = [].
Proof.
  induction 1 as [|item rest Hitem _ IH]; [reflexivity|].
  cbn [List.filter]. unfold finalized in Hitem. rewrite Hitem. exact IH.
Qed.

Lemma perform_finalized (op : Operation) (s : State) :
  Forall finalized (transcripts s) ->
  Forall finalized (transcripts (final (perform op s))).
Proof.
  intros Hinv.
  destruct (perform_transcripts op s) as [->|[(item & Hitem & ->)|(_ & ->)]].
  - exact Hinv.
  - apply Forall_app. split; [exact Hinv|]. constructor; [exact Hitem|constructor].
  - constructor.
Qed.

Lemma exec_finalized (ops : list Operation) (s : State) :
  Forall finalized (transcripts s) ->
  Forall finalized (transcripts (exec ops s)).
Proof.
  revert s. induction ops as [|op ops IH]; intros s Hinv; [exact Hinv|].
  cbn [exec fold_left]. apply IH, perform_finalized, Hinv.
Qed.

Lemma observe_service (e : GeminiLive.Event) (s : State) :
  liveService (final (observe e s)) = liveService s.
Proof.
  destruct s as [cs ts ct er au up us ls fi].
  destruct e; try reflexivity.
  - unfold observe, bind, handleTranscriptionUpdate. cbn [emit].
    destruct (isPartial item); reflexivity.
  - destruct status, ls; reflexivity.
Qed.

Lemma observe_all_service (t : list GeminiLive.Event) (s : State) :
  liveService (final (observe_all t s)) = liveService s.
Proof.
  revert s. induction t as [|e t IH]; intros s; [reflexivity|].
  rewrite observe_all_cons. unfold bind.
  pose proof (observe_service e s) as Hone.
  destruct (observe_run e s) as (s1 & Hrun & _). rewrite Hrun in *.
  specialize (IH s1). destruct (observe_all t s1) as [[r s2] t2].
  unfold final in *. cbn [fst snd] in *. congruence.
Qed.

Lemma on_liveService_service (method : GeminiLive.SM unit) (s : State) :
  liveService s <> None -> liveService (final (on_liveService method s)) <> None.
Proof.
  intros Hsvc. unfold on_liveService. rewrite get_bind.
  destruct (liveService s) as [svc|] eqn:Hs; [|contradiction].
  destruct (method svc) as [[r svc'] t]. rewrite modify_bind. unfold bind.
  pose proof (observe_all_service t (set_liveService (Some svc') s)) as Hall.
  destruct (observe_all t _) as [[[[]|e|] s'] t']; cbn [final fst snd lift] in *;
    rewrite Hall; destruct s; discriminate.
Qed.

(** The ref of the service, once set by the mount effect, stays set. *)
Lemma perform_keeps_service (op : Operation) (s : State) :
  liveService s <> None -> liveService (final (perform op s)) <> None.
Proof.
  intros Hsvc.
  destruct op as [item|now message|selected env|answer|env|isConnected|errMessage];
    cbn [perform].
  - destruct s as [cs ts ct er au up us ls fi]. unfold handleTranscriptionUpdate.
    destruct (isPartial item); exact Hsvc.
  - apply on_liveService_service, Hsvc.
  - destruct selected as [f|]; [|exact Hsvc].
    rewrite handleFileUpload_run.
    destruct (attempt_run f env (prepared s))
      as (r & s' & added & tb & tg & Hrun & _ & _ & _ & Hls & _).
    rewrite Hrun. cbn [final fst snd]. rewrite Hls.
    unfold prepared. destruct s as [cs ts ct er au up us ls fi]. cbn in *.
    destruct (ConnectionState_eqb cs CONNECTED), ls; cbn; congruence.
  - rewrite clearTranscripts_run.
    destruct (store_is_empty s); [exact Hsvc|].
    destruct answer; [|exact Hsvc].
    destruct (ConnectionState_eqb (connectionState s) CONNECTED); destruct s; exact Hsvc.
  - unfold toggleRecording. rewrite get_bind.
    destruct (_ || _).
    + apply on_liveService_service, Hsvc.
    + rewrite modify_bind. apply on_liveService_service. destruct s; exact Hsvc.
  - destruct s as [cs ts ct er au up us ls fi].
    destruct isConnected, ls; cbn in *; first [exact Hsvc | discriminate].
  - destruct s as [cs ts ct er au up us ls fi]. exact Hsvc.
Qed.

Lemma exec_keeps_service (ops : list Operation) (s : State) :
  liveService s <> None -> liveService (exec ops s) <> None.
Proof.
  revert s. induction ops as [|op ops IH]; intros s Hsvc; [exact Hsvc|].
  cbn [exec fold_left]. apply IH, perform_keeps_service, Hsvc.
Qed.

(** Claim C6.  An upload that starts while the component is [CONNECTED]
    first runs [disconnect()] on the service (which the component holds
    from the mount effect on): the calls that release the session come
    first, then the "not connected" notification, and every call of the
    batch path, the transcription request among them, comes after it; the
    service holds no session afterwards. *)
Theorem upload_disconnects_live_session_first :
  (forall (f : File) (env : UploadEnv) (s : State) (svc : GeminiLive.Service),
     connectionState s = CONNECTED ->
     liveService s = Some svc ->
     let r := handleFileUpload (Some f) env s in
     exists after,
       trace r = map Live (Observations.release_events svc)
                 ++ Live (GeminiLive.OnStatusChange false) :: after
       /\ (forall sess, GeminiLive.session svc = Some sess ->
             In (GeminiLive.SessionClose sess) (Observations.release_events svc))
       /\ (forall m parts, In (GenerateContent m parts) (trace r) ->
             In (GenerateContent m parts) after)
       /\ (forall e, In e after -> forall e', e <> Live e')
       /\ liveService (final r) = Some GeminiLive.new_Service
       /\ connectionState (final r) = DISCONNECTED)
  /\ (forall ops : list Operation,
        exists svc, liveService (exec ops mounted) = Some svc).
Proof.
  split.
  - intros f env s svc Hc Hl. cbv zeta. rewrite handleFileUpload_run.
    destruct (prepared_connected s svc Hc Hl) as (Hpre & Hls & Hcs).
    destruct (attempt_run f env (prepared s))
      as (r & s' & added & tb & tg & Hrun & _ & _ & Hcs' & Hls' & _ & Hb & Hg).
    rewrite Hrun, Hpre. cbn [trace final fst snd]. unfold teardown_events.
    exists (tb ++ tg). rewrite <- app_assoc. cbn [app].
    split; [reflexivity|]. split; [|split; [|split; [|split]]].
    + intros sess Hs. unfold Observations.release_events. rewrite Hs.
      cbn [app]. left. reflexivity.
    + intros m parts Hin. rewrite in_app_iff in Hin. destruct Hin as [Hin|[Hin|Hin]].
      * apply in_map_iff in Hin as (e' & He & _). discriminate.
      * discriminate.
      * exact Hin.
    + apply (attempt_not_live f tb tg Hb Hg).
    + congruence.
    + congruence.
  - intros ops.
    pose proof (exec_keeps_service ops mounted ltac:(discriminate)) as Hsvc.
    destruct (liveService (exec ops mounted)) as [svc|]; [eauto|contradiction].
Qed.

Lemma upload_disconnects_live_session_first_witness :
  exists after,
    trace (handleFileUpload (Some boundary_file) answering recording)
    = map Live (Observations.release_events
                  (default GeminiLive.new_Service (liveService recording)))
      ++ Live (GeminiLive.OnStatusChange false) :: after
    /\ liveService (final (handleFileUpload (Some boundary_file) answering recording))
       = Some GeminiLive.new_Service.
Proof.
  destruct upload_disconnects_live_session_first as [Hupload _].
  destruct (Hupload boundary_file answering recording
              (default GeminiLive.new_Service (liveService recording))
              eq_refl eq_refl)
    as (after & Htrace & _ & _ & _ & Hservice & _).
  exists after. split; [exact Htrace|exact Hservice].
Defined.

(** Claim C7.  Whatever the operation (an update from the live path, a
    server message, an upload, a clear, a toggle, a status change, an
    error), the finalized list is unchanged, or has one finalized item
    more at its end, or is emptied by a confirmed clear; and after any
    sequence of operations the list holds no partial item, so the store
    has at most one in-progress entry, the current text. *)
Theorem transcript_store_discipline :
  (forall (op : Operation) (s : State),
     let s' := final (perform op s) in
     transcripts s' = transcripts s
     \/ (exists item, isPartial item = false /\ transcripts s' = transcripts s ++ [item])
     \/ (op = Clear true /\ transcripts s' = []))
  /\ (forall (ops : list Operation) (s0 : State),
        Forall (fun item => isPartial item = false) (transcripts s0) ->
        let s := exec ops s0 in
        Forall (fun item => isPartial item = false) (transcripts s)
        /\ (partial_entries s <= 1)%nat)
  /\ (forall ops : list Operation,
        let s := exec ops mounted in
        Forall (fun item => isPartial item = false) (transcripts s)
        /\ (partial_entries s <= 1)%nat).
Proof.
  assert (Hgen : forall ops s0,
             Forall finalized (transcripts s0) ->
             Forall finalized (transcripts (exec ops s0))
             /\ (partial_entries (exec ops s0) <= 1)%nat).
  { intros ops s0 Hinv. pose proof (exec_finalized ops s0 Hinv) as Hfin.
    split; [exact Hfin|]. unfold partial_entries.
    rewrite (finalized_no_partial _ Hfin). cbn [length].
    destruct (truthy (currentText (exec ops s0))); lia. }
  split; [exact perform_transcripts|]. split.
  - intros ops s0 Hinv. apply Hgen, Hinv.
  - intros ops. apply Hgen. constructor.
Qed.

Lemma transcript_store_discipline_witness :
  Forall (fun item => isPartial item = false)
         (transcripts (exec [LiveUpdate one_item; Clear false]
                            (setTranscripts (fun _ => [one_item]) mounted)))
  /\ (partial_entries (exec [LiveUpdate one_item; Clear false]
                            (setTranscripts (fun _ => [one_item]) mounted)) <= 1)%nat.
Proof.
  destruct transcript_store_discipline as (_ & Hinv & _).
  apply (Hinv [LiveUpdate one_item; Clear false]
              (setTranscripts (fun _ => [one_item]) mounted)).
  repeat constructor.
Defined.

Lemma store_is_empty_true (s : State) :
  store_is_empty s = true -> transcripts s = [] /\ currentText s = [].
Proof.
  unfold store_is_empty. intros H. apply andb_true_iff in H as [Hl Ht].
  apply Nat.eqb_eq in Hl. apply negb_true_iff, truthy_empty in Ht.
  split; [|exact Ht]. destruct (transcripts s); [reflexivity|discriminate].
Qed.

(** Claim C8.  A confirmed clear empties the finalized list; the
    in-progress text is kept when the component is [CONNECTED] and cleared
    when it is [DISCONNECTED] (or in any other state). *)
Theorem clear_keeps_partial_while_connected (s : State) :
  let r := clearTranscripts true s in
  result r = Normal tt
  /\ transcripts (final r) = []
  /\ (connectionState s = CONNECTED -> currentText (final r) = currentText s)
  /\ (connectionState s = DISCONNECTED -> currentText (final r) = [])
  /\ (connectionState s <> CONNECTED -> currentText (final r) = [])
  /\ (store_is_empty s = false -> trace r = [confirm_clear])
  /\ connectionState (final r) = connectionState s.
Proof.
  cbv zeta. rewrite clearTranscripts_run.
  destruct (store_is_empty s) eqn:Hempty.
  - destruct (store_is_empty_true s Hempty) as [Hts Hct].
    cbn [result final trace fst snd]. repeat split; auto; discriminate.
  - destruct s as [cs ts ct er au up us ls fi].
    destruct cs; cbn; repeat split; auto; try congruence; try discriminate.
Qed.

Lemma clear_keeps_partial_while_connected_witness :
  transcripts (final (clearTranscripts true dictating)) = []
  /\ currentText (final (clearTranscripts true dictating)) = lit "and then"
  /\ currentText (final (clearTranscripts true (setConnectionState DISCONNECTED dictating)))
     = [].
Proof.
  destruct (clear_keeps_partial_while_connected dictating)
    as (_ & Hts & Hconnected & _).
  destruct (clear_keeps_partial_while_connected (setConnectionState DISCONNECTED dictating))
    as (_ & _ & _ & Hdisconnected & _).
  split; [exact Hts|]. split.
  - apply Hconnected. reflexivity.
  - apply Hdisconnected. reflexivity.
Defined.

End AppProofs.

(* ===================================================================== *)
(** * More properties of the sources *)
(* ===================================================================== *)

(** ** The encoder *)

Module EncoderLaws.

Import GeminiLive.

Lemma base64_encode_length (bytes : list N) :
  length (base64_encode bytes) = (4 * ((length bytes + 2) / 3))%nat.
Proof.
  induction bytes as [|a|a b|a b c rest IH] using list_ind3; try reflexivity.
  cbn [base64_encode length]. rewrite IH.
  replace (S (S (S (length rest))) + 2)%nat with (1 * 3 + (length rest + 2))%nat by lia.
  rewrite Nat.div_add_l by lia. lia.
Qed.

Lemma sextet_char_in_alphabet (i : N) : In (sextet_char i) alphabet \/ sextet_char i = pad.
Proof.
  unfold sextet_char.
  destruct (Nat.lt_ge_cases (N.to_nat i) (length alphabet)) as [Hlt|Hge].
  - left. apply nth_In, Hlt.
  - right. apply nth_overflow, Hge.
Qed.

Lemma base64_encode_chars (bytes : list N) :
  Forall (fun c => In c alphabet \/ c = pad) (base64_encode bytes).
Proof.
  induction bytes as [|a|a b|a b c rest IH] using list_ind3; cbn [base64_encode];
    repeat (constructor; [first [apply sextet_char_in_alphabet | right; reflexivity]|]);
    first [exact IH | constructor].
Qed.

(** Property X1.  [encode] on the bytes of a [Uint8Array] never throws; its
    result decodes back to the same bytes, has four characters for every
    three bytes (the last group padded), and holds only characters of the
    Base64 alphabet and the padding sign. *)
Theorem encode_round_trip (bytes : list N) :
  Forall (fun b => b < 256) bytes ->
  exists s,
    encode bytes = Normal s
    /\ atob s = Some bytes
    /\ length s = (4 * ((length bytes + 2) / 3))%nat
    /\ Forall (fun c => In c alphabet \/ c = pad) s.
Proof.
  intros Hsmall. exists (base64_encode bytes).
  split; [apply encode_bytes, Hsmall|].
  split; [apply base64_decode_encode, Hsmall|].
  split; [apply base64_encode_length|apply base64_encode_chars].
Qed.

Lemma encode_round_trip_witness :
  exists s,
    encode [72; 105; 255] = Normal s
    /\ atob s = Some [72; 105; 255]
    /\ length s = 4%nat
    /\ Forall (fun c => In c alphabet \/ c = pad) s.
Proof.
  apply (encode_round_trip [72; 105; 255]).
  repeat constructor.
Defined.

Lemma map_stored_app (a b : list float) :
  createBlob_int16 (a ++ b) = createBlob_int16 a ++ createBlob_int16 b.
Proof. rewrite !createBlob_int16_map. apply map_app. Qed.

(** Property X2.  [createBlob] treats every sample on its own: the 16-bit
    values (and the bytes) of two chunks put together are those of the first
    chunk followed by those of the second, so the byte stream does not
    depend on where the audio is cut into chunks; a chunk of [n] samples
    gives [n] values and a [data] string of [4 * ceil(2n / 3)]
    characters, the empty chunk the empty string. *)
Theorem createBlob_chunks (a b : list float) :
  createBlob_int16 (a ++ b) = createBlob_int16 a ++ createBlob_int16 b
  /\ Uint8Array_of_Int16Array (createBlob_int16 (a ++ b))
     = Uint8Array_of_Int16Array (createBlob_int16 a)
       ++ Uint8Array_of_Int16Array (createBlob_int16 b)
  /\ length (createBlob_int16 a) = length a
  /\ (exists blob,
        createBlob a = Normal blob
        /\ length (GenAI.data blob) = (4 * ((2 * length a + 2) / 3))%nat)
  /\ createBlob [] = Normal (GenAI.mkBlob [] (lit "audio/pcm;rate=16000")).
Proof.
  split; [apply map_stored_app|].
  split.
  { rewrite map_stored_app. unfold Uint8Array_of_Int16Array. apply flat_map_app. }
  split; [rewrite createBlob_int16_map; apply length_map|].
  split; [|reflexivity].
  exists (Reference.createBlob a). split; [apply createBlob_total|].
  unfold Reference.createBlob. cbn [GenAI.data].
  rewrite base64_encode_length, pcm_bytes_length. reflexivity.
Qed.

End EncoderLaws.

(** ** The session manager: teardown, resumption, turns *)

Module ServiceLaws.

Import GeminiLive Observations Resumed Teardown Dialogue.

Lemma stopped_tracks_app (t1 t2 : list Event) :
  stopped_tracks (t1 ++ t2) = stopped_tracks t1 ++ stopped_tracks t2.
Proof. apply flat_map_app. Qed.

Lemma stopped_tracks_map (tracks : list nat) :
  stopped_tracks (map TrackStop tracks) = tracks.
Proof.
  induction tracks as [|track rest IH]; [reflexivity|].
  cbn [map]. change (stopped_tracks (TrackStop track :: map TrackStop rest))
    with (track :: stopped_tracks (map TrackStop rest)).
  rewrite IH. reflexivity.
Qed.

Lemma release_events_tracks (s : Service) :
  stopped_tracks (release_events s)
  = match stream s with Some st => getTracks st | None => [] end.
Proof.
  destruct s as [sess ctx st p src buf]. unfold release_events.
  rewrite !stopped_tracks_app.
  destruct sess as [[[[]|e]]|], p as [p|], src as [src|], st as [[tracks]|], ctx as [c|];
    cbn [session processor source stream inputAudioContext getTracks GenAI.close];
    rewrite ?stopped_tracks_map; cbn; rewrite ?app_nil_r; reflexivity.
Qed.

(** Property X3.  The calls of [disconnect()], in order: [session.close()]
    (and a warning when it throws), [processor.disconnect()], the handler
    set to [null], [source.disconnect()], one [stop()] for each track of the
    stream, [inputAudioContext.close()], and the "not connected"
    notification last; each only for a field that is set.  The tracks
    stopped are exactly the tracks of the stream, each once and in their
    order; a service that holds nothing only notifies. *)
Theorem disconnect_release_order :
  (forall sess c st p src buf,
     trace (disconnect (mkService (Some sess) (Some c) (Some st) (Some p) (Some src) buf))
     = SessionClose sess :: close_warning sess
       ++ [ProcessorDisconnect; SetOnAudioProcess false; SourceDisconnect]
       ++ map TrackStop (getTracks st)
       ++ [ContextClose c; OnStatusChange false])
  /\ (forall s, trace (disconnect s) = release_events s ++ [OnStatusChange false])
  /\ (forall s,
        stopped_tracks (trace (disconnect s))
        = match stream s with Some st => getTracks st | None => [] end)
  /\ (forall c buf,
        trace (disconnect (mkService None (Some c) None None None buf))
        = [ContextClose c; OnStatusChange false])
  /\ (forall buf,
        disconnect (mkService None None None None None buf)
        = (Normal tt, new_Service, [OnStatusChange false])).
Proof.
  split; [|split; [|split; [|split]]].
  - intros sess c st p src buf. rewrite ServiceProofs.disconnect_run.
    cbn [trace snd]. unfold release_events, close_warning.
    cbn [session processor source stream inputAudioContext].
    destruct (GenAI.close sess); cbn [app]; rewrite <- ?app_assoc; reflexivity.
  - intros s. rewrite ServiceProofs.disconnect_run. reflexivity.
  - intros s. rewrite ServiceProofs.disconnect_run. cbn [trace snd].
    rewrite stopped_tracks_app, release_events_tracks. cbn. apply app_nil_r.
  - intros c buf. rewrite ServiceProofs.disconnect_run. reflexivity.
  - intros buf. rewrite ServiceProofs.disconnect_run. reflexivity.
Qed.

(** Property X4.  A successful [connect()] followed by [disconnect()]
    gives back exactly what it took: the session that was opened is closed,
    the tap is detached, the tracks of the granted stream are stopped, the
    context that was opened is closed, the service is as new, and a chunk
    of audio that arrives afterwards is sent nowhere.  Nothing the service
    held before the [connect()] is released by either call: the calls do
    not depend on the fields at the start. *)
Theorem connect_then_disconnect (env : ConnectEnv) (s : Service) c st sess :
  succeeds env c st sess ->
  let r := (connect env ;; disconnect) s in
  result r = Normal tt
  /\ final r = new_Service
  /\ trace r
     = acquisition st ++ [OnStatusChange true]
       ++ SessionClose sess :: close_warning sess
       ++ [ProcessorDisconnect; SetOnAudioProcess false; SourceDisconnect]
       ++ map TrackStop (getTracks st)
       ++ [ContextClose c; OnStatusChange false]
  /\ stopped_tracks (trace r) = getTracks st
  /\ trace r = trace ((connect env ;; disconnect) new_Service)
  /\ (forall inputData,
        audioprocess inputData (final r) = (Normal tt, new_Service, [])).
Proof.
  intros Hok. cbv zeta.
  assert (Hrun : forall s0,
    (connect env ;; disconnect) s0
    = (Normal tt, new_Service,
       acquisition st ++ [OnStatusChange true]
       ++ SessionClose sess :: close_warning sess
       ++ [ProcessorDisconnect; SetOnAudioProcess false; SourceDisconnect]
       ++ map TrackStop (getTracks st)
       ++ [ContextClose c; OnStatusChange false])).
  { intros s0. unfold bind.
    rewrite (ServiceProofs.connect_success_run env s0 c st sess Hok).
    rewrite ServiceProofs.disconnect_run.
    unfold release_events, connected, close_warning, acquisition.
    cbn [session processor source stream inputAudioContext].
    destruct (GenAI.close sess); cbn [app]; rewrite <- ?app_assoc; reflexivity. }
  rewrite !Hrun. cbn [result final trace fst snd].
  split; [reflexivity|]. split; [reflexivity|]. split; [reflexivity|].
  split; [|split; [reflexivity|reflexivity]].
  unfold acquisition, close_warning.
  destruct (GenAI.close sess); cbn [app stopped_tracks flat_map];
    fold (stopped_tracks (map TrackStop (getTracks st) ++ [ContextClose c; OnStatusChange false]));
    rewrite stopped_tracks_app, stopped_tracks_map; cbn; apply app_nil_r.
Qed.

Lemma connect_then_disconnect_witness :
  final ((connect granted ;; disconnect) blank_service) = new_Service
  /\ stopped_tracks (trace ((connect granted ;; disconnect) blank_service)) = [0%nat].
Proof.
  destruct (connect_then_disconnect granted blank_service (mkContext 16000)
              (mkStream [0%nat]) (GenAI.mkSession (Returns tt)))
    as (_ & Hfinal & _ & Htracks & _).
  - repeat split.
  - split; [exact Hfinal|exact Htracks].
Defined.

(** ** [connect()] cut at its [await]s *)

Lemma connect_catch_run (e : Error) (s : Service) :
  connect_catch e s
  = (Normal tt, new_Service,
     [Console error (lit "Connection failed:");
      OnError (or_else (message e) (lit "Failed to connect to Gemini Live Service"))]
     ++ release_events s ++ [OnStatusChange false]).
Proof.
  unfold connect_catch, bind. cbn [emit]. rewrite ServiceProofs.disconnect_run.
  reflexivity.
Qed.

#[local] Arguments connect_catch : simpl never.

Lemma connect_resumes_at_getUserMedia (env : ConnectEnv) (s : Service) :
  connect env s =
  match connect (awaiting_getUserMedia env) s with
  | (Pending, s1, t1) =>
      match connect_from_getUserMedia env (env_getUserMedia env) s1 with
      | (r, s2, t2) => (r, s2, t1 ++ t2)
      end
  | other => other
  end.
Proof.
  destruct env as [e1 e2 e3 e4 e5 e6 e7], s as [sess0 ctx0 st0 p0 src0 buf].
  unfold connect, connect_from_getUserMedia, awaiting_getUserMedia, connect_try,
    setupAudioProcessing, try_catch, bind, call, lift.
  cbn [env_AudioContext env_getUserMedia env_live_connect env_createMediaStreamSource
       env_createScriptProcessor env_source_connect env_processor_connect].
  destruct e1 as [c|e1]; cbn; rewrite ?connect_catch_run; [|reflexivity].
  destruct e2 as [st|e2|]; cbn; rewrite ?connect_catch_run; [|reflexivity|reflexivity].
  destruct e3 as [sess|e3|]; cbn; rewrite ?connect_catch_run; [|reflexivity|reflexivity].
  destruct e4 as [[]|e4], e5 as [[]|e5], e6 as [[]|e6], e7 as [[]|e7];
    cbn; rewrite ?connect_catch_run; reflexivity.
Qed.

Lemma connect_resumes_at_live_connect (env : ConnectEnv) (s : Service) :
  connect env s =
  match connect (awaiting_live_connect env) s with
  | (Pending, s1, t1) =>
      match env_getUserMedia env with
      | Pending => (Pending, s1, t1)
      | _ =>
          match connect_from_live_connect env (env_live_connect env) s1 with
          | (r, s2, t2) => (r, s2, t1 ++ t2)
          end
      end
  | other => other
  end.
Proof.
  destruct env as [e1 e2 e3 e4 e5 e6 e7], s as [sess0 ctx0 st0 p0 src0 buf].
  unfold connect, connect_from_live_connect, awaiting_live_connect, connect_try,
    setupAudioProcessing, try_catch, bind, call, lift.
  cbn [env_AudioContext env_getUserMedia env_live_connect env_createMediaStreamSource
       env_createScriptProcessor env_source_connect env_processor_connect].
  destruct e1 as [c|e1]; cbn; rewrite ?connect_catch_run; [|reflexivity].
  destruct e2 as [st|e2|]; cbn; rewrite ?connect_catch_run; [|reflexivity|reflexivity].
  destruct e3 as [sess|e3|]; cbn; rewrite ?connect_catch_run; [|reflexivity|reflexivity].
  destruct e4 as [[]|e4], e5 as [[]|e5], e6 as [[]|e6], e7 as [[]|e7];
    cbn; rewrite ?connect_catch_run; reflexivity.
Qed.

(** Property X5.  [connect()] is its run up to an [await] (of the
    microphone, of the session) followed by the rest of the function on the
    answer.  When
    [disconnect()] runs while [connect()] waits for the microphone, the
    rest of [connect()] still runs once the microphone is granted, on the
    fields [disconnect()] has reset: it keeps the stream and opens the
    session, the guard of [setupAudioProcessing] returns because the audio
    context is gone, so no source, no processor and no tap are made, and
    "connected" is reported all the same; chunks of audio are then sent
    nowhere.  The same happens when [disconnect()] runs while [connect()]
    waits for the session: the session is kept and reported, with no
    stream and no tap. *)
Theorem disconnect_while_connecting :
  (forall env s,
     connect env s =
     match connect (awaiting_getUserMedia env) s with
     | (Pending, s1, t1) =>
         match connect_from_getUserMedia env (env_getUserMedia env) s1 with
         | (r, s2, t2) => (r, s2, t1 ++ t2)
         end
     | other => other
     end)
  /\ (forall env s,
        connect env s =
        match connect (awaiting_live_connect env) s with
        | (Pending, s1, t1) =>
            match env_getUserMedia env with
            | Pending => (Pending, s1, t1)
            | _ =>
                match connect_from_live_connect env (env_live_connect env) s1 with
                | (r, s2, t2) => (r, s2, t1 ++ t2)
                end
            end
        | other => other
        end)
  /\ (forall env s c st sess,
        env_AudioContext env = Returns c ->
        env_live_connect env = Normal sess ->
        let waiting := connect (awaiting_getUserMedia env) s in
        let torn := final (disconnect (final waiting)) in
        let r := connect_from_getUserMedia env (Normal st) torn in
        waiting = (Pending, set_inputAudioContext (Some c) s,
                   [NewAudioContext 16000; GetUserMedia true])
        /\ In (ContextClose c) (trace (disconnect (final waiting)))
        /\ r = (Normal tt, mkService (Some sess) None (Some st) None None [],
                [LiveConnect config; OnStatusChange true])
        /\ (forall inputData,
              audioprocess inputData (final r) = (Normal tt, final r, [])))
  /\ (forall env s c st sess,
        env_AudioContext env = Returns c ->
        env_getUserMedia env = Normal st ->
        let waiting := connect (awaiting_live_connect env) s in
        let torn := final (disconnect (final waiting)) in
        let r := connect_from_live_connect env (Normal sess) torn in
        waiting = (Pending, set_stream (Some st) (set_inputAudioContext (Some c) s),
                   [NewAudioContext 16000; GetUserMedia true; LiveConnect config])
        /\ stopped_tracks (trace (disconnect (final waiting))) = getTracks st
        /\ r = (Normal tt, mkService (Some sess) None None None None [],
                [OnStatusChange true])
        /\ (forall inputData,
              audioprocess inputData (final r) = (Normal tt, final r, []))).
Proof.
  split; [exact connect_resumes_at_getUserMedia|].
  split; [exact connect_resumes_at_live_connect|]. split.
  - intros env s c st sess Hc Hl. cbv zeta.
    assert (Hwait : connect (awaiting_getUserMedia env) s
                    = (Pending, set_inputAudioContext (Some c) s,
                       [NewAudioContext 16000; GetUserMedia true])).
    { unfold connect, connect_try, awaiting_getUserMedia, try_catch, bind, call.
      cbn [env_AudioContext env_getUserMedia]. rewrite Hc. reflexivity. }
    rewrite Hwait. cbn [final fst snd]. rewrite ServiceProofs.disconnect_run.
    cbn [final trace fst snd].
    split; [reflexivity|]. split.
    { destruct s as [sess0 ctx0 st0 p0 src0 buf]. unfold release_events.
      cbn [set_inputAudioContext session processor source stream inputAudioContext].
      rewrite !in_app_iff. left. right. right. right. right. left. reflexivity. }
    assert (Hr : connect_from_getUserMedia env (Normal st) new_Service
                 = (Normal tt, mkService (Some sess) None (Some st) None None [],
                    [LiveConnect config; OnStatusChange true])).
    { unfold connect_from_getUserMedia, setupAudioProcessing, try_catch, bind, call, lift.
      rewrite Hl. reflexivity. }
    rewrite Hr. split; [reflexivity|]. intros inputData. reflexivity.
  - intros env s c st sess Hc Hs. cbv zeta.
    assert (Hwait : connect (awaiting_live_connect env) s
                    = (Pending, set_stream (Some st) (set_inputAudioContext (Some c) s),
                       [NewAudioContext 16000; GetUserMedia true; LiveConnect config])).
    { unfold connect, connect_try, awaiting_live_connect, try_catch, bind, call.
      cbn [env_AudioContext env_getUserMedia env_live_connect]. rewrite Hc, Hs.
      reflexivity. }
    rewrite Hwait. cbn [final fst snd]. rewrite ServiceProofs.disconnect_run.
    cbn [final trace fst snd].
    split; [reflexivity|]. split.
    { rewrite stopped_tracks_app, release_events_tracks.
      destruct s; cbn. apply app_nil_r. }
    split; [reflexivity|]. intros inputData. reflexivity.
Qed.

Lemma disconnect_while_connecting_witness :
  connect_from_getUserMedia granted (Normal (mkStream [0%nat]))
    (final (disconnect (final (connect (awaiting_getUserMedia granted) new_Service))))
  = (Normal tt,
     mkService (Some (GenAI.mkSession (Returns tt))) None (Some (mkStream [0%nat]))
               None None [],
     [LiveConnect config; OnStatusChange true]).
Proof.
  destruct disconnect_while_connecting as (_ & _ & Hmic & _).
  destruct (Hmic granted new_Service (mkContext 16000) (mkStream [0%nat])
              (GenAI.mkSession (Returns tt)) eq_refl eq_refl)
    as (_ & _ & Hr & _).
  exact Hr.
Defined.

(** ** Turns *)

Lemma deliver_cons (m : N * GenAI.LiveServerMessage) (rest : list (N * GenAI.LiveServerMessage)) :
  deliver (m :: rest) = (handleOnMessage m.1 m.2 ;; deliver rest).
Proof. reflexivity. Qed.

Lemma deliver_app (a b : list (N * GenAI.LiveServerMessage)) (s : Service) :
  deliver (a ++ b) s = (deliver a ;; deliver b) s.
Proof.
  revert s. induction a as [|m a IH]; intros s.
  - cbn [app]. change (deliver []) with (@ret Service Event _ tt).
    rewrite ret_bind. reflexivity.
  - cbn [app]. rewrite !deliver_cons, bind_assoc.
    apply bind_ext. intros _ s1. apply IH.
Qed.

Lemma updates_of_items (items : list TranscriptItem) :
  updates (map OnTranscriptionUpdate items) = items.
Proof.
  induction items as [|item rest IH]; [reflexivity|].
  cbn [map]. change (updates (OnTranscriptionUpdate item :: map OnTranscriptionUpdate rest))
    with (item :: updates (map OnTranscriptionUpdate rest)).
  rewrite IH. reflexivity.
Qed.

Lemma fragment_nonempty (message : GenAI.LiveServerMessage) (t : jsstring) :
  fragment message = Some t -> t <> [].
Proof.
  unfold fragment.
  destruct (GenAI.serverContent message) as [content|]; [|discriminate].
  destruct (GenAI.inputTranscription content) as [transcription|]; [|discriminate].
  destruct (GenAI.text transcription) as [t'|]; [|discriminate].
  destruct (truthy t') eqn:Ht; [|discriminate].
  intros [= <-]. apply truthy_nonempty, Ht.
Qed.

Lemma fragments_nonempty (messages : list (N * GenAI.LiveServerMessage)) :
  Forall (fun t => t <> []) (fragments messages).
Proof.
  induction messages as [|m rest IH]; [constructor|].
  unfold fragments. cbn [flat_map]. fold (fragments rest).
  destruct (fragment m.2) as [t|] eqn:Hf; [|exact IH].
  constructor; [apply (fragment_nonempty _ _ Hf)|exact IH].
Qed.

Lemma fragments_app (a b : list (N * GenAI.LiveServerMessage)) :
  fragments (a ++ b) = fragments a ++ fragments b.
Proof. apply flat_map_app. Qed.

Lemma growing_length (texts : list jsstring) (buffer : jsstring) :
  length (growing buffer texts) = length texts.
Proof.
  revert buffer. induction texts as [|t rest IH]; intros buffer; [reflexivity|].
  cbn [growing length]. rewrite IH. reflexivity.
Qed.

(** Each text of [growing] extends the one before it. *)
Lemma growing_extends (texts : list jsstring) :
  Forall (fun t => t <> []) texts ->
  forall buffer i a b,
    growing buffer texts !! i = Some a ->
    growing buffer texts !! S i = Some b ->
    exists t, t <> [] /\ b = a ++ t.
Proof.
  induction 1 as [|t rest Ht Hrest IH]; intros buffer i a b Ha Hb; [discriminate|].
  destruct i as [|i].
  - cbn in Ha. injection Ha as <-.
    destruct Hrest as [|t' rest' Ht' _]; [discriminate|].
    cbn in Hb. injection Hb as <-. exists t'. split; [exact Ht'|reflexivity].
  - cbn [growing] in Ha, Hb. apply (IH (buffer ++ t) i a b Ha Hb).
Qed.

Lemma deliver_within_turn (messages : list (N * GenAI.LiveServerMessage)) :
  within_turn messages ->
  forall s, exists items,
    deliver messages s
    = (Normal tt,
       set_currentInputTranscription
         (currentInputTranscription s ++ concat (fragments messages)) s,
       map OnTranscriptionUpdate items)
    /\ map text items = growing (currentInputTranscription s) (fragments messages)
    /\ Forall (fun item => isPartial item = true /\ id item = lit "current-turn") items.
Proof.
  induction 1 as [|m rest Hm _ IH]; intros s.
  - exists []. split; [|split; [reflexivity|constructor]].
    destruct s. cbn. rewrite app_nil_r. reflexivity.
  - rewrite deliver_cons. unfold bind.
    pose proof (ServiceProofs.handleOnMessage_cases m.1 m.2 s) as Hrun.
    cbv zeta in Hrun. rewrite Hrun, Hm. clear Hrun. cbn [andb].
    unfold fragments. cbn [flat_map]. fold (fragments rest).
    destruct (fragment m.2) as [t|];
      [change (default [] (Some t)) with t|change (default [] (@None jsstring)) with (@nil code_unit)].
    + destruct (IH (set_currentInputTranscription (currentInputTranscription s ++ t) s))
        as (items & Hrest & Htexts & Hitems).
      rewrite Hrest.
      exists (partial_item m.1 (currentInputTranscription s ++ t) :: items).
      split; [|split].
      * destruct s. cbn. rewrite <- app_assoc. reflexivity.
      * cbn [map app growing]. rewrite Htexts. destruct s; reflexivity.
      * constructor; [split; reflexivity|exact Hitems].
    + destruct (IH s) as (items & Hrest & Htexts & Hitems).
      rewrite Hrest. exists items. split; [|split; assumption].
      reflexivity.
Qed.

(** Property X6.  While no message completes the turn, the service calls
    the transcription observer once for every message that carries a text
    and not otherwise; every such call is partial, has the id
    [current-turn] and carries the whole buffer, so each text shown extends
    the one shown before it by the new fragment; the buffer ends as the
    buffer at the start followed by all the fragments in the order of
    arrival, and no other field of the service changes. *)
Theorem partial_updates_grow (messages : list (N * GenAI.LiveServerMessage)) (s : Service) :
  within_turn messages ->
  let r := deliver messages s in
  let buffer := currentInputTranscription s in
  result r = Normal tt
  /\ final r = set_currentInputTranscription (buffer ++ concat (fragments messages)) s
  /\ trace r = map OnTranscriptionUpdate (updates (trace r))
  /\ length (updates (trace r)) = length (fragments messages)
  /\ map text (updates (trace r)) = growing buffer (fragments messages)
  /\ Forall (fun item => isPartial item = true /\ id item = lit "current-turn")
            (updates (trace r))
  /\ (forall i a b,
        map text (updates (trace r)) !! i = Some a ->
        map text (updates (trace r)) !! S i = Some b ->
        exists t, t <> [] /\ b = a ++ t).
Proof.
  intros Hturn. cbv zeta.
  destruct (deliver_within_turn messages Hturn s) as (items & Hrun & Htexts & Hitems).
  rewrite Hrun. cbn [result final trace fst snd]. rewrite updates_of_items.
  split; [reflexivity|]. split; [reflexivity|]. split; [reflexivity|].
  split.
  { rewrite <- (length_map text items), Htexts. apply growing_length. }
  split; [exact Htexts|]. split; [exact Hitems|].
  rewrite Htexts. apply growing_extends, fragments_nonempty.
Qed.

Lemma partial_updates_grow_witness :
  map text (updates (trace (deliver [(1, saying (lit "hel")); (2, saying (lit "lo"))]
                                    new_Service)))
  = [lit "hel"; lit "hello"].
Proof.
  destruct (partial_updates_grow [(1, saying (lit "hel")); (2, saying (lit "lo"))]
              new_Service)
    as (_ & _ & _ & _ & Htexts & _).
  - repeat constructor.
  - exact Htexts.
Defined.

Lemma fragments_one (now : N) (message : GenAI.LiveServerMessage) :
  fragments [(now, message)] = match fragment message with Some t => [t] | None => [] end.
Proof. unfold fragments. cbn [flat_map snd]. apply app_nil_r. Qed.

Lemma deliver_turn (messages : list (N * GenAI.LiveServerMessage)) (now : N)
    (closing : GenAI.LiveServerMessage) (s : Service) :
  within_turn messages ->
  turn_complete closing = true ->
  let whole :=
    currentInputTranscription s ++ concat (fragments (messages ++ [(now, closing)])) in
  exists items partials,
    Forall (fun item => isPartial item = true) (items ++ partials)
    /\ deliver (messages ++ [(now, closing)]) s
       = if truthy (trim whole) then
           (Normal tt, set_currentInputTranscription [] s,
            map OnTranscriptionUpdate (items ++ partials ++ [final_item now whole]))
         else
           (Normal tt, set_currentInputTranscription whole s,
            map OnTranscriptionUpdate (items ++ partials)).
Proof.
  intros Hturn Hclosing. cbv zeta.
  destruct (deliver_within_turn messages Hturn s) as (items & Hrun & _ & Hitems).
  rewrite deliver_app. unfold bind at 1. rewrite Hrun. clear Hrun.
  rewrite deliver_cons. unfold bind at 1.
  pose proof (ServiceProofs.handleOnMessage_cases now closing
                (set_currentInputTranscription
                   (currentInputTranscription s ++ concat (fragments messages)) s))
    as Hrun.
  cbv zeta in Hrun. cbn [fst snd]. rewrite Hrun, Hclosing. clear Hrun. cbn [andb].
  rewrite fragments_app, concat_app, fragments_one.
  assert (Hparts : Forall (fun item => isPartial item = true) items).
  { induction Hitems as [|item rest [Hp _] _ IH]; constructor; assumption. }
  destruct (fragment closing) as [t|];
    [change (default [] (Some t)) with t|change (default [] (@None jsstring)) with (@nil code_unit)];
    destruct s as [sess ctx st p src buf];
    cbn [currentInputTranscription set_currentInputTranscription session inputAudioContext
         stream processor source app concat];
    rewrite ?app_nil_r, <- ?app_assoc.
  - exists items, [partial_item now (buf ++ concat (fragments messages) ++ t)].
    split; [apply Forall_app; split; [exact Hparts|repeat constructor]|].
    destruct (truthy (trim _)); cbn; rewrite ?map_app; reflexivity.
  - exists items, [].
    split; [rewrite app_nil_r; exact Hparts|].
    destruct (truthy (trim _)); cbn; rewrite ?map_app, ?app_nil_r; reflexivity.
Qed.

Lemma filter_partial_none (items : list TranscriptItem) :
  Forall (fun item => isPartial item = true) items ->
  List.filter (fun i => negb (isPartial i)) items = [].
Proof.
  induction 1 as [|item rest Hp _ IH]; [reflexivity|].
  cbn [List.filter]. rewrite Hp. exact IH.
Qed.

(** Property X7.  The text of a finalized item is the buffer at the start
    of the turn followed by every fragment of the turn, the one of the
    completing message included, in the order of arrival.  When that text
    is not blank the finalized call is the last call of the turn, its id is
    the clock reading of the completing message, and the buffer is empty
    afterwards; when it is blank nothing is finalized and the buffer keeps
    it. *)
Theorem turn_text_is_concatenation
    (messages : list (N * GenAI.LiveServerMessage)) (now : N)
    (closing : GenAI.LiveServerMessage) (s : Service) :
  within_turn messages ->
  turn_complete closing = true ->
  let r := deliver (messages ++ [(now, closing)]) s in
  let whole :=
    currentInputTranscription s ++ concat (fragments (messages ++ [(now, closing)])) in
  result r = Normal tt
  /\ (trim whole <> [] ->
      final_updates (trace r) = [final_item now whole]
      /\ last (updates (trace r)) = Some (final_item now whole)
      /\ currentInputTranscription (final r) = [])
  /\ (trim whole = [] ->
      final_updates (trace r) = []
      /\ currentInputTranscription (final r) = whole).
Proof.
  intros Hturn Hclosing. cbv zeta.
  destruct (deliver_turn messages now closing s Hturn Hclosing)
    as (items & partials & Hparts & Hrun).
  cbv zeta in Hrun. rewrite Hrun. clear Hrun.
  set (whole := currentInputTranscription s ++ concat _).
  destruct (truthy (trim whole)) eqn:Htrim.
  - apply truthy_nonempty in Htrim. cbn [result final trace fst snd].
    split; [reflexivity|]. split; [|intros Hblank; contradiction].
    intros _. rewrite updates_of_items. unfold final_updates. rewrite updates_of_items.
    split; [|split].
    + rewrite app_assoc, List.filter_app, (filter_partial_none _ Hparts). reflexivity.
    + rewrite app_assoc. apply last_snoc.
    + destruct s; reflexivity.
  - apply truthy_empty in Htrim. cbn [result final trace fst snd].
    split; [reflexivity|]. split; [intros Hnb; contradiction|].
    intros _. unfold final_updates. rewrite updates_of_items.
    split; [apply filter_partial_none, Hparts|]. destruct s; reflexivity.
Qed.

Lemma turn_text_is_concatenation_witness :
  final_updates
    (trace (deliver ([(1, saying (lit "hel")); (2, saying (lit "lo"))]
                     ++ [(3, turn_complete_message)]) new_Service))
  = [final_item 3 (lit "hello")].
Proof.
  destruct (turn_text_is_concatenation
              [(1, saying (lit "hel")); (2, saying (lit "lo"))] 3
              turn_complete_message new_Service)
    as (_ & Hfinal & _).
  - repeat constructor.
  - reflexivity.
  - apply Hfinal. vm_compute. discriminate.
Defined.

(** ** The ids of the items *)

Lemma lit_inj (a b : string) : lit a = lit b -> a = b.
Proof.
  assert (Hback : forall l : list ascii, map ascii_of_N (map N_of_ascii l) = l).
  { induction l as [|c l IH]; [reflexivity|].
    cbn [map]. rewrite ascii_N_embedding, IH. reflexivity. }
  unfold lit. intros H. apply (f_equal (map ascii_of_N)) in H.
  rewrite !Hback in H.
  apply (f_equal string_of_list_ascii) in H.
  rewrite !string_of_list_ascii_of_string in H. exact H.
Qed.

Lemma to_uint_nonnil (n : N) : N.to_uint n <> Decimal.Nil.
Proof.
  destruct n as [|p]; [discriminate|]. apply DecimalPos.Unsigned.to_uint_nonnil.
Qed.

Lemma Number_toString_inj (n n' : N) :
  Number_toString n = Number_toString n' -> n = n'.
Proof.
  unfold Number_toString. intros H. apply lit_inj in H.
  apply (f_equal NilZero.uint_of_string) in H.
  rewrite !NilZero.usu in H by apply to_uint_nonnil.
  injection H as H. apply DecimalN.Unsigned.to_uint_inj, H.
Qed.

Lemma Number_toString_not_current_turn (n : N) :
  Number_toString n <> lit "current-turn".
Proof.
  unfold Number_toString. intros H. apply lit_inj in H.
  apply (f_equal NilZero.uint_of_string) in H.
  rewrite NilZero.usu in H by apply to_uint_nonnil. discriminate H.
Qed.

Lemma lit_String (c : ascii) (rest : string) :
  lit (String c rest) = N_of_ascii c :: lit rest.
Proof. reflexivity. Qed.

Lemma digits_of_uint (d : Decimal.uint) :
  forallb Clocked.is_digit (lit (NilEmpty.string_of_uint d)) = true.
Proof.
  induction d as [|d IH|d IH|d IH|d IH|d IH|d IH|d IH|d IH|d IH|d IH];
    cbn [NilEmpty.string_of_uint]; [reflexivity|..];
    rewrite lit_String; cbn [forallb]; rewrite IH; reflexivity.
Qed.

Lemma Number_toString_digits (n : N) :
  forallb Clocked.is_digit (Number_toString n) = true.
Proof.
  unfold Number_toString, NilZero.string_of_uint.
  destruct (N.to_uint n) eqn:Hn; [reflexivity|..]; apply digits_of_uint.
Qed.

(** Property X8.  [emitTranscription] calls the observer once.  The id of a
    partial item is [current-turn] whatever the clock says.  The id of a
    finalized item is the reading of [Date.now()] in decimal digits and
    nothing else, so it is never [current-turn], and it does not depend on
    the second reading of the clock, which only gives the timestamp: two
    finalized items have the same id exactly when [Date.now()] returned
    the same number for both (the same millisecond), whatever their
    timestamps and texts.  With both readings equal this is
    [GeminiLive.emitTranscription]. *)
Theorem finalized_ids_follow_the_clock :
  (forall now date partial s,
     exists item,
       Clocked.emitTranscription now date partial s
       = (Normal tt, s, [OnTranscriptionUpdate item])
       /\ (partial = true -> id item = lit "current-turn")
       /\ (partial = false ->
           id item = Number_toString now
           /\ forallb Clocked.is_digit (id item) = true
           /\ id item <> []
           /\ id item <> lit "current-turn"))
  /\ (forall now date s now' date' s' item item',
        trace (Clocked.emitTranscription now date false s)
        = [OnTranscriptionUpdate item] ->
        trace (Clocked.emitTranscription now' date' false s')
        = [OnTranscriptionUpdate item'] ->
        (id item = id item' <-> now = now'))
  /\ (forall now partial s,
        emitTranscription now partial s = Clocked.emitTranscription now now partial s)
  /\ Number_toString 1730000000000 = lit "1730000000000".
Proof.
  split; [|split; [|split]].
  - intros now date partial s. eexists. split; [reflexivity|].
    cbn [id]. split; [intros ->; reflexivity|]. intros ->.
    split; [reflexivity|]. split; [apply Number_toString_digits|]. split.
    + intros Hempty. apply (f_equal (@length code_unit)) in Hempty.
      unfold Number_toString in Hempty.
      destruct (NilZero.string_of_uint (N.to_uint now)) eqn:Hs; [|discriminate Hempty].
      apply (f_equal NilZero.uint_of_string) in Hs.
      rewrite NilZero.usu in Hs by apply to_uint_nonnil. discriminate Hs.
    + apply Number_toString_not_current_turn.
  - intros now date s now' date' s' item item' [= <-] [= <-]. cbn [id]. split.
    + apply Number_toString_inj.
    + intros ->. reflexivity.
  - intros now partial s. reflexivity.
  - reflexivity.
Qed.

Lemma finalized_ids_follow_the_clock_witness :
  (forall item item',
     trace (Clocked.emitTranscription 1730000000000 1730000000000 false
              (set_currentInputTranscription (lit "a") new_Service))
     = [OnTranscriptionUpdate item] ->
     trace (Clocked.emitTranscription 1730000000000 1730000000001 false
              (set_currentInputTranscription (lit "b") new_Service))
     = [OnTranscriptionUpdate item'] ->
     id item = id item')
  /\ id (final_item 7 (lit "a")) <> lit "current-turn".
Proof.
  destruct finalized_ids_follow_the_clock as (Hone & Hsame & _).
  split.
  - intros item item' Hitem Hitem'.
    apply (Hsame 1730000000000 1730000000000
                 (set_currentInputTranscription (lit "a") new_Service)
                 1730000000000 1730000000001
                 (set_currentInputTranscription (lit "b") new_Service)
                 item item' Hitem Hitem').
    reflexivity.
  - destruct (Hone 7 7 false (set_currentInputTranscription (lit "a") new_Service))
      as (item & Hrun & _ & Hid).
    injection Hrun as <-. apply Hid. reflexivity.
Defined.

End ServiceLaws.

(** ** The component: uploads *)

Module UploadLaws.

Import App AppObservations Polling.

#[local] Arguments lit : simpl never.
#[local] Arguments Number_toString : simpl never.

Lemma processing_not_failed : lit "PROCESSING" <> lit "FAILED".
Proof. intros H. apply ServiceLaws.lit_inj in H. discriminate H. Qed.

Lemma poll_settled (fileName state : jsstring) (answers : list (completion FileResponse))
    (s : State) :
  state <> lit "PROCESSING" -> poll fileName state answers s = (Normal tt, s, []).
Proof.
  intros Hstate. destruct answers; cbn [poll];
    rewrite (bool_decide_eq_false_2 _ Hstate); reflexivity.
Qed.

Lemma poll_round (fileName : jsstring) (response : FileResponse)
    (rest : list (completion FileResponse)) (s : State) :
  poll fileName (lit "PROCESSING") (Normal response :: rest) s
  = if bool_decide (state (current response) = lit "FAILED")
    then (Throw (mkError (lit "File processing failed on server.")), s,
          [SetTimeout 1000; FilesGet fileName])
    else
      match poll fileName (state (current response)) rest s with
      | (r, s', t) => (r, s', SetTimeout 1000 :: FilesGet fileName :: t)
      end.
Proof.
  cbn [poll]. rewrite (bool_decide_eq_true_2 _ eq_refl).
  unfold bind at 1. cbn [emit]. unfold bind at 1. cbn [call].
  fold (current response).
  destruct (bool_decide (state (current response) = lit "FAILED")); [reflexivity|].
  destruct (poll fileName _ rest s) as [[r s'] t]. reflexivity.
Qed.

Lemma poll_stops (fileName : jsstring) (settled : completion FileResponse)
    (rest : list (completion FileResponse)) (s : State) :
  match settled with Normal _ => False | _ => True end ->
  poll fileName (lit "PROCESSING") (settled :: rest) s
  = (match settled with Throw e => Throw e | _ => Pending end, s,
     [SetTimeout 1000; FilesGet fileName]).
Proof.
  intros Hs. cbn [poll]. rewrite (bool_decide_eq_true_2 _ eq_refl).
  unfold bind at 1. cbn [emit]. unfold bind at 1. cbn [call].
  destruct settled as [response|e|]; [contradiction|reflexivity|reflexivity].
Qed.

Lemma rounds_S (n : nat) (fileName : jsstring) :
  rounds (S n) fileName = SetTimeout 1000 :: FilesGet fileName :: rounds n fileName.
Proof. reflexivity. Qed.

(** Property X9.  The polling loop of the large-file branch: while the file
    is reported [PROCESSING], each round waits one second and then asks
    for the file by its name, and nothing else happens; the loop ends with
    the first answer that reports another state, by throwing "File
    processing failed on server." when that state is [FAILED] and normally
    otherwise; a rejected request ends it with that error; and when the
    service stops answering the upload stays suspended.  The loop is not
    entered when the state at the start is not [PROCESSING].  The cells of
    the component are not touched. *)
Theorem poll_rounds (fileName : jsstring) (waits : list FileResponse) (s : State) :
  Forall (fun response => state (current response) = lit "PROCESSING") waits ->
  (forall last rest,
     state (current last) <> lit "PROCESSING" ->
     poll fileName (lit "PROCESSING") (map Normal waits ++ Normal last :: rest) s
     = (if bool_decide (state (current last) = lit "FAILED")
        then Throw (mkError (lit "File processing failed on server."))
        else Normal tt,
        s, rounds (S (length waits)) fileName))
  /\ (forall e rest,
        poll fileName (lit "PROCESSING") (map Normal waits ++ Throw e :: rest) s
        = (Throw e, s, rounds (S (length waits)) fileName))
  /\ (forall rest,
        poll fileName (lit "PROCESSING") (map Normal waits ++ Pending :: rest) s
        = (Pending, s, rounds (S (length waits)) fileName))
  /\ poll fileName (lit "PROCESSING") (map Normal waits) s
     = (Pending, s, rounds (S (length waits)) fileName)
  /\ (forall state answers,
        state <> lit "PROCESSING" ->
        poll fileName state answers s = (Normal tt, s, [])).
Proof.
  intros Hwaits.
  split; [|split; [|split; [|split]]].
  - intros last rest Hlast.
    induction Hwaits as [|response waits Hresponse _ IH]; cbn [map app length].
    + rewrite poll_round.
      destruct (bool_decide (state (current last) = lit "FAILED")); [reflexivity|].
      rewrite (poll_settled _ _ _ _ Hlast). reflexivity.
    + rewrite poll_round, Hresponse.
      rewrite (bool_decide_eq_false_2 _ processing_not_failed), IH.
      rewrite (rounds_S (S (length waits))). reflexivity.
  - intros e rest.
    induction Hwaits as [|response waits Hresponse _ IH]; cbn [map app length].
    + rewrite poll_stops by exact I. reflexivity.
    + rewrite poll_round, Hresponse.
      rewrite (bool_decide_eq_false_2 _ processing_not_failed), IH.
      rewrite (rounds_S (S (length waits))). reflexivity.
  - intros rest.
    induction Hwaits as [|response waits Hresponse _ IH]; cbn [map app length].
    + rewrite poll_stops by exact I. reflexivity.
    + rewrite poll_round, Hresponse.
      rewrite (bool_decide_eq_false_2 _ processing_not_failed), IH.
      rewrite (rounds_S (S (length waits))). reflexivity.
  - induction Hwaits as [|response waits Hresponse _ IH]; cbn [map app length].
    + cbn [poll]. rewrite (bool_decide_eq_true_2 _ eq_refl). reflexivity.
    + rewrite poll_round, Hresponse.
      rewrite (bool_decide_eq_false_2 _ processing_not_failed), IH.
      rewrite (rounds_S (S (length waits))). reflexivity.
  - intros state answers. apply poll_settled.
Qed.

Lemma poll_rounds_witness :
  poll (lit "files/abc") (lit "PROCESSING")
       (map Normal [reporting (lit "PROCESSING"); reporting (lit "PROCESSING")]
        ++ Normal (reporting (lit "ACTIVE")) :: []) mounted
  = (Normal tt, mounted, rounds 3 (lit "files/abc")).
Proof.
  destruct (poll_rounds (lit "files/abc")
              [reporting (lit "PROCESSING"); reporting (lit "PROCESSING")] mounted)
    as (Hlast & _).
  - repeat constructor.
  - apply (Hlast (reporting (lit "ACTIVE")) []).
    intros H. apply ServiceLaws.lit_inj in H. discriminate H.
Defined.

(** ** One equation for each branch and for the whole statement *)

Lemma setUploadStatus_twice (a b : jsstring) (s : State) :
  setUploadStatus b (setUploadStatus a s) = setUploadStatus b s.
Proof. destruct s; reflexivity. Qed.

Lemma uploadLargeFile_cases (f : File) (env : UploadEnv) (s : State) :
  uploadLargeFile f env s =
  match env_files_upload env with
  | Normal response =>
      let info := current response in
      if truthy (uri info) then
        match poll (file_name info) (state info) (env_files_get env)
                   (setUploadStatus (lit "Processing file on server...") s) with
        | (Normal _, s1, t) =>
            (Normal (fileData (uri info) (or_else (mimeType info) (type f))), s1,
             FilesUpload f (type f) (name f) :: t)
        | (Throw e, s1, t) =>
            (Throw (mkError (wrapped (inner_message e))), s1,
             FilesUpload f (type f) (name f) :: t ++ [ConsoleError (lit "Upload failed")])
        | (Pending, s1, t) => (Pending, s1, FilesUpload f (type f) (name f) :: t)
        end
      else
        (Throw (mkError (wrapped (lit "Upload failed: No file URI returned from server."))),
         setUploadStatus (lit "Uploading large file...") s,
         [FilesUpload f (type f) (name f);
          ConsoleError (lit "Unexpected upload response structure:");
          ConsoleError (lit "Upload failed")])
  | Throw e =>
      (Throw (mkError (wrapped (inner_message e))),
       setUploadStatus (lit "Uploading large file...") s,
       [FilesUpload f (type f) (name f); ConsoleError (lit "Upload failed")])
  | Pending =>
      (Pending, setUploadStatus (lit "Uploading large file...") s,
       [FilesUpload f (type f) (name f)])
  end.
Proof.
  unfold uploadLargeFile. unfold bind at 1. cbn [modify].
  unfold try_catch, bind at 1. cbn [call].
  destruct (env_files_upload env) as [response|e|]; [|reflexivity|reflexivity].
  fold (current response). cbv zeta.
  destruct (truthy (uri (current response))); cbn [negb]; [|reflexivity].
  unfold bind at 1. cbn [modify]. unfold bind at 1.
  rewrite setUploadStatus_twice.
  destruct (poll _ _ _ _) as [[[[]|e|] s1] t]; cbn; rewrite ?app_nil_r; reflexivity.
Qed.

Lemma inlineSmallFile_cases (f : File) (env : UploadEnv) (s : State) :
  inlineSmallFile f env s =
  (match env_fileToBase64 env with
   | Normal base64Data => Normal (inlineData (type f) base64Data)
   | Throw e => Throw e
   | Pending => Pending
   end,
   setUploadStatus (lit "Processing audio...") s, [ReadAsDataURL f]).
Proof.
  unfold inlineSmallFile. unfold bind at 1. cbn [modify]. unfold bind at 1. cbn [call].
  destruct (env_fileToBase64 env); reflexivity.
Qed.

Lemma attempt_cases (f : File) (env : UploadEnv) (s : State) :
  attempt f env s =
  match contentPart f env s with
  | (Normal part, s0, t0) =>
      match env_generateContent env with
      | Normal text =>
          (Normal tt,
           finished
             (if truthy text
              then setTranscripts (fun prev => prev ++ [batch_item env text])
                                  (setUploadStatus (lit "Transcribing...") s0)
              else setUploadStatus (lit "Transcribing...") s0),
           t0 ++ [request part])
      | Throw e =>
          (Normal tt,
           finished (setError (Some (reported e))
                              (setUploadStatus (lit "Transcribing...") s0)),
           t0 ++ [request part; ConsoleError (message e)])
      | Pending =>
          (Pending, setUploadStatus (lit "Transcribing...") s0, t0 ++ [request part])
      end
  | (Throw e, s0, t0) =>
      (Normal tt, finished (setError (Some (reported e)) s0),
       t0 ++ [ConsoleError (message e)])
  | (Pending, s0, t0) => (Pending, s0, t0)
  end.
Proof.
  unfold attempt, handleFileUpload_try, contentPart.
  change (20 * 1024 * 1024) with threshold.
  unfold try_finally, try_catch. unfold bind at 1.
  destruct (size f <? threshold);
    [destruct (inlineSmallFile f env s) as [[[part|e|] s0] t0]
    |destruct (uploadLargeFile f env s) as [[[part|e|] s0] t0]].
  all: unfold handleFileUpload_catch, handleFileUpload_finally, finished, reported,
         request, batch_item, bind, call, modify, emit, when.
  all: try destruct (env_generateContent env) as [text|e'|].
  all: try destruct (truthy text).
  all: cbn; rewrite ?app_nil_r, <- ?app_assoc; reflexivity.
Qed.

Lemma contentPart_cells (f : File) (env : UploadEnv) (s : State) :
  exists status, final (contentPart f env s) = setUploadStatus status s.
Proof.
  unfold contentPart. destruct (size f <? threshold).
  - rewrite inlineSmallFile_cases. eexists. reflexivity.
  - rewrite uploadLargeFile_cases.
    destruct (env_files_upload env) as [response|e|];
      [|eexists; reflexivity|eexists; reflexivity].
    cbv zeta. destruct (truthy (uri (current response))); [|eexists; reflexivity].
    destruct (AppProofs.poll_run (file_name (current response)) (env_files_get env)
                (state (current response))
                (setUploadStatus (lit "Processing file on server...") s))
      as (r & t & Hrun & _).
    rewrite Hrun. destruct r as [[]|e|]; eexists; reflexivity.
Qed.

Lemma or_else_nonempty (a b : jsstring) : b <> [] -> or_else a b <> [].
Proof.
  intros Hb. unfold or_else. destruct (truthy a) eqn:Ha; [|exact Hb].
  apply truthy_nonempty, Ha.
Qed.

Lemma reported_nonempty (e : Error) : reported e <> [].
Proof. apply or_else_nonempty. discriminate. Qed.

Lemma wrapped_nonempty (inner : jsstring) : wrapped inner <> [].
Proof. discriminate. Qed.

Lemma reported_wrapped (inner : jsstring) :
  reported (mkError (wrapped inner)) = wrapped inner.
Proof. reflexivity. Qed.

Lemma prepared_cells (s : State) :
  isUploading (prepared s) = true
  /\ error (prepared s) = None
  /\ transcripts (prepared s) = transcripts s
  /\ currentText (prepared s) = currentText s
  /\ fileInput (prepared s) = fileInput s.
Proof.
  unfold prepared. destruct s as [cs ts ct er au up us ls fi]. cbn.
  destruct (ConnectionState_eqb cs CONNECTED), ls; cbn; auto.
Qed.

(** Property X10.  [handleFileUpload] never throws to its caller.  When it
    ends, the busy indicator is off, the status line is empty and the file
    input is reset, whether the transcription worked or not; while it is
    suspended the busy indicator stays on and no error is shown.  An error
    shown after an upload has a message that is not empty, and then no item
    was added.  The text in progress is never touched, and an event
    without a file changes nothing. *)
Theorem upload_always_winds_up (f : File) (env : UploadEnv) (s : State) :
  let r := handleFileUpload (Some f) env s in
  (result r = Normal tt \/ result r = Pending)
  /\ (result r = Normal tt ->
      isUploading (final r) = false
      /\ uploadStatus (final r) = []
      /\ fileInput (final r) = [])
  /\ (result r = Pending ->
      isUploading (final r) = true
      /\ error (final r) = None
      /\ transcripts (final r) = transcripts s
      /\ fileInput (final r) = fileInput s)
  /\ (forall msg,
        error (final r) = Some msg ->
        msg <> [] /\ transcripts (final r) = transcripts s /\ result r = Normal tt)
  /\ currentText (final r) = currentText s
  /\ handleFileUpload None env s = (Normal tt, s, []).
Proof.
  cbv zeta. rewrite AppProofs.handleFileUpload_run, attempt_cases.
  destruct (prepared_cells s) as (Hup & Her & Hts & Hct & Hfi).
  destruct (contentPart_cells f env (prepared s)) as (status & Hs0).
  destruct (contentPart f env (prepared s)) as [[r0 s0] t0].
  cbn [final fst snd] in Hs0. subst s0.
  destruct (prepared s) as [cs1 ts1 ct1 er1 au1 up1 us1 ls1 fi1].
  cbn [isUploading error transcripts currentText fileInput] in *. subst.
  destruct r0 as [part|e|]; [destruct (env_generateContent env) as [text|e|];
                             [destruct (truthy text)| |]| |];
    cbn; repeat split; auto; try discriminate; try (intros; discriminate).
  all: match goal with H : Some _ = Some _ |- _ => injection H as <- end.
  all: apply reported_nonempty.
Qed.

Lemma upload_always_winds_up_witness :
  isUploading (final (handleFileUpload (Some small_file) answering recording)) = false
  /\ uploadStatus (final (handleFileUpload (Some small_file) answering recording)) = []
  /\ fileInput (final (handleFileUpload (Some small_file) answering recording)) = [].
Proof.
  destruct (upload_always_winds_up small_file answering recording) as (_ & Hdone & _).
  apply Hdone. reflexivity.
Defined.










(** Property X12.  The polling loop is entered only for the state
    [PROCESSING]: when the response of the upload carries a URI and any
    other state, [FAILED] included, the large-file branch makes no call
    after the upload, throws nothing and refers to the file by that URI,
    with the type the service reports or else the type of the file; for a
    file at or above the threshold the handler then goes straight to the
    transcription request. *)
Theorem upload_polls_only_while_processing
    (f : File) (env : UploadEnv) (s : State) (response : FileResponse) :
  env_files_upload env = Normal response ->
  uri (current response) <> [] ->
  state (current response) <> lit "PROCESSING" ->
  let part :=
    fileData (uri (current response))
             (or_else (mimeType (current response)) (type f)) in
  uploadLargeFile f env s
  = (Normal part, setUploadStatus (lit "Processing file on server...") s,
     [FilesUpload f (type f) (name f)])
  /\ (threshold <= size f ->
      trace (handleFileUpload (Some f) env s)
      = pre_events s
        ++ [FilesUpload f (type f) (name f); request part]
        ++ match env_generateContent env with
           | Throw e => [ConsoleError (message e)]
           | _ => []
           end).
Proof.
  intros Hup Huri Hstate. cbv zeta.
  assert (Hrun : forall s0,
    uploadLargeFile f env s0
    = (Normal (fileData (uri (current response))
                        (or_else (mimeType (current response)) (type f))),
       setUploadStatus (lit "Processing file on server...") s0,
       [FilesUpload f (type f) (name f)])).
  { intros s0. rewrite uploadLargeFile_cases, Hup. cbv zeta.
    apply truthy_nonempty in Huri. rewrite Huri.
    rewrite (poll_settled _ _ _ _ Hstate). reflexivity. }
  split; [apply Hrun|].
  intros Hsize. apply N.ltb_ge in Hsize.
  rewrite AppProofs.handleFileUpload_run, attempt_cases.
  unfold contentPart. rewrite Hsize, Hrun.
  destruct (env_generateContent env) as [text|e|]; reflexivity.
Qed.

Lemma upload_polls_only_while_processing_witness :
  uploadLargeFile boundary_file
    (mkUploadEnv Pending (Normal (reporting (lit "FAILED"))) [] Pending 0) mounted
  = (Normal (fileData (lit "files/abc") (lit "audio/wav")),
     setUploadStatus (lit "Processing file on server...") mounted,
     [FilesUpload boundary_file (type boundary_file) (name boundary_file)]).
Proof.
  apply (upload_polls_only_while_processing boundary_file
           (mkUploadEnv Pending (Normal (reporting (lit "FAILED"))) [] Pending 0)
           mounted (reporting (lit "FAILED")) eq_refl).
  - discriminate.
  - intros H. apply ServiceLaws.lit_inj in H. discriminate H.
Defined.

End UploadLaws.

(** ** The component: recording and the connection state *)

Module ComponentLaws.

Import App AppRest AppObservations Entries.

#[local] Arguments lit : simpl never.
#[local] Arguments Number_toString : simpl never.

(** ** The observers, one call at a time *)

Lemma observe_react (e : GeminiLive.Event) (s : State) :
  observe e s = (Normal tt, react s e, [Live e]).
Proof.
  unfold react. destruct (AppProofs.observe_run e s) as (s' & Hrun & _).
  rewrite Hrun. reflexivity.
Qed.

Lemma observe_all_fold (t : list GeminiLive.Event) (s : State) :
  observe_all t s = (Normal tt, fold_left react t s, map Live t).
Proof.
  revert s. induction t as [|e t IH]; intros s; [reflexivity|].
  rewrite AppProofs.observe_all_cons. unfold bind.
  rewrite observe_react, IH. reflexivity.
Qed.

Lemma on_liveService_run (method : GeminiLive.SM unit) (s : State)
    (svc : GeminiLive.Service) :
  liveService s = Some svc ->
  on_liveService method s
  = (result (method svc),
     fold_left react (trace (method svc))
               (set_liveService (Some (final (method svc))) s),
     map Live (trace (method svc))).
Proof.
  intros Hsvc. unfold on_liveService. rewrite get_bind, Hsvc.
  destruct (method svc) as [[r svc'] t]. cbn [result final trace fst snd].
  rewrite modify_bind. unfold bind. rewrite observe_all_fold.
  unfold lift. rewrite app_nil_r. reflexivity.
Qed.

Lemma on_liveService_unmounted (method : GeminiLive.SM unit) (s : State) :
  liveService s = None -> on_liveService method s = (Normal tt, s, []).
Proof.
  intros Hsvc. unfold on_liveService. rewrite get_bind, Hsvc. reflexivity.
Qed.

Lemma react_passive (e : GeminiLive.Event) (s : State) :
  passive e = true -> react s e = s.
Proof. destruct e; try discriminate; reflexivity. Qed.

Lemma fold_react_passive (t : list GeminiLive.Event) (s : State) :
  forallb passive t = true -> fold_left react t s = s.
Proof.
  revert s. induction t as [|e t IH]; intros s Hp; [reflexivity|].
  cbn [forallb] in Hp. apply andb_true_iff in Hp as [He Ht].
  cbn [fold_left]. rewrite (react_passive e s He). apply IH, Ht.
Qed.

Lemma react_quiet (e : GeminiLive.Event) (s : State) :
  quiet e = true ->
  connectionState (react s e) = connectionState s
  /\ audioStream (react s e) = audioStream s
  /\ error (react s e) = error s.
Proof.
  destruct s as [cs ts ct er au up us ls fi].
  destruct e; try discriminate; intros _; try (repeat split; reflexivity).
  unfold react, observe, bind, handleTranscriptionUpdate. cbn [emit].
  destruct (isPartial item); repeat split; reflexivity.
Qed.

Lemma fold_react_quiet (t : list GeminiLive.Event) (s : State) :
  forallb quiet t = true ->
  connectionState (fold_left react t s) = connectionState s
  /\ audioStream (fold_left react t s) = audioStream s
  /\ error (fold_left react t s) = error s.
Proof.
  revert s. induction t as [|e t IH]; intros s Hq; [auto|].
  cbn [forallb] in Hq. apply andb_true_iff in Hq as [He Ht].
  cbn [fold_left]. destruct (IH (react s e) Ht) as (H1 & H2 & H3).
  destruct (react_quiet e s He) as (K1 & K2 & K3).
  repeat split; congruence.
Qed.

Lemma react_status (status : bool) (s : State) :
  connectionState (react s (GeminiLive.OnStatusChange status))
  = (if status then CONNECTED else DISCONNECTED)
  /\ audioStream (react s (GeminiLive.OnStatusChange status))
     = (if status
        then match liveService s with
             | Some current => GeminiLive.getStream current
             | None => None
             end
        else None)
  /\ error (react s (GeminiLive.OnStatusChange status))
     = (if status
        then match liveService s with Some _ => None | None => error s end
        else error s).
Proof.
  destruct s as [cs ts ct er au up us ls fi].
  destruct status, ls; repeat split; reflexivity.
Qed.

Lemma steady_settles (t : list GeminiLive.Event) (s : State) :
  settles t -> steady s -> steady (fold_left react t s).
Proof.
  intros [Hq|(before & status & ->)] [Hcs Hau].
  - destruct (fold_react_quiet t s Hq) as (H1 & H2 & _).
    split; rewrite ?H1, ?H2; assumption.
  - rewrite fold_left_app. cbn [fold_left].
    destruct (react_status status (fold_left react before s)) as (H1 & H2 & _).
    split; rewrite H1; destruct status; try discriminate; try reflexivity.
    rewrite H2. intros H. contradiction.
Qed.

(** ** What each method of the service reports *)

Lemma passive_quiet (t : list GeminiLive.Event) :
  forallb passive t = true -> forallb quiet t = true.
Proof.
  induction t as [|e t IH]; [reflexivity|]. cbn [forallb].
  intros H. apply andb_true_iff in H as [He Ht]. rewrite (IH Ht), andb_true_r.
  destruct e; try discriminate; reflexivity.
Qed.

Lemma settles_disconnect (svc : GeminiLive.Service) :
  settles (trace (GeminiLive.disconnect svc)).
Proof. rewrite ServiceProofs.disconnect_run. right. eauto. Qed.

Lemma settles_handleOnClose (svc : GeminiLive.Service) :
  settles (trace (GeminiLive.handleOnClose svc)).
Proof.
  unfold GeminiLive.handleOnClose, bind. cbn [emit].
  rewrite ServiceProofs.disconnect_run. right. cbn [trace snd].
  eexists (_ :: _), false. reflexivity.
Qed.

Lemma settles_handleOnError (svc : GeminiLive.Service) :
  settles (trace (GeminiLive.handleOnError svc)).
Proof.
  unfold GeminiLive.handleOnError, bind. cbn [emit].
  rewrite ServiceProofs.disconnect_run. right. cbn [trace snd].
  eexists (_ :: _ :: _), false. reflexivity.
Qed.

Lemma settles_handleOnMessage (now : N) (message : GenAI.LiveServerMessage)
    (svc : GeminiLive.Service) :
  settles (trace (GeminiLive.handleOnMessage now message svc)).
Proof.
  pose proof (ServiceProofs.handleOnMessage_cases now message svc) as Hrun.
  cbv zeta in Hrun. rewrite Hrun. left.
  destruct (Observations.fragment message);
    destruct (Observations.turn_complete message && truthy (trim _)); reflexivity.
Qed.

Lemma audioprocess_run (inputData : list float) (svc : GeminiLive.Service) :
  GeminiLive.audioprocess inputData svc
  = (Normal tt, svc,
     match GeminiLive.processor svc with
     | Some p =>
         match GeminiLive.onaudioprocess p with
         | Some sess =>
             [GeminiLive.SendRealtimeInput sess (Reference.createBlob inputData)]
         | None => []
         end
     | None => []
     end).
Proof.
  unfold GeminiLive.audioprocess, GeminiLive.onaudioprocess_handler. rewrite get_bind.
  destruct (GeminiLive.processor svc) as [p|]; [|reflexivity].
  destruct (GeminiLive.onaudioprocess p) as [sess|]; [|reflexivity].
  unfold bind, lift. rewrite createBlob_total. reflexivity.
Qed.

Lemma settles_audioprocess (inputData : list float) (svc : GeminiLive.Service) :
  settles (trace (GeminiLive.audioprocess inputData svc)).
Proof.
  rewrite audioprocess_run. left. cbn [trace snd].
  destruct (GeminiLive.processor svc) as [p|]; [|reflexivity].
  destruct (GeminiLive.onaudioprocess p); reflexivity.
Qed.

Ltac split_last :=
  match goal with
  | |- exists before, ?t = _ /\ _ =>
      exists (removelast t); split; reflexivity
  end.

Lemma setup_reports_last (env : GeminiLive.ConnectEnv) (sess : GenAI.LiveSession)
    (svc : GeminiLive.Service) :
  reports_last
    ((GeminiLive.setupAudioProcessing env sess ;;
      emit (GeminiLive.OnStatusChange true)) svc).
Proof.
  destruct env as [e1 e2 e3 e4 e5 e6 e7], svc as [sess0 ctx0 st0 p0 src0 buf].
  unfold reports_last, GeminiLive.setupAudioProcessing, bind, call.
  cbn [GeminiLive.env_createMediaStreamSource GeminiLive.env_createScriptProcessor
       GeminiLive.env_source_connect GeminiLive.env_processor_connect].
  destruct ctx0 as [c|], st0 as [st|]; cbn; try split_last.
  destruct e4 as [[]|e4], e5 as [[]|e5], e6 as [[]|e6], e7 as [[]|e7]; cbn;
    first [split_last | reflexivity].
Qed.

Lemma connect_try_reports_last (env : GeminiLive.ConnectEnv) (svc : GeminiLive.Service) :
  reports_last (GeminiLive.connect_try env svc).
Proof.
  destruct env as [e1 e2 e3 e4 e5 e6 e7], svc as [sess0 ctx0 st0 p0 src0 buf].
  unfold reports_last, GeminiLive.connect_try, GeminiLive.setupAudioProcessing, bind, call.
  cbn [GeminiLive.env_AudioContext GeminiLive.env_getUserMedia
       GeminiLive.env_live_connect GeminiLive.env_createMediaStreamSource
       GeminiLive.env_createScriptProcessor GeminiLive.env_source_connect
       GeminiLive.env_processor_connect].
  destruct e1 as [c|e1]; cbn; [|reflexivity].
  destruct e2 as [st|e2|]; cbn; [|reflexivity|reflexivity].
  destruct e3 as [sess|e3|]; cbn; [|reflexivity|reflexivity].
  destruct e4 as [[]|e4], e5 as [[]|e5], e6 as [[]|e6], e7 as [[]|e7]; cbn;
    first [split_last | reflexivity].
Qed.

Lemma try_connect_settles (body : GeminiLive.SM unit) (svc : GeminiLive.Service) :
  reports_last (body svc) ->
  settles (trace (try_catch body GeminiLive.connect_catch svc)).
Proof.
  unfold reports_last, try_catch.
  destruct (body svc) as [[[[]|e|] s1] t1]; cbn [result trace fst snd].
  - intros (before & -> & _). right. eauto.
  - intros _. rewrite ServiceLaws.connect_catch_run. right.
    rewrite !app_assoc. eauto.
  - intros Hp. left. apply passive_quiet, Hp.
Qed.

Lemma settles_connect (env : GeminiLive.ConnectEnv) (svc : GeminiLive.Service) :
  settles (trace (GeminiLive.connect env svc)).
Proof. apply try_connect_settles, connect_try_reports_last. Qed.

Lemma settles_connect_from_getUserMedia (env : GeminiLive.ConnectEnv)
    (settled : completion GeminiLive.MediaStream) (svc : GeminiLive.Service) :
  settles (trace (Resumed.connect_from_getUserMedia env settled svc)).
Proof.
  apply try_connect_settles.
  destruct env as [e1 e2 e3 e4 e5 e6 e7], svc as [sess0 ctx0 st0 p0 src0 buf].
  unfold reports_last, GeminiLive.setupAudioProcessing, bind, call, lift.
  cbn [GeminiLive.env_live_connect GeminiLive.env_createMediaStreamSource
       GeminiLive.env_createScriptProcessor GeminiLive.env_source_connect
       GeminiLive.env_processor_connect].
  destruct settled as [st|e|]; cbn; [|reflexivity|reflexivity].
  destruct e3 as [sess|e3|]; cbn; [|reflexivity|reflexivity].
  destruct ctx0 as [c|]; cbn; [|split_last].
  destruct e4 as [[]|e4], e5 as [[]|e5], e6 as [[]|e6], e7 as [[]|e7]; cbn;
    first [split_last | reflexivity].
Qed.

Lemma settles_connect_from_live_connect (env : GeminiLive.ConnectEnv)
    (settled : completion GenAI.LiveSession) (svc : GeminiLive.Service) :
  settles (trace (Resumed.connect_from_live_connect env settled svc)).
Proof.
  apply try_connect_settles.
  destruct env as [e1 e2 e3 e4 e5 e6 e7], svc as [sess0 ctx0 st0 p0 src0 buf].
  unfold reports_last, GeminiLive.setupAudioProcessing, bind, call, lift.
  cbn [GeminiLive.env_live_connect GeminiLive.env_createMediaStreamSource
       GeminiLive.env_createScriptProcessor GeminiLive.env_source_connect
       GeminiLive.env_processor_connect].
  destruct settled as [sess|e|]; cbn; [|reflexivity|reflexivity].
  destruct ctx0 as [c|], st0 as [st|]; cbn; try split_last.
  destruct e4 as [[]|e4], e5 as [[]|e5], e6 as [[]|e6], e7 as [[]|e7]; cbn;
    first [split_last | reflexivity].
Qed.

Lemma on_liveService_steady (method : GeminiLive.SM unit) (s : State) :
  (forall svc, settles (trace (method svc))) ->
  steady s -> steady (final (on_liveService method s)).
Proof.
  intros Hshape Hs. destruct (liveService s) as [svc|] eqn:Hsvc.
  - rewrite (on_liveService_run method s svc Hsvc). cbn [final fst snd].
    apply steady_settles; [apply Hshape|].
    destruct s; exact Hs.
  - rewrite (on_liveService_unmounted method s Hsvc). exact Hs.
Qed.

Lemma attempt_connection (f : File) (env : UploadEnv) (s : State) :
  connectionState (final (attempt f env s)) = connectionState s
  /\ audioStream (final (attempt f env s)) = audioStream s.
Proof.
  rewrite UploadLaws.attempt_cases.
  destruct (UploadLaws.contentPart_cells f env s) as (status & Hs0).
  destruct (Polling.contentPart f env s) as [[r0 s0] t0].
  cbn [final fst snd] in Hs0. subst s0.
  destruct s as [cs ts ct er au up us ls fi].
  destruct r0 as [part|e|]; [destruct (env_generateContent env) as [text|e|];
                             [destruct (truthy text)| |]| |];
    split; reflexivity.
Qed.

Lemma prepared_steady (s : State) : steady s -> steady (prepared s).
Proof.
  unfold steady, prepared. destruct s as [cs ts ct er au up us ls fi]. cbn.
  destruct (ConnectionState_eqb cs CONNECTED), ls; cbn; intros [H1 H2];
    split; auto; try discriminate; intros H; contradiction.
Qed.

Lemma enter_steady (e : Entry) (s : State) : steady s -> steady (final (enter e s)).
Proof.
  intros Hs. destruct e; cbn [enter].
  - (* the record button *)
    unfold toggleRecording. rewrite get_bind.
    destruct (_ || _) eqn:Hbusy.
    + apply on_liveService_steady; [apply settles_disconnect|exact Hs].
    + rewrite modify_bind.
      apply on_liveService_steady; [apply settles_connect|].
      destruct Hs as [Hcs Hau]. destruct s as [cs ts ct er au up us ls fi].
      cbn in *. split; [discriminate|]. intros Hstream.
      rewrite (Hau Hstream) in Hbusy. discriminate.
  - apply on_liveService_steady; [intros svc; apply settles_connect_from_getUserMedia|exact Hs].
  - apply on_liveService_steady; [intros svc; apply settles_connect_from_live_connect|exact Hs].
  - apply on_liveService_steady; [|exact Hs]. intros svc. left. reflexivity.
  - apply on_liveService_steady; [intros svc; apply settles_handleOnMessage|exact Hs].
  - apply on_liveService_steady; [apply settles_handleOnClose|exact Hs].
  - apply on_liveService_steady; [apply settles_handleOnError|exact Hs].
  - apply on_liveService_steady; [intros svc; apply settles_audioprocess|exact Hs].
  - destruct selected as [f|]; [|exact Hs].
    rewrite AppProofs.handleFileUpload_run.
    destruct (attempt_connection f env (prepared s)) as [H1 H2].
    destruct (attempt f env (prepared s)) as [[r s'] t]. cbn [final fst snd] in *.
    destruct (prepared_steady s Hs) as [K1 K2]. split; rewrite ?H1, ?H2; assumption.
  - rewrite AppProofs.clearTranscripts_run.
    destruct (store_is_empty s); [exact Hs|].
    destruct answer; [|exact Hs].
    destruct (ConnectionState_eqb (connectionState s) CONNECTED); destruct s; exact Hs.
  - destruct s; exact Hs.
  - apply on_liveService_steady; [apply settles_disconnect|exact Hs].
Qed.

(** Property X13.  Between two handlers the component never shows the
    state [ERROR], and it holds a stream for the visualizer only while it
    shows [CONNECTED]: whatever the user, the session, the audio
    processor and the resumed calls do, and in whatever order, every
    failure that sets [ERROR] is followed in the same handler by the
    teardown, which reports "not connected". *)
Theorem error_state_never_stays :
  (forall (entries : list Entry) (s : State),
     steady s -> steady (journey entries s))
  /\ (forall entries : list Entry,
        connectionState (journey entries mounted) <> ERROR
        /\ (audioStream (journey entries mounted) <> None ->
            connectionState (journey entries mounted) = CONNECTED)).
Proof.
  assert (Hall : forall entries s, steady s -> steady (journey entries s)).
  { induction entries as [|e entries IH]; intros s Hs; [exact Hs|].
    cbn [journey fold_left]. apply IH, enter_steady, Hs. }
  split; [exact Hall|]. intros entries. apply Hall.
  split; [discriminate|]. intros H. contradiction.
Qed.

Lemma error_state_never_stays_witness :
  steady (journey [PressRecord Observations.denied; SessionFailed] mounted).
Proof.
  destruct error_state_never_stays as (Hall & _).
  apply (Hall [PressRecord Observations.denied; SessionFailed] mounted).
  split; [discriminate|]. intros H. contradiction.
Defined.

(** ** The record button *)

Lemma idle_guard (s : State) :
  connectionState s <> CONNECTED -> connectionState s <> CONNECTING ->
  ConnectionState_eqb (connectionState s) CONNECTED
  || ConnectionState_eqb (connectionState s) CONNECTING = false.
Proof. destruct (connectionState s); intros H1 H2; try reflexivity; contradiction. Qed.

Lemma toggleRecording_start (env : GeminiLive.ConnectEnv) (s : State)
    (svc : GeminiLive.Service) :
  liveService s = Some svc ->
  connectionState s <> CONNECTED -> connectionState s <> CONNECTING ->
  toggleRecording env s
  = (result (GeminiLive.connect env svc),
     fold_left react (trace (GeminiLive.connect env svc))
       (set_liveService (Some (final (GeminiLive.connect env svc)))
          (setConnectionState CONNECTING s)),
     map Live (trace (GeminiLive.connect env svc))).
Proof.
  intros Hsvc H1 H2. unfold toggleRecording.
  rewrite get_bind, (idle_guard s H1 H2), modify_bind.
  apply on_liveService_run. destruct s; exact Hsvc.
Qed.

(** Property X14.  Pressing the record button while idle, when a step of
    [connect()] fails: the handler returns normally, and the component
    ends as [DISCONNECTED], not as [ERROR], with the message of the
    failure (or "Failed to connect to Gemini Live Service") in the error
    banner, no stream, the service as new, and the transcript and the text
    in progress as they were. *)
Theorem failed_start_ends_disconnected
    (env : GeminiLive.ConnectEnv) (s : State) (svc : GeminiLive.Service) (e : Error) :
  liveService s = Some svc ->
  connectionState s <> CONNECTED ->
  connectionState s <> CONNECTING ->
  result (GeminiLive.connect_try env svc) = Throw e ->
  let r := toggleRecording env s in
  result r = Normal tt
  /\ connectionState (final r) = DISCONNECTED
  /\ error (final r)
     = Some (or_else (message e) (lit "Failed to connect to Gemini Live Service"))
  /\ audioStream (final r) = None
  /\ liveService (final r) = Some GeminiLive.new_Service
  /\ transcripts (final r) = transcripts s
  /\ currentText (final r) = currentText s
  /\ last (trace r) = Some (Live (GeminiLive.OnStatusChange false)).
Proof.
  intros Hsvc H1 H2 Hfail. cbv zeta.
  rewrite (toggleRecording_start env s svc Hsvc H1 H2).
  rewrite (ServiceProofs.connect_failure_run env svc e Hfail).
  pose proof (connect_try_reports_last env svc) as Htry.
  unfold reports_last in Htry. rewrite Hfail in Htry.
  cbn [result final trace fst snd].
  rewrite !fold_left_app, (fold_react_passive _ _ Htry).
  cbn [fold_left].
  rewrite (fold_react_passive _ _ (AppProofs.release_events_passive _)).
  rewrite !map_app. cbn [map]. rewrite !app_assoc, last_snoc.
  destruct s as [cs ts ct er au up us ls fi]. cbn. repeat split; reflexivity.
Qed.

Lemma failed_start_ends_disconnected_witness :
  connectionState (final (toggleRecording Observations.denied mounted)) = DISCONNECTED
  /\ error (final (toggleRecording Observations.denied mounted))
     = Some (lit "Permission denied").
Proof.
  destruct (failed_start_ends_disconnected Observations.denied mounted
              GeminiLive.new_Service (mkError (lit "Permission denied")) eq_refl)
    as (_ & Hcs & Her & _).
  - discriminate.
  - discriminate.
  - reflexivity.
  - split; [exact Hcs|exact Her].
Defined.

(** Property X15.  Pressing the record button while idle, when every
    step of [connect()] succeeds: the component shows [CONNECTING] only
    while the handler runs and ends as [CONNECTED], with the granted stream
    for the visualizer and the error banner cleared; the calls are those of
    [connect()], the notification last.  When the user has not answered the
    microphone prompt yet, the handler is suspended and the component shows
    [CONNECTING], without a stream, the service holding the audio context
    only. *)
Theorem start_ends_connected :
  (forall env s svc c st sess,
     liveService s = Some svc ->
     connectionState s <> CONNECTED ->
     connectionState s <> CONNECTING ->
     Observations.succeeds env c st sess ->
     let r := toggleRecording env s in
     result r = Normal tt
     /\ connectionState (final r) = CONNECTED
     /\ audioStream (final r) = Some st
     /\ error (final r) = None
     /\ liveService (final r) = Some (Observations.connected svc c st sess)
     /\ transcripts (final r) = transcripts s
     /\ currentText (final r) = currentText s
     /\ trace r
        = map Live (Teardown.acquisition st ++ [GeminiLive.OnStatusChange true]))
  /\ (forall env s svc c,
        liveService s = Some svc ->
        connectionState s <> CONNECTED ->
        connectionState s <> CONNECTING ->
        GeminiLive.env_AudioContext env = Returns c ->
        GeminiLive.env_getUserMedia env = Pending ->
        let r := toggleRecording env s in
        result r = Pending
        /\ connectionState (final r) = CONNECTING
        /\ audioStream (final r) = audioStream s
        /\ error (final r) = error s
        /\ liveService (final r)
           = Some (GeminiLive.set_inputAudioContext (Some c) svc)
        /\ trace r
           = [Live (GeminiLive.NewAudioContext 16000); Live (GeminiLive.GetUserMedia true)]).
Proof.
  split.
  - intros env s svc c st sess Hsvc H1 H2 Hok. cbv zeta.
    rewrite (toggleRecording_start env s svc Hsvc H1 H2).
    rewrite (ServiceProofs.connect_success_run env svc c st sess Hok).
    destruct s as [cs ts ct er au up us ls fi]. cbn. repeat split; reflexivity.
  - intros env s svc c Hsvc H1 H2 Hc Hmic. cbv zeta.
    rewrite (toggleRecording_start env s svc Hsvc H1 H2).
    assert (Hrun : GeminiLive.connect env svc
                   = (Pending, GeminiLive.set_inputAudioContext (Some c) svc,
                      [GeminiLive.NewAudioContext 16000; GeminiLive.GetUserMedia true])).
    { unfold GeminiLive.connect, GeminiLive.connect_try, try_catch, bind, call.
      rewrite Hc, Hmic. reflexivity. }
    rewrite Hrun.
    destruct s as [cs ts ct er au up us ls fi]. cbn. repeat split; reflexivity.
Qed.

Lemma start_ends_connected_witness :
  connectionState (final (toggleRecording Observations.granted mounted)) = CONNECTED
  /\ audioStream (final (toggleRecording Observations.granted mounted))
     = Some (GeminiLive.mkStream [0%nat]).
Proof.
  destruct start_ends_connected as (Hstart & _).
  destruct (Hstart Observations.granted mounted GeminiLive.new_Service
              (GeminiLive.mkContext 16000) (GeminiLive.mkStream [0%nat])
              (GenAI.mkSession (Returns tt)) eq_refl)
    as (_ & Hcs & Hau & _).
  - discriminate.
  - discriminate.
  - repeat split.
  - split; [exact Hcs|exact Hau].
Defined.

Lemma busy_guard (s : State) :
  connectionState s = CONNECTED \/ connectionState s = CONNECTING ->
  ConnectionState_eqb (connectionState s) CONNECTED
  || ConnectionState_eqb (connectionState s) CONNECTING = true.
Proof. intros [->| ->]; reflexivity. Qed.

Lemma on_liveService_message_run (now : N) (message : GenAI.LiveServerMessage)
    (s : State) (svc : GeminiLive.Service) :
  liveService s = Some svc ->
  let r := GeminiLive.handleOnMessage now message svc in
  let accumulated :=
    GeminiLive.currentInputTranscription svc
    ++ default [] (Observations.fragment message) in
  on_liveService (GeminiLive.handleOnMessage now message) s
  = (Normal tt,
     (if Observations.turn_complete message && truthy (trim accumulated)
      then setCurrentText []
             (setTranscripts (fun prev => prev ++ [Observations.final_item now accumulated])
                             (set_liveService (Some (final r)) s))
      else match Observations.fragment message with
           | Some _ => setCurrentText accumulated (set_liveService (Some (final r)) s)
           | None => set_liveService (Some (final r)) s
           end),
     map Live (trace r)).
Proof.
  intros Hsvc. cbv zeta. rewrite (on_liveService_run _ s svc Hsvc).
  pose proof (ServiceProofs.handleOnMessage_cases now message svc) as Hrun.
  cbv zeta in Hrun. rewrite Hrun. clear Hrun.
  destruct s as [cs ts ct er au up us ls fi].
  destruct (Observations.fragment message) as [t|];
    destruct (Observations.turn_complete message && truthy (trim _));
    reflexivity.
Qed.

(** Property X16.  Pressing the record button while [CONNECTED] or
    [CONNECTING] runs [disconnect()] and nothing else: the component ends
    as [DISCONNECTED] without a stream, the service is as new, and the
    transcript, the error banner and the text in progress stay as they
    were.  The text in progress is therefore neither finalized nor
    cleared, although the buffer of the service is emptied: it stays on
    screen, and the first text of a later session replaces it. *)
Theorem stop_keeps_text_in_progress
    (env : GeminiLive.ConnectEnv) (s : State) (svc : GeminiLive.Service) :
  liveService s = Some svc ->
  connectionState s = CONNECTED \/ connectionState s = CONNECTING ->
  let r := toggleRecording env s in
  r = (Normal tt, disconnected s, teardown_events svc)
  /\ connectionState (final r) = DISCONNECTED
  /\ audioStream (final r) = None
  /\ transcripts (final r) = transcripts s
  /\ currentText (final r) = currentText s
  /\ error (final r) = error s
  /\ liveService (final r) = Some GeminiLive.new_Service
  /\ (forall now message t,
        Observations.fragment message = Some t ->
        Observations.turn_complete message = false ->
        let next := on_liveService (GeminiLive.handleOnMessage now message) (final r) in
        currentText (final next) = t
        /\ transcripts (final next) = transcripts s).
Proof.
  intros Hsvc Hbusy. cbv zeta.
  assert (Hrun : toggleRecording env s = (Normal tt, disconnected s, teardown_events svc)).
  { unfold toggleRecording. rewrite get_bind, (busy_guard s Hbusy).
    apply AppProofs.on_liveService_disconnect_run, Hsvc. }
  rewrite Hrun. cbn [final fst snd].
  split; [reflexivity|].
  do 6 (split; [destruct s; reflexivity|]).
  intros now message t Hfragment Hturn.
  rewrite (on_liveService_message_run now message (disconnected s)
             GeminiLive.new_Service eq_refl).
  cbv zeta. rewrite Hfragment, Hturn.
  destruct s; split; reflexivity.
Qed.

Lemma stop_keeps_text_in_progress_witness :
  currentText (final (toggleRecording Observations.granted recording)) = lit "hel"
  /\ transcripts (final (toggleRecording Observations.granted recording)) = [].
Proof.
  destruct (stop_keeps_text_in_progress Observations.granted recording
              (default GeminiLive.new_Service (liveService recording)) eq_refl)
    as (_ & _ & _ & Hts & Hct & _).
  - left. reflexivity.
  - split; [exact Hct|exact Hts].
Defined.

(** ** The store and the session *)

Lemma message_step (now : N) (message : GenAI.LiveServerMessage) (s : State)
    (svc : GeminiLive.Service) :
  liveService s = Some svc ->
  let s1 := final (on_liveService (GeminiLive.handleOnMessage now message) s) in
  let r1 := GeminiLive.handleOnMessage now message svc in
  result r1 = Normal tt
  /\ liveService s1 = Some (final r1)
  /\ transcripts s1 = transcripts s ++ Observations.final_updates (trace r1)
  /\ (currentText s = GeminiLive.currentInputTranscription svc ->
      currentText s1 = GeminiLive.currentInputTranscription (final r1))
  /\ (Observations.updates (trace r1) <> [] ->
      currentText s1 = GeminiLive.currentInputTranscription (final r1))
  /\ connectionState s1 = connectionState s
  /\ error s1 = error s.
Proof.
  intros Hsvc. cbv zeta.
  rewrite (on_liveService_message_run now message s svc Hsvc). cbv zeta.
  pose proof (ServiceProofs.handleOnMessage_cases now message svc) as Hrun.
  cbv zeta in Hrun. rewrite Hrun. clear Hrun.
  destruct s as [cs ts ct er au up us ls fi], svc as [sess ctx st p src buf].
  cbn [currentText GeminiLive.currentInputTranscription].
  destruct (Observations.fragment message) as [t|];
    destruct (Observations.turn_complete message && truthy (trim _));
    cbn; rewrite ?app_nil_r; repeat split; auto; intros H; congruence.
Qed.

Lemma deliver_step (m : N * GenAI.LiveServerMessage)
    (rest : list (N * GenAI.LiveServerMessage)) (svc : GeminiLive.Service) :
  Dialogue.deliver (m :: rest) svc
  = match Dialogue.deliver rest (final (GeminiLive.handleOnMessage m.1 m.2 svc)) with
    | (r, svc2, t2) => (r, svc2, trace (GeminiLive.handleOnMessage m.1 m.2 svc) ++ t2)
    end.
Proof.
  rewrite ServiceLaws.deliver_cons. unfold bind.
  pose proof (ServiceProofs.handleOnMessage_cases m.1 m.2 svc) as Hrun.
  cbv zeta in Hrun. rewrite Hrun.
  destruct (Observations.turn_complete m.2 && truthy (trim _)); reflexivity.
Qed.

(** Property X17.  The store follows the session.  After any sequence of
    server messages the transcript is the one before followed by exactly
    the finalized items the service emitted, in order; the service held by
    the component is the service after those messages; and once a message
    has caused an update, the text in progress equals the buffer of the
    service (it is the buffer after a partial update, and both are empty
    after a finalized one).  The connection state and the error banner are
    not touched. *)
Theorem store_follows_the_session
    (messages : list (N * GenAI.LiveServerMessage)) (s : State)
    (svc : GeminiLive.Service) :
  liveService s = Some svc ->
  let s' := journey (map (fun m => SessionMessage m.1 m.2) messages) s in
  let r := Dialogue.deliver messages svc in
  liveService s' = Some (final r)
  /\ transcripts s' = transcripts s ++ Observations.final_updates (trace r)
  /\ (currentText s = GeminiLive.currentInputTranscription svc ->
      currentText s' = GeminiLive.currentInputTranscription (final r))
  /\ (Observations.updates (trace r) <> [] ->
      currentText s' = GeminiLive.currentInputTranscription (final r))
  /\ connectionState s' = connectionState s
  /\ error s' = error s.
Proof.
  revert s svc. cbv zeta.
  induction messages as [|m rest IH]; intros s svc Hsvc.
  - cbn. rewrite app_nil_r. repeat split; auto. intros H. contradiction.
  - cbn [map journey fold_left enter].
    destruct (message_step m.1 m.2 s svc Hsvc)
      as (_ & Hsvc1 & Hts1 & Hsync1 & Hupd1 & Hcs1 & Her1).
    cbv zeta in *.
    set (s1 := final (on_liveService (GeminiLive.handleOnMessage m.1 m.2) s)) in *.
    set (svc1 := final (GeminiLive.handleOnMessage m.1 m.2 svc)) in *.
    destruct (IH s1 svc1 Hsvc1) as (Hsvc2 & Hts2 & Hsync2 & Hupd2 & Hcs2 & Her2).
    fold (journey (map (fun m0 => SessionMessage m0.1 m0.2) rest) s1) in *.
    rewrite deliver_step. fold svc1.
    destruct (Dialogue.deliver rest svc1) as [[r2 svc2] t2].
    cbn [final trace fst snd] in *.
    split; [exact Hsvc2|]. split.
    { rewrite Hts2, Hts1, AppProofs.final_updates_app, app_assoc. reflexivity. }
    split; [intros Hsync; apply Hsync2, Hsync1, Hsync|].
    split; [|split; congruence].
    intros Hupd. unfold Observations.updates in Hupd. rewrite flat_map_app in Hupd.
    fold (Observations.updates (trace (GeminiLive.handleOnMessage m.1 m.2 svc))) in Hupd.
    fold (Observations.updates t2) in Hupd.
    destruct (Observations.updates t2) as [|item items] eqn:Ht2.
    + rewrite app_nil_r in Hupd. apply Hsync2, Hupd1, Hupd.
    + apply Hupd2. discriminate.
Qed.

Lemma store_follows_the_session_witness :
  transcripts
    (journey (map (fun m => SessionMessage m.1 m.2)
                  [(1, Dialogue.saying (lit "hi")); (2, Observations.turn_complete_message)])
             mounted)
  = [Observations.final_item 2 (lit "hi")].
Proof.
  destruct (store_follows_the_session
              [(1, Dialogue.saying (lit "hi")); (2, Observations.turn_complete_message)]
              mounted GeminiLive.new_Service eq_refl)
    as (_ & Hts & _).
  exact Hts.
Defined.

(** ** Uploads outside a session, and the clear button *)

(** Property X21.  An upload that starts in any state other than
    [CONNECTED] makes no call of the service: the service, the connection
    state and the stream stay as they were.  In particular an upload
    started while the component is [CONNECTING] does not stop the
    connection that is being opened. *)
Theorem upload_outside_session (f : File) (env : UploadEnv) (s : State) :
  connectionState s <> CONNECTED ->
  let r := handleFileUpload (Some f) env s in
  liveService (final r) = liveService s
  /\ connectionState (final r) = connectionState s
  /\ audioStream (final r) = audioStream s
  /\ (forall e, ~ In (Live e) (trace r)).
Proof.
  intros Hcs. cbv zeta. rewrite AppProofs.handleFileUpload_run.
  assert (Hguard : ConnectionState_eqb (connectionState s) CONNECTED = false).
  { destruct (connectionState s); try reflexivity. contradiction. }
  unfold prepared, pre_events. rewrite Hguard.
  set (s1 := setUploadStatus _ _).
  destruct (attempt_connection f env s1) as [H1 H2].
  destruct (AppProofs.attempt_run f env s1)
    as (r & s' & added & tb & tg & Hrun & _ & _ & _ & Hls & _ & Hb & Hg).
  rewrite Hrun in *. cbn [final trace fst snd app] in *.
  split; [rewrite Hls; destruct s; reflexivity|].
  split; [rewrite H1; destruct s; reflexivity|].
  split; [rewrite H2; destruct s; reflexivity|].
  intros e Hin. apply (AppProofs.attempt_not_live f tb tg Hb Hg _ Hin e). reflexivity.
Qed.

Lemma upload_outside_session_witness :
  connectionState
    (final (handleFileUpload (Some small_file) answering
              (setConnectionState CONNECTING mounted)))
  = CONNECTING.
Proof.
  destruct (upload_outside_session small_file answering
              (setConnectionState CONNECTING mounted))
    as (_ & Hcs & _).
  - discriminate.
  - exact Hcs.
Defined.

(** Property X22.  The clear button deletes nothing without a confirmed
    dialog: the transcript or the text in progress change only when the
    dialog was shown and answered with yes.  With nothing to clear no
    dialog is shown, a declined dialog leaves every cell as it was, and
    after a confirmed clear outside a session a second press shows no
    dialog. *)
Theorem clear_needs_confirmation (answer : bool) (s : State) :
  let r := clearTranscripts answer s in
  (transcripts (final r) <> transcripts s \/ currentText (final r) <> currentText s ->
   answer = true /\ trace r = [confirm_clear])
  /\ (store_is_empty s = true -> r = (Normal tt, s, []))
  /\ (answer = false -> final r = s)
  /\ (connectionState s <> CONNECTED ->
      clearTranscripts answer (final (clearTranscripts true s))
      = (Normal tt, final (clearTranscripts true s), [])).
Proof.
  cbv zeta. split; [|split; [|split]].
  - rewrite AppProofs.clearTranscripts_run.
    destruct (store_is_empty s); [intros [H|H]; contradiction|].
    destruct answer; cbn [final trace fst snd];
      [intros _; split; reflexivity|intros [H|H]; contradiction].
  - intros Hempty. rewrite AppProofs.clearTranscripts_run, Hempty. reflexivity.
  - intros ->. rewrite AppProofs.clearTranscripts_run.
    destruct (store_is_empty s); reflexivity.
  - intros Hcs.
    assert (Hguard : ConnectionState_eqb (connectionState s) CONNECTED = false).
    { destruct (connectionState s); try reflexivity. contradiction. }
    rewrite (AppProofs.clearTranscripts_run true s).
    destruct (store_is_empty s) eqn:Hempty; cbn [final fst snd].
    + rewrite AppProofs.clearTranscripts_run, Hempty. reflexivity.
    + rewrite Hguard, AppProofs.clearTranscripts_run. destruct s; reflexivity.
Qed.

Lemma clear_needs_confirmation_witness :
  final (clearTranscripts false dictating) = dictating
  /\ clearTranscripts true mounted = (Normal tt, mounted, []).
Proof.
  destruct (clear_needs_confirmation false dictating) as (_ & _ & Hdeclined & _).
  destruct (clear_needs_confirmation true mounted) as (_ & Hempty & _).
  split; [apply Hdeclined; reflexivity|apply Hempty; reflexivity].
Defined.

End ComponentLaws.

(** ** The component: the copy button and the file reader *)

Module RestLaws.

Import JSText App AppRest AppObservations.

#[local] Arguments lit : simpl never.

Lemma split_piece (sep : code_unit) (x rest : jsstring) :
  ~ In sep x ->
  String_split sep (x ++ sep :: rest) = x :: String_split sep rest.
Proof.
  induction x as [|c x IH]; intros Hx.
  - cbn [app String_split]. rewrite N.eqb_refl. reflexivity.
  - cbn [app String_split].
    destruct (N.eqb_spec c sep) as [->|Hc]; [exfalso; apply Hx; left; reflexivity|].
    rewrite IH by (intros Hin; apply Hx; right; exact Hin). reflexivity.
Qed.

Lemma split_whole (sep : code_unit) (x : jsstring) :
  ~ In sep x -> String_split sep x = [x].
Proof.
  induction x as [|c x IH]; intros Hx; [reflexivity|].
  cbn [String_split].
  destruct (N.eqb_spec c sep) as [->|Hc]; [exfalso; apply Hx; left; reflexivity|].
  rewrite IH by (intros Hin; apply Hx; right; exact Hin). reflexivity.
Qed.

Lemma join_cons (sep x y : jsstring) (rest : list jsstring) :
  Array_join sep (x :: y :: rest) = x ++ sep ++ Array_join sep (y :: rest).
Proof. reflexivity. Qed.

Lemma join_snoc (sep x : jsstring) (a : list jsstring) :
  a <> [] -> Array_join sep (a ++ [x]) = Array_join sep a ++ sep ++ x.
Proof.
  induction a as [|y a IH]; intros Ha; [contradiction|].
  destruct a as [|z a]; [reflexivity|].
  change ((y :: z :: a) ++ [x]) with (y :: (z :: a) ++ [x]).
  cbn [app]. rewrite !join_cons. cbn [app] in IH. rewrite IH by discriminate.
  rewrite <- !app_assoc. reflexivity.
Qed.

Lemma split_join (sep : code_unit) (a : list jsstring) :
  a <> [] -> Forall (fun x => ~ In sep x) a ->
  String_split sep (Array_join [sep] a) = a.
Proof.
  intros Ha Hall. induction Hall as [|x a Hx Hall IH]; [contradiction|].
  destruct a as [|y a]; [apply split_whole, Hx|].
  rewrite join_cons. cbn [app]. rewrite (split_piece sep x _ Hx).
  f_equal. apply IH. discriminate.
Qed.

Lemma split_nonempty (sep : code_unit) (s : jsstring) : String_split sep s <> [].
Proof.
  destruct s as [|c s]; [discriminate|]. cbn [String_split].
  destruct (c =? sep); [discriminate|]. destruct (String_split sep s); discriminate.
Qed.

Lemma split_snoc (sep : code_unit) (joined x : jsstring) :
  ~ In sep x ->
  String_split sep (joined ++ sep :: x) = String_split sep joined ++ [x].
Proof.
  intros Hx. induction joined as [|c joined IH].
  - cbn [app String_split]. rewrite N.eqb_refl, (split_whole _ _ Hx). reflexivity.
  - cbn [app String_split]. destruct (c =? sep); [rewrite IH; reflexivity|].
    rewrite IH. destruct (String_split sep joined) eqn:Hsplit; [|reflexivity].
    exfalso. apply (split_nonempty _ _ Hsplit).
Qed.

(** Property X18.  The text the copy button puts on the clipboard is the
    texts of the finalized items, one per line, followed by the text in
    progress on a line of its own when there is one.  With no finalized
    item and a text in progress the copied text starts with an empty line.
    When no text contains a line break, cutting the copied text at the
    line breaks gives the texts back, in order. *)
Theorem copied_text_lines (transcripts : list TranscriptItem) (currentText : jsstring) :
  (transcripts <> [] \/ currentText = [] ->
   fullText transcripts currentText
   = Array_join [line_feed]
       (map text transcripts ++ (if truthy currentText then [currentText] else [])))
  /\ (transcripts = [] -> fullText transcripts currentText
                          = if truthy currentText then line_feed :: currentText else [])
  /\ (Forall (fun item => ~ In line_feed (text item)) transcripts ->
      ~ In line_feed currentText ->
      String_split line_feed (fullText transcripts currentText)
      = match transcripts with [] => [[]] | _ :: _ => map text transcripts end
        ++ (if truthy currentText then [currentText] else [])).
Proof.
  unfold fullText. split; [|split].
  - intros [Hts| ->]; [|cbn; rewrite !app_nil_r; reflexivity].
    destruct (truthy currentText); [|rewrite !app_nil_r; reflexivity].
    rewrite join_snoc; [reflexivity|].
    destruct transcripts; [contradiction|discriminate].
  - intros ->. cbn. destruct (truthy currentText); reflexivity.
  - intros Hts Hct.
    assert (Hlines : Forall (fun x => ~ In line_feed x) (map text transcripts)).
    { induction Hts; cbn [map]; constructor; assumption. }
    destruct transcripts as [|item rest].
    + destruct (truthy currentText); [|reflexivity].
      apply (split_snoc line_feed [] currentText Hct).
    + destruct (truthy currentText).
      * etransitivity; [apply (split_snoc line_feed _ currentText Hct)|].
        f_equal. apply split_join; [discriminate|exact Hlines].
      * rewrite !app_nil_r. apply split_join; [discriminate|exact Hlines].
Qed.

Lemma copied_text_lines_witness :
  String_split line_feed (fullText [one_item] (lit "and then"))
  = [lit "hello world"; lit "and then"].
Proof.
  destruct (copied_text_lines [one_item] (lit "and then")) as (_ & _ & Hsplit).
  apply Hsplit.
  - repeat constructor. vm_compute. intuition discriminate.
  - vm_compute. intuition discriminate.
Defined.

(** Property X19.  The copy button never puts a blank text on the
    clipboard: when the text to copy is empty or only white space nothing
    is called and nothing changes.  Otherwise the text is written once;
    when the write succeeds the "copied" mark is set and a timer of two
    seconds is started, whose callback removes the mark; when it is
    refused the mark is not set and "Failed to copy to clipboard" goes to
    the error banner.  The handler never throws and never changes the
    transcript or the text in progress. *)
Theorem copy_outcomes (writeText : completion unit) (s : Cells) :
  let copied := fullText (transcripts (component s)) (currentText (component s)) in
  let r := copyToClipboard writeText s in
  (trim copied = [] -> r = (Normal tt, s, []))
  /\ (trim copied <> [] ->
      r = match writeText with
          | Normal _ =>
              (Normal tt, setIsCopied true s,
               [ClipboardWriteText copied; CopySetTimeout 2000])
          | Throw _ =>
              (Normal tt,
               in_app (setError (Some (lit "Failed to copy to clipboard"))) s,
               [ClipboardWriteText copied;
                CopyConsoleError (lit "Failed to copy transcript")])
          | Pending => (Pending, s, [ClipboardWriteText copied])
          end)
  /\ (forall t, In (ClipboardWriteText t) (trace r) -> t = copied /\ trim t <> [])
  /\ (forall e, result r <> Throw e)
  /\ transcripts (component (final r)) = transcripts (component s)
  /\ currentText (component (final r)) = currentText (component s)
  /\ isCopied (final (copied_timeout (final r))) = false.
Proof.
  cbv zeta. unfold copyToClipboard. rewrite get_bind. cbv zeta.
  set (copied := fullText _ _).
  destruct (truthy (trim copied)) eqn:Htrim; cbn [negb].
  - apply truthy_nonempty in Htrim.
    assert (Hrun :
      try_catch
        (call (ClipboardWriteText copied) writeText ;;
         modify (setIsCopied true) ;; emit (CopySetTimeout 2000))
        (fun _ => emit (CopyConsoleError (lit "Failed to copy transcript")) ;;
                  modify (in_app (setError (Some (lit "Failed to copy to clipboard"))))) s
      = match writeText with
        | Normal _ =>
            (Normal tt, setIsCopied true s,
             [ClipboardWriteText copied; CopySetTimeout 2000])
        | Throw _ =>
            (Normal tt,
             in_app (setError (Some (lit "Failed to copy to clipboard"))) s,
             [ClipboardWriteText copied;
              CopyConsoleError (lit "Failed to copy transcript")])
        | Pending => (Pending, s, [ClipboardWriteText copied])
        end).
    { destruct writeText as [[]|e|]; reflexivity. }
    rewrite Hrun. clear Hrun.
    split; [intros Hblank; contradiction|]. split; [reflexivity|].
    destruct s as [[cs ts ct er au up us ls fi] copiedMark].
    destruct writeText as [[]|e|]; cbn [result final trace fst snd];
      (split;
       [intros t Hin;
        repeat (destruct Hin as [Hin|Hin];
                [first [discriminate Hin
                       |injection Hin as <-; split; [reflexivity|exact Htrim]]|]);
        destruct Hin
       |repeat split; discriminate]).
  - apply truthy_empty in Htrim. unfold ret. cbn [result final trace fst snd].
    split; [reflexivity|]. split; [intros Hnb; contradiction|].
    split; [intros t []|]. repeat split. discriminate.
Qed.

Lemma copy_outcomes_witness :
  copyToClipboard (Normal tt) (mkCells mounted false) = (Normal tt, mkCells mounted false, [])
  /\ copyToClipboard (Normal tt) (mkCells dictating false)
     = (Normal tt, mkCells dictating true,
        [ClipboardWriteText (fullText [one_item] (lit "and then"));
         CopySetTimeout 2000]).
Proof.
  destruct (copy_outcomes (Normal tt) (mkCells mounted false)) as (Hblank & _).
  destruct (copy_outcomes (Normal tt) (mkCells dictating false)) as (_ & Hcopy & _).
  split.
  - apply Hblank. reflexivity.
  - apply Hcopy. vm_compute. discriminate.
Defined.

Lemma comma_not_base64 (bytes : list N) : ~ In comma (base64_encode bytes).
Proof.
  pose proof (EncoderLaws.base64_encode_chars bytes) as Hchars.
  rewrite Forall_forall in Hchars. intros Hin.
  apply list_elem_of_In in Hin. destruct (Hchars comma Hin) as [Halpha|Hpad].
  - revert Halpha. clear. vm_compute. intuition discriminate.
  - discriminate Hpad.
Qed.

(** Property X20.  [fileToBase64] answers with what stands between the
    first and the second comma of the data URL the reader produced.  For a
    data URL whose header has no comma and whose payload is the Base64 of
    the bytes of the file it answers with that payload, which decodes to
    the bytes; a reader result without a comma gives [undefined], not an
    error; and a failed read is rejected with the error of the reader. *)
Theorem fileToBase64_payload (f : File) (s : State) :
  (forall header payload rest,
     ~ In comma header -> ~ In comma payload ->
     fileToBase64 f (Normal (header ++ comma :: payload)) s
     = (Normal (Some payload), s, [ReadAsDataURL f])
     /\ fileToBase64 f (Normal (header ++ comma :: payload ++ comma :: rest)) s
        = (Normal (Some payload), s, [ReadAsDataURL f]))
  /\ (forall header bytes,
        ~ In comma header -> Forall (fun b => b < 256) bytes ->
        exists base64,
          fileToBase64 f (Normal (header ++ comma :: base64_encode bytes)) s
          = (Normal (Some base64), s, [ReadAsDataURL f])
          /\ atob base64 = Some bytes)
  /\ (forall reader_result,
        ~ In comma reader_result ->
        fileToBase64 f (Normal reader_result) s = (Normal None, s, [ReadAsDataURL f]))
  /\ (forall e, fileToBase64 f (Throw e) s = (Throw e, s, [ReadAsDataURL f])).
Proof.
  assert (Hrun : forall reader_result,
    fileToBase64 f (Normal reader_result) s
    = (Normal (String_split comma reader_result !! 1%nat), s, [ReadAsDataURL f])).
  { intros reader_result. reflexivity. }
  split; [|split; [|split]].
  - intros header payload rest Hheader Hpayload. rewrite !Hrun.
    rewrite !(split_piece comma header _ Hheader).
    rewrite (split_whole comma payload Hpayload).
    rewrite (split_piece comma payload rest Hpayload). split; reflexivity.
  - intros header bytes Hheader Hbytes. exists (base64_encode bytes).
    rewrite Hrun, (split_piece comma header _ Hheader).
    rewrite (split_whole comma _ (comma_not_base64 bytes)).
    split; [reflexivity|]. apply base64_decode_encode, Hbytes.
  - intros reader_result Hnone. rewrite Hrun, (split_whole comma _ Hnone). reflexivity.
  - intros e. reflexivity.
Qed.

Lemma fileToBase64_payload_witness :
  fileToBase64 small_file (Normal (lit "data:audio/wav;base64,UklGRg==")) mounted
  = (Normal (Some (lit "UklGRg==")), mounted, [ReadAsDataURL small_file]).
Proof.
  destruct (fileToBase64_payload small_file mounted) as (Hpayload & _).
  destruct (Hpayload (lit "data:audio/wav;base64") (lit "UklGRg==") []) as (Hrun & _).
  - vm_compute. intuition discriminate.
  - vm_compute. intuition discriminate.
  - exact Hrun.
Defined.

End RestLaws.
